(** * CNN-RNN-CO2: the proxy model of [utils_torch.py]

    A shallow embedding of the dataset accessor, the network modules, the
    composite loss and the training loop of [utils_torch.py], and the
    properties of them that the specification states.

    The torch layers the script builds on are modelled from their documented
    behaviour: sizes are [torch.Size] lists, a raised Python exception is a
    [Raise] result, and numeric kernels that the script only calls (the
    feed-forward rows, the activations, the structural-similarity metric, the
    optimiser step) are parameters of the sections that use them. *)

From Stdlib Require Import List Arith PeanoNat ZArith Lia Bool String Permutation.
From Stdlib Require Import QArith Qminmax Lqa.
From Stdlib Require Import Reals Lra.
Import ListNotations.

Set Implicit Arguments.
Unset Strict Implicit.

Local Open Scope string_scope.
Local Open Scope list_scope.
Local Open Scope nat_scope.

(* ================================================================= *)
(** ** Python exceptions and results *)

Inductive exn : Type :=
| RuntimeError (msg : string)
| ValueError (msg : string)
| IndexError (msg : string)
| AssertionError (msg : string)
| ZeroDivisionError (msg : string)
| FileNotFoundError (msg : string).

Inductive result (A : Type) : Type :=
| Ok (a : A)
| Raise (e : exn).

Arguments Ok {A} a.
Arguments Raise {A} e.

Definition bind {A B : Type} (r : result A) (k : A -> result B) : result B :=
  match r with
  | Ok a => k a
  | Raise e => Raise e
  end.

Notation "x <- r ;; k" := (bind r (fun x => k))
  (at level 61, r at next level, right associativity).

Definition raises {A : Type} (r : result A) : Prop := exists e, r = Raise e.

Definition returns {A : Type} (r : result A) : Prop := exists a, r = Ok a.

(** [nn.Sequential]: the modules are applied in order, the first exception
    aborts the chain. *)
Fixpoint Sequential {A : Type} (mods : list (A -> result A)) (x : A) : result A :=
  match mods with
  | [] => Ok x
  | m :: rest => y <- m x ;; Sequential rest y
  end.

(* ================================================================= *)
(** ** Sizes *)

(** A [torch.Size]. *)
Definition Size : Type := list nat.

Definition numel (s : Size) : nat := fold_right Nat.mul 1 s.

Definition Size_eqb (s1 s2 : Size) : bool :=
  if list_eq_dec Nat.eq_dec s1 s2 then true else false.

(** The size argument of [view] and [reshape]: [None] is the [-1] of the
    script, every other entry of the script is a size read off a tensor. *)
Definition dims : Type := list (option nat).

Definition known_numel (d : dims) : nat :=
  fold_right (fun o acc => match o with Some n => n * acc | None => acc end) 1 d.

Definition count_infer (d : dims) : nat :=
  List.length (filter (fun o => match o with None => true | Some _ => false end) d).

Definition fill_infer (d : dims) (q : nat) : Size :=
  map (fun o => match o with Some n => n | None => q end) d.

(** torch's [infer_size]: at most one [-1]; the known entries must multiply
    to the number of elements, or divide it when one entry is inferred; an
    inferred entry next to a zero product is ambiguous. *)
Definition infer_size (d : dims) (n : nat) : result Size :=
  let newsize := known_numel d in
  match count_infer d with
  | 0 =>
      if n =? newsize then Ok (fill_infer d 0)
      else Raise (RuntimeError "shape is invalid for input size")
  | 1 =>
      if (n =? newsize) || ((0 <? newsize) && (n mod newsize =? 0)) then
        if newsize =? 0
        then Raise (RuntimeError "cannot reshape tensor of 0 elements: the unspecified dimension -1 is ambiguous")
        else Ok (fill_infer d (n / newsize))
      else Raise (RuntimeError "shape is invalid for input size")
  | _ => Raise (RuntimeError "only one dimension can be inferred")
  end.

(** [permute] on sizes: entry [i] of the result is entry [p_i] of the input. *)
Definition permute_size (s : Size) (p : list nat) : result Size :=
  if (List.length p =? List.length s) && forallb (fun i => i <? List.length s) p
  then Ok (map (fun i => nth i s 0) p)
  else Raise (RuntimeError "permute: number of dims does not match").

(* ================================================================= *)
(** ** Module configurations and constructors *)

Record Conv2d : Type := mkConv2d {
  conv_in_channels : nat;
  conv_out_channels : nat;
  conv_kernel_size : nat;
  conv_stride : nat;
  conv_padding : nat;
  conv_groups : nat;
  conv_bias : bool
}.

(** [nn.Conv2d.__init__]: the group count must be positive and divide both
    channel counts. *)
Definition Conv2d_init (in_channels out_channels kernel_size padding groups : nat)
  (bias : bool) : result Conv2d :=
  if groups =? 0 then Raise (ValueError "groups must be a positive integer")
  else if negb (in_channels mod groups =? 0)
  then Raise (ValueError "in_channels must be divisible by groups")
  else if negb (out_channels mod groups =? 0)
  then Raise (ValueError "out_channels must be divisible by groups")
  else Ok (mkConv2d in_channels out_channels kernel_size 1 padding groups bias).

Record ConvTranspose2d : Type := mkConvTranspose2d {
  deconv_in_channels : nat;
  deconv_out_channels : nat;
  deconv_kernel_size : nat;
  deconv_stride : nat;
  deconv_padding : nat;
  deconv_output_padding : nat
}.

(** [nn.ConvTranspose2d.__init__] with one group. *)
Definition ConvTranspose2d_init
  (in_channels out_channels kernel_size stride padding output_padding : nat)
  : ConvTranspose2d :=
  mkConvTranspose2d in_channels out_channels kernel_size stride padding output_padding.

Record SeparableConv2d : Type := mkSeparableConv2d {
  depthwise : Conv2d;
  pointwise : Conv2d
}.

Definition SeparableConv2d_init (in_channels out_channels : nat) : result SeparableConv2d :=
  dw <- Conv2d_init in_channels in_channels 3 1 in_channels false ;;
  pw <- Conv2d_init in_channels out_channels 1 0 1 false ;;
  Ok (mkSeparableConv2d dw pw).

Record conv_block : Type := mk_conv_block {
  cb_conv1 : SeparableConv2d;
  cb_conv2 : SeparableConv2d;
  cb_norm : nat;          (* InstanceNorm2d(out_channels) *)
  cb_pool : nat * nat     (* AvgPool2d(kernel_size, stride) *)
}.

Definition conv_block_init (in_channels out_channels : nat) : result conv_block :=
  c1 <- SeparableConv2d_init in_channels in_channels ;;
  c2 <- SeparableConv2d_init in_channels out_channels ;;
  Ok (mk_conv_block c1 c2 out_channels (2, 2)).

Record decon_block : Type := mk_decon_block {
  db_deconv : ConvTranspose2d;
  db_norm : nat           (* InstanceNorm2d(out_channels) *)
}.

Definition decon_block_init (in_channels out_channels : nat) : decon_block :=
  mk_decon_block (ConvTranspose2d_init in_channels out_channels 3 2 1 1) out_channels.

Record MultiheadAttention : Type := mkMultiheadAttention {
  embed_dim : nat;
  num_heads : nat;
  head_dim : nat
}.

(** [nn.MultiheadAttention.__init__]: both widths positive, then
    [head_dim = embed_dim // num_heads] and the assertion
    [head_dim * num_heads == embed_dim]. *)
Definition MultiheadAttention_init (embed_dim num_heads : nat) : result MultiheadAttention :=
  if (embed_dim =? 0) || (num_heads =? 0)
  then Raise (ValueError "embed_dim and num_heads must be greater than 0")
  else
    let head_dim := embed_dim / num_heads in
    if head_dim * num_heads =? embed_dim
    then Ok (mkMultiheadAttention embed_dim num_heads head_dim)
    else Raise (AssertionError "embed_dim must be divisible by num_heads").

Record Linear : Type := mkLinear {
  in_features : nat;
  out_features : nat
}.

Record VisionTransformer : Type := mkVisionTransformer {
  projector : Conv2d;     (* followed by GELU *)
  attention : MultiheadAttention;
  ffn : Linear * Linear   (* with GELU between *)
}.

(** [VisionTransformer.__init__]: projector, attention and feed-forward are
    built in this order. *)
Definition VisionTransformer_init (input_channels output_channels : nat)
  : result VisionTransformer :=
  proj <- Conv2d_init input_channels output_channels 1 0 1 true ;;
  att <- MultiheadAttention_init output_channels 16 ;;
  Ok (mkVisionTransformer proj att
        (mkLinear output_channels output_channels,
         mkLinear output_channels output_channels)).

Record LSTM : Type := mkLSTM {
  input_size : nat;
  hidden_size : nat
}.

Record RecurrentBlock : Type := mkRecurrentBlock {
  timesteps : nat;
  im_size : nat;
  input_dim : nat;
  hidden_dim : nat;
  lstm : LSTM
}.

(** [nn.LSTM.__init__] refuses an empty hidden state. *)
Definition LSTM_init (input_size hidden_size : nat) : result LSTM :=
  if hidden_size =? 0 then Raise (ValueError "hidden_size must be greater than zero")
  else Ok (mkLSTM input_size hidden_size).

Definition RecurrentBlock_init (input_dim hidden_dim timesteps im_size : nat)
  : result RecurrentBlock :=
  l <- LSTM_init (input_dim * im_size * im_size) (hidden_dim * im_size * im_size) ;;
  Ok (mkRecurrentBlock timesteps im_size input_dim hidden_dim l).

Record ProxyModel : Type := mkProxyModel {
  encoder : list conv_block;
  vit : VisionTransformer;
  recurrent : RecurrentBlock;
  decoder : list decon_block   (* each wrapped in TimeDistributedModule *)
}.

(** [ProxyModel.__init__]; the recurrent block keeps the default
    [timesteps=60] and is built for an [im_size = 2**3] latent grid. *)
Definition ProxyModel_init : result ProxyModel :=
  e1 <- conv_block_init 4 8 ;;
  e2 <- conv_block_init 8 16 ;;
  e3 <- conv_block_init 16 32 ;;
  v <- VisionTransformer_init 32 64 ;;
  r <- RecurrentBlock_init 64 32 60 (2 ^ 3) ;;
  Ok (mkProxyModel [e1; e2; e3] v r
        [decon_block_init 32 16; decon_block_init 16 8; decon_block_init 8 2]).

(* ================================================================= *)
(** ** Forward passes on sizes

    What each [forward] does to the size of its argument, and where it
    raises.  [contiguous] does not change a size; [view] is applied where the
    script applies it, after [contiguous] or to a tensor whose axes it only
    splits, so its stride test passes and the element count decides. *)

Module Sizes.

(** Layers over images take a batched [(N,C,H,W)] or an unbatched [(C,H,W)]
    argument. *)
Definition with_chw (f : nat -> nat -> nat -> result (nat * nat * nat)) (x : Size)
  : result Size :=
  match x with
  | [c; h; w] => r <- f c h w ;; let '(c', h', w') := r in Ok [c'; h'; w']
  | [n; c; h; w] => r <- f c h w ;; let '(c', h', w') := r in Ok [n; c'; h'; w']
  | _ => Raise (RuntimeError "expected 3D (unbatched) or 4D (batched) input")
  end.

(** [nn.Conv2d.forward]: the weight needs an output channel for every group,
    the input the channels of the weight and a grid that is not empty and
    that, padded, holds the kernel. *)
Definition Conv2d_forward (m : Conv2d) : Size -> result Size :=
  with_chw (fun c h w =>
    let k := conv_kernel_size m in
    let p := conv_padding m in
    if conv_out_channels m <? conv_groups m
    then Raise (RuntimeError "expected weight to be at least groups at dimension 0")
    else if negb (c =? conv_in_channels m)
    then Raise (RuntimeError "input channels do not match the weight")
    else if (h =? 0) || (w =? 0)
    then Raise (RuntimeError "expected a tensor with optional 0 dim batch size for input")
    else if (h + 2 * p <? k) || (w + 2 * p <? k)
    then Raise (RuntimeError "kernel size can't be greater than actual input size")
    else Ok (conv_out_channels m,
             (h + 2 * p - k) / conv_stride m + 1,
             (w + 2 * p - k) / conv_stride m + 1)).

(** [nn.ConvTranspose2d.forward] with one group: a weight without input or
    without output channels is refused. *)
Definition ConvTranspose2d_forward (m : ConvTranspose2d) : Size -> result Size :=
  with_chw (fun c h w =>
    let out d :=
      (d - 1) * deconv_stride m + deconv_kernel_size m + deconv_output_padding m
      - 2 * deconv_padding m in
    if (deconv_in_channels m =? 0) || (deconv_out_channels m =? 0)
    then Raise (RuntimeError "expected a weight with input and output channels")
    else if negb (c =? deconv_in_channels m)
    then Raise (RuntimeError "input channels do not match the weight")
    else if deconv_stride m <=? deconv_output_padding m
    then Raise (RuntimeError "output padding must be smaller than either stride or dilation")
    else if (h =? 0) || (w =? 0)
    then Raise (RuntimeError "non-empty spatial input expected")
    else Ok (deconv_out_channels m, out h, out w)).

(** [nn.InstanceNorm2d] without affine parameters and without running
    statistics: it normalises with the statistics of its input, which needs
    more than one spatial element. *)
Definition InstanceNorm2d_forward (num_features : nat) : Size -> result Size :=
  with_chw (fun c h w =>
    if h * w =? 1
    then Raise (ValueError "expected more than 1 spatial element when training")
    else Ok (c, h, w)).

Definition GELU_forward (x : Size) : result Size := Ok x.

Definition AvgPool2d_forward (ks : nat * nat) : Size -> result Size :=
  with_chw (fun c h w =>
    let '(k, s) := ks in
    if (h <? k) || (w <? k)
    then Raise (RuntimeError "output size is too small")
    else Ok (c, (h - k) / s + 1, (w - k) / s + 1)).

(** Sequence-first attention: [(L,N,E)], or [(L,E)] unbatched. *)
Definition MultiheadAttention_forward (m : MultiheadAttention) (query : Size)
  : result Size :=
  match query with
  | [_; e] | [_; _; e] =>
      if e =? embed_dim m then Ok query
      else Raise (AssertionError "was expecting another embedding dimension")
  | _ => Raise (AssertionError "query should be unbatched 2D or batched 3D tensor")
  end.

(** [nn.Linear] acts on the last axis. *)
Definition Linear_forward (m : Linear) (x : Size) : result Size :=
  match rev x with
  | [] => Raise (RuntimeError "both arguments to linear need to be at least 1D")
  | f :: lead =>
      if f =? in_features m then Ok (rev lead ++ [out_features m])
      else Raise (RuntimeError "mat1 and mat2 shapes cannot be multiplied")
  end.

(** Batch-first [nn.LSTM]: [(N,T,input_size)], or [(T,input_size)]
    unbatched. *)
Definition LSTM_forward (m : LSTM) (x : Size) : result Size :=
  match x with
  | [t; f] =>
      if f =? input_size m then Ok [t; hidden_size m]
      else Raise (RuntimeError "input.size(-1) must be equal to input_size")
  | [n; t; f] =>
      if f =? input_size m then Ok [n; t; hidden_size m]
      else Raise (RuntimeError "input.size(-1) must be equal to input_size")
  | _ => Raise (ValueError "LSTM: expected input to be 2D or 3D")
  end.

Definition view (x : Size) (d : dims) : result Size := infer_size d (numel x).

Definition reshape (x : Size) (d : dims) : result Size := infer_size d (numel x).

Definition permute (x : Size) (p : list nat) : result Size := permute_size x p.

(** [x.repeat(r_0, ..., r_k)]: the size is padded with leading ones. *)
Definition repeat (x : Size) (reps : list nat) : result Size :=
  if List.length reps <? List.length x
  then Raise (RuntimeError "number of repeat dims can not be smaller than number of tensor dims")
  else
    let x' := List.repeat 1 (List.length reps - List.length x) ++ x in
    Ok (map (fun ab => fst ab * snd ab) (combine x' reps)).

(** [x.size(i)] *)
Definition size_at (x : Size) (i : nat) : result nat :=
  match nth_error x i with
  | Some d => Ok d
  | None => Raise (IndexError "dimension out of range")
  end.

(** [a, b, c, d = x.size()] *)
Definition unpack4 (x : Size) : result (nat * nat * nat * nat) :=
  match x with
  | [a; b; c; d] => Ok (a, b, c, d)
  | _ => Raise (ValueError "wrong number of values to unpack")
  end.

Definition unpack5 (x : Size) : result (nat * nat * nat * nat * nat) :=
  match x with
  | [a; b; c; d; e] => Ok (a, b, c, d, e)
  | _ => Raise (ValueError "wrong number of values to unpack")
  end.

Definition SeparableConv2d_forward (m : SeparableConv2d) (x : Size) : result Size :=
  out <- Conv2d_forward (depthwise m) x ;;
  Conv2d_forward (pointwise m) out.

Definition TimeDistributedModule_forward (module : Size -> result Size) (x : Size)
  : result Size :=
  p <- unpack5 x ;;
  let '(batch_size, time_steps, channels, height, width) := p in
  x <- reshape x [None; Some channels; Some height; Some width] ;;
  module_output <- module x ;;
  s2 <- size_at module_output 2 ;;
  s3 <- size_at module_output 3 ;;
  reshape module_output [Some batch_size; Some time_steps; None; Some s2; Some s3].

Definition conv_block_forward (m : conv_block) (x : Size) : result Size :=
  x <- SeparableConv2d_forward (cb_conv1 m) x ;;
  x <- SeparableConv2d_forward (cb_conv2 m) x ;;
  x <- InstanceNorm2d_forward (cb_norm m) x ;;
  x <- GELU_forward x ;;
  AvgPool2d_forward (cb_pool m) x.

Definition decon_block_forward (m : decon_block) (x : Size) : result Size :=
  x <- ConvTranspose2d_forward (db_deconv m) x ;;
  x <- InstanceNorm2d_forward (db_norm m) x ;;
  GELU_forward x.

Definition VisionTransformer_forward (m : VisionTransformer) (x : Size) : result Size :=
  projected_x <- Sequential [Conv2d_forward (projector m); GELU_forward] x ;;
  p <- unpack4 projected_x ;;
  let '(batch_size, channels, height, width) := p in
  v <- view projected_x [Some batch_size; Some channels; None] ;;
  x_reshaped <- permute v [2; 0; 1] ;;
  attended_x <- MultiheadAttention_forward (attention m) x_reshaped ;;
  a <- permute attended_x [1; 2; 0] ;;
  attended_x <- view a [Some batch_size; Some channels; Some height; Some width] ;;
  a <- permute attended_x [0; 2; 1; 3] ;;
  attended_x <- view a [Some batch_size; Some (height * width); Some channels] ;;
  ffn_output <- Sequential [Linear_forward (fst (ffn m)); GELU_forward;
                            Linear_forward (snd (ffn m))] attended_x ;;
  f <- view ffn_output [Some batch_size; Some height; Some width; Some channels] ;;
  permute f [0; 3; 1; 2].

Definition RecurrentBlock_forward (m : RecurrentBlock) (x : Size) : result Size :=
  p <- unpack4 x ;;
  let '(batch_size, channels, height, width) := p in
  x_reshaped <- reshape x [Some batch_size; Some (channels * height * width)] ;;
  v <- view x_reshaped [Some batch_size; Some 1; Some (channels * height * width)] ;;
  x_repeated <- repeat v [1; timesteps m; 1] ;;
  x_recurrent <- LSTM_forward (lstm m) x_repeated ;;
  view x_recurrent [Some batch_size; Some (timesteps m); Some (hidden_dim m);
                    Some (im_size m); Some (im_size m)].

Definition ProxyModel_forward (m : ProxyModel) (x : Size) : result Size :=
  encoded <- Sequential (map conv_block_forward (encoder m)) x ;;
  vit_encoded <- VisionTransformer_forward (vit m) encoded ;;
  rnn_encoded <- RecurrentBlock_forward (recurrent m) vit_encoded ;;
  Sequential
    (map (fun d => TimeDistributedModule_forward (decon_block_forward d)) (decoder m))
    rnn_encoded.

(** [model = ProxyModel(); model(x)] *)
Definition model (x : Size) : result Size :=
  m <- ProxyModel_init ;;
  ProxyModel_forward m x.

End Sizes.

(** [SeparableConv2d] takes a [kernel_size] and a [bias]; the blocks above
    are built with the defaults [(3,3)] and [False].  Here is the layer for
    every kernel. *)

(** [nn.Conv2d] with a rectangular kernel. *)
Record Conv2d_rect : Type := mkConv2d_rect {
  rect_in_channels : nat;
  rect_out_channels : nat;
  rect_kernel_size : nat * nat;
  rect_padding : nat;
  rect_groups : nat;
  rect_bias : bool
}.

Definition Conv2d_rect_init (in_channels out_channels : nat) (kernel_size : nat * nat)
  (padding groups : nat) (bias : bool) : result Conv2d_rect :=
  if groups =? 0 then Raise (ValueError "groups must be a positive integer")
  else if negb (in_channels mod groups =? 0)
  then Raise (ValueError "in_channels must be divisible by groups")
  else if negb (out_channels mod groups =? 0)
  then Raise (ValueError "out_channels must be divisible by groups")
  else Ok (mkConv2d_rect in_channels out_channels kernel_size padding groups bias).

Definition Conv2d_rect_forward (m : Conv2d_rect) : Size -> result Size :=
  Sizes.with_chw (fun c h w =>
    let '(kh, kw) := rect_kernel_size m in
    let p := rect_padding m in
    if rect_out_channels m <? rect_groups m
    then Raise (RuntimeError "expected weight to be at least groups at dimension 0")
    else if negb (c =? rect_in_channels m)
    then Raise (RuntimeError "input channels do not match the weight")
    else if (h =? 0) || (w =? 0)
    then Raise (RuntimeError "expected a tensor with optional 0 dim batch size for input")
    else if (h + 2 * p <? kh) || (w + 2 * p <? kw)
    then Raise (RuntimeError "kernel size can't be greater than actual input size")
    else Ok (rect_out_channels m, h + 2 * p - kh + 1, w + 2 * p - kw + 1)).

Record SeparableConv2d_rect : Type := mkSeparableConv2d_rect {
  depthwise_rect : Conv2d_rect;
  pointwise_rect : Conv2d
}.

(** [SeparableConv2d.__init__] with all its arguments: the padding of the
    depthwise layer is 1 whatever the kernel is. *)
Definition SeparableConv2d_init_kernel (in_channels out_channels : nat)
  (kernel_size : nat * nat) (bias : bool) : result SeparableConv2d_rect :=
  dw <- Conv2d_rect_init in_channels in_channels kernel_size 1 in_channels bias ;;
  pw <- Conv2d_init in_channels out_channels 1 0 1 bias ;;
  Ok (mkSeparableConv2d_rect dw pw).

Definition SeparableConv2d_rect_forward (m : SeparableConv2d_rect) (x : Size)
  : result Size :=
  out <- Conv2d_rect_forward (depthwise_rect m) x ;;
  Sizes.Conv2d_forward (pointwise_rect m) out.

(* ================================================================= *)
(** ** Tensors with values

    A tensor is its size and its elements in contiguous row-major order.
    [permute] yields the elements in the order [permute(...).contiguous()]
    stores them, which is also the order in which [view] and [reshape] read
    a permuted tensor where they accept it. *)

(** The multi-index of the element at offset [k], and back. *)
Fixpoint unravel (s : Size) (k : nat) : list nat :=
  match s with
  | [] => []
  | _ :: s' => k / numel s' :: unravel s' (k mod numel s')
  end.

Fixpoint ravel (s : Size) (idx : list nat) : nat :=
  match s, idx with
  | _ :: s', i :: idx' => i * numel s' + ravel s' idx'
  | _, _ => 0
  end.

Fixpoint index_of (i : nat) (p : list nat) : nat :=
  match p with
  | [] => 0
  | j :: p' => if i =? j then 0 else S (index_of i p')
  end.

(** The index into the argument of [permute p] that lands at [out_idx]. *)
Definition source_index (p : list nat) (out_idx : list nat) : list nat :=
  map (fun i => nth (index_of i p) out_idx 0) (seq 0 (List.length p)).

(** Rows of [len] consecutive elements. *)
Fixpoint split_rows {A : Type} (count len : nat) (l : list A) : list (list A) :=
  match count with
  | 0 => []
  | S count' => firstn len l :: split_rows count' len (skipn len l)
  end.

Fixpoint zip_with {A B C : Type} (f : A -> B -> C) (l1 : list A) (l2 : list B) : list C :=
  match l1, l2 with
  | a :: l1', b :: l2' => f a b :: zip_with f l1' l2'
  | _, _ => []
  end.

Section Tensors.

Variable A : Type.

Record Tensor : Type := mkTensor {
  size : Size;
  data : list A
}.

Definition wf (t : Tensor) : Prop := List.length (data t) = numel (size t).

Definition gather (l : list A) (offsets : list nat) : list A :=
  flat_map (fun k => match nth_error l k with Some a => [a] | None => [] end) offsets.

(** [x[idx]] for a full multi-index. *)
Definition get (x : Tensor) (idx : list nat) : option A :=
  nth_error (data x) (ravel (size x) idx).

Definition reshape (x : Tensor) (d : dims) : result Tensor :=
  s <- infer_size d (numel (size x)) ;;
  Ok (mkTensor s (data x)).

Definition view (x : Tensor) (d : dims) : result Tensor := reshape x d.

Definition permute (x : Tensor) (p : list nat) : result Tensor :=
  s <- permute_size (size x) p ;;
  Ok (mkTensor s
        (gather (data x)
           (map (fun k => ravel (size x) (source_index p (unravel s k)))
              (seq 0 (numel s))))).

(** [torch.Tensor.expand] to a size the tensor broadcasts to: axes are aligned
    at the right, an axis of extent 1 is read at index 0. *)
Definition expand (x : Tensor) (s : Size) : Tensor :=
  let lead := List.length s - List.length (size x) in
  mkTensor s
    (gather (data x)
       (map (fun k =>
               ravel (size x)
                 (zip_with (fun d i => if d =? 1 then 0 else i) (size x)
                    (skipn lead (unravel s k))))
          (seq 0 (numel s)))).

(** [x[:, t]] *)
Definition select1 (x : Tensor) (t : nat) : result Tensor :=
  match size x with
  | n :: T :: rest =>
      if t <? T then
        let inner := numel rest in
        Ok (mkTensor (n :: rest)
              (flat_map (fun b => firstn inner (skipn ((b * T + t) * inner) (data x)))
                 (seq 0 n)))
      else Raise (IndexError "index out of bounds for dimension 1")
  | _ => Raise (IndexError "too many indices for tensor")
  end.

(** [nn.Identity] *)
Definition Identity (x : Tensor) : result Tensor := Ok x.

(** [TimeDistributedModule.forward] *)
Definition TimeDistributedModule_forward (module : Tensor -> result Tensor) (x : Tensor)
  : result Tensor :=
  p <- Sizes.unpack5 (size x) ;;
  let '(batch_size, time_steps, channels, height, width) := p in
  x <- reshape x [None; Some channels; Some height; Some width] ;;
  module_output <- module x ;;
  s2 <- Sizes.size_at (size module_output) 2 ;;
  s3 <- Sizes.size_at (size module_output) 3 ;;
  reshape module_output [Some batch_size; Some time_steps; None; Some s2; Some s3].

End Tensors.

(* ================================================================= *)
(** ** Numeric layers

    The element type is any type with a zero, an addition and a
    multiplication; the activations are parameters. *)

Class Num (A : Type) : Type := {
  num0 : A;
  num_add : A -> A -> A;
  num_mul : A -> A -> A
}.

#[export] Instance Num_Z : Num Z := {| num0 := 0%Z; num_add := Z.add; num_mul := Z.mul |}.

Section NumericLayers.

Context {A : Type} `{Num A}.

Definition dot (u v : list A) : A :=
  fold_right num_add num0 (zip_with num_mul u v).

Definition matvec (W : list (list A)) (v : list A) : list A :=
  map (fun row => dot row v) W.

Definition vadd (u v : list A) : list A := zip_with num_add u v.

Definition vmul (u v : list A) : list A := zip_with num_mul u v.

Record LinearParams : Type := mkLinearParams {
  lin_cfg : Linear;
  lin_weight : list (list A);   (* out_features rows of in_features entries *)
  lin_bias : list A
}.

(** [y = W x + b] for one row [x]. *)
Definition linear_row (m : LinearParams) (row : list A) : list A :=
  vadd (matvec (lin_weight m) row) (lin_bias m).

(** [nn.Linear]: [y = x W^T + b] on every row of the last axis. *)
Definition Linear_apply (m : LinearParams) (x : Tensor A) : result (Tensor A) :=
  s <- Sizes.Linear_forward (lin_cfg m) (size x) ;;
  let f := in_features (lin_cfg m) in
  Ok (mkTensor s
        (flat_map (linear_row m) (split_rows (numel (size x) / f) f (data x)))).

(** A linear layer from [C] to [C] features whose weight and bias have the
    sizes its configuration states. *)
Definition linear_width (m : LinearParams) (C : nat) : Prop :=
  lin_cfg m = mkLinear C C
  /\ List.length (lin_weight m) = C /\ List.length (lin_bias m) = C.

(** An activation acts on every element. *)
Definition elementwise (act : A -> A) (x : Tensor A) : result (Tensor A) :=
  Ok (mkTensor (size x) (map act (data x))).

Section Attention.

Variable gelu : A -> A.

Record FFN : Type := mkFFN {
  ffn_fc1 : LinearParams;
  ffn_fc2 : LinearParams
}.

(** [self.ffn = nn.Sequential(nn.Linear, nn.GELU, nn.Linear)] *)
Definition ffn_forward (m : FFN) : Tensor A -> result (Tensor A) :=
  Sequential [Linear_apply (ffn_fc1 m); elementwise gelu; Linear_apply (ffn_fc2 m)].

(** The feed-forward on one row. *)
Definition ffn_row (m : FFN) (row : list A) : list A :=
  linear_row (ffn_fc2 m) (map gelu (linear_row (ffn_fc1 m) row)).

(** The run of [C] elements of the [(H,C,W)] layout of sample [b] that starts
    at offset [(i W + j) C]: they are read in row [i] of the feature map, in
    the channels and columns the offsets [j C + e] fall on. *)
Definition layout_run (x : Tensor A) (C W b i j : nat) : list (option A) :=
  map (fun e => get x [b; (j * C + e) / W; i; (j * C + e) mod W]) (seq 0 C).

(** The last three statements of [VisionTransformer.forward], from the
    post-attention feature map [attended_x] of size
    [(batch_size, channels, height, width)] to the result of the block. *)
Definition VisionTransformer_feed_forward (m : FFN)
  (batch_size channels height width : nat) (attended_x : Tensor A)
  : result (Tensor A) :=
  a <- permute attended_x [0; 2; 1; 3] ;;
  attended_x <- view a [Some batch_size; Some (height * width); Some channels] ;;
  ffn_output <- ffn_forward m attended_x ;;
  f <- view ffn_output [Some batch_size; Some height; Some width; Some channels] ;;
  permute f [0; 3; 1; 2].

(** [VisionTransformer.forward]; the projector convolution and the attention
    kernel are the block's own layers, given as functions. *)
Definition VisionTransformer_forward
  (projector attention : Tensor A -> result (Tensor A)) (m : FFN) (x : Tensor A)
  : result (Tensor A) :=
  projected_x <- Sequential [projector; elementwise gelu] x ;;
  p <- Sizes.unpack4 (size projected_x) ;;
  let '(batch_size, channels, height, width) := p in
  v <- view projected_x [Some batch_size; Some channels; None] ;;
  x_reshaped <- permute v [2; 0; 1] ;;
  attended_x <- attention x_reshaped ;;
  a <- permute attended_x [1; 2; 0] ;;
  attended_x <- view a [Some batch_size; Some channels; Some height; Some width] ;;
  VisionTransformer_feed_forward m batch_size channels height width attended_x.

End Attention.

End NumericLayers.

(* ================================================================= *)
(** ** The recurrent expansion block *)

Section Recurrent.

Context {A : Type} `{Num A}.

Variables sigmoid tanh : A -> A.

(** The parameters of a single-layer [nn.LSTM]; the four gates are stacked
    in the order input, forget, cell, output. *)
Record LSTMParams : Type := mkLSTMParams {
  weight_ih : list (list A);
  weight_hh : list (list A);
  bias_ih : list A;
  bias_hh : list A
}.

(** One time step: [(h, c)] to [(h', c')]. *)
Definition lstm_cell (p : LSTMParams) (hs : nat) (x : list A) (hc : list A * list A)
  : list A * list A :=
  let '(h, c) := hc in
  let gates :=
    vadd (vadd (matvec (weight_ih p) x) (bias_ih p))
         (vadd (matvec (weight_hh p) h) (bias_hh p)) in
  let i := map sigmoid (firstn hs gates) in
  let f := map sigmoid (firstn hs (skipn hs gates)) in
  let g := map tanh (firstn hs (skipn (2 * hs) gates)) in
  let o := map sigmoid (firstn hs (skipn (3 * hs) gates)) in
  let c' := vadd (vmul f c) (vmul i g) in
  let h' := vmul o (map tanh c') in
  (h', c').

(** The hidden states along one sequence, and the last state. *)
Fixpoint lstm_seq (p : LSTMParams) (hs : nat) (xs : list (list A)) (hc : list A * list A)
  : list (list A) * (list A * list A) :=
  match xs with
  | [] => ([], hc)
  | x :: xs' =>
      let hc' := lstm_cell p hs x hc in
      let '(out, last) := lstm_seq p hs xs' hc' in
      (fst hc' :: out, last)
  end.

Definition zero_state (hs : nat) : list A * list A :=
  (List.repeat num0 hs, List.repeat num0 hs).

(** [nn.LSTM.forward] with [batch_first=True] on an [(N,T,input_size)]
    tensor: [hx] is the initial state of every sample, zero when it is not
    given; the result is the output and the last state of every sample.  (The
    unbatched form, which the block never passes, is left out.) *)
Definition LSTM_call (cfg : LSTM) (p : LSTMParams) (x : Tensor A)
  (hx : option (list (list A * list A)))
  : result (Tensor A * list (list A * list A)) :=
  s <- Sizes.LSTM_forward cfg (size x) ;;
  match size x with
  | [n; t; f] =>
      let h0 := match hx with
                | Some states => states
                | None => List.repeat (zero_state (hidden_size cfg)) n
                end in
      let runs :=
        zip_with (fun sample hc => lstm_seq p (hidden_size cfg) (split_rows t f sample) hc)
          (split_rows n (t * f) (data x)) h0 in
      Ok (mkTensor s (flat_map (fun r => List.concat (fst r)) runs), map snd runs)
  | _ => Raise (ValueError "LSTM: expected a batched 3D input")
  end.

(** [x.repeat(1, timesteps, 1)] on an [(N,1,F)] tensor. *)
Definition repeat_time (x : Tensor A) (timesteps : nat) : result (Tensor A) :=
  s <- Sizes.repeat (size x) [1; timesteps; 1] ;;
  match size x with
  | [n; 1; f] =>
      Ok (mkTensor s
            (flat_map (fun row => List.concat (List.repeat row timesteps))
               (split_rows n f (data x))))
  | _ => Raise (RuntimeError "repeat: expected a tensor of size (N,1,F)")
  end.

(** The block object: its configuration and the parameters of its LSTM.  It
    has no other attribute. *)
Record RecurrentBlockObj : Type := mkRecurrentBlockObj {
  rb_cfg : RecurrentBlock;
  rb_params : LSTMParams
}.

(** [RecurrentBlock.forward]: the result and the object after the call.  The
    LSTM is called without an initial state and the state it returns is
    dropped; no attribute of [self] is assigned. *)
Definition RecurrentBlock_forward (self : RecurrentBlockObj) (x : Tensor A)
  : result (Tensor A * RecurrentBlockObj) :=
  let m := rb_cfg self in
  p <- Sizes.unpack4 (size x) ;;
  let '(batch_size, channels, height, width) := p in
  x_reshaped <- reshape x [Some batch_size; Some (channels * height * width)] ;;
  v <- view x_reshaped [Some batch_size; Some 1; Some (channels * height * width)] ;;
  x_repeated <- repeat_time v (timesteps m) ;;
  r <- LSTM_call (lstm m) (rb_params self) x_repeated None ;;
  let '(x_recurrent, _) := r in
  x_output <- view x_recurrent [Some batch_size; Some (timesteps m); Some (hidden_dim m);
                                Some (im_size m); Some (im_size m)] ;;
  Ok (x_output, self).

End Recurrent.

(* ================================================================= *)
(** ** The composite loss

    Values are real numbers.  The structural-similarity metric of
    torchmetrics is a parameter: [ssim pred target] is the value
    [StructuralSimilarityIndexMeasure(data_range=1.0)] returns for one pair
    of frames, or the exception it raises. *)

Section Loss.

Local Open Scope R_scope.

Variable ssim : Tensor R -> Tensor R -> result R.

Definition Rsum (l : list R) : R := fold_right Rplus 0 l.

(** The mean of a list; for the empty list, where torch yields NaN, it is
    whatever the division of the reals gives. *)
Definition mean (l : list R) : R := Rsum l / INR (List.length l).

(** The size two sizes broadcast to, axes aligned at the right. *)
Fixpoint broadcast_rev (s1 s2 : Size) : result Size :=
  match s1, s2 with
  | [], s | s, [] => Ok s
  | d1 :: s1', d2 :: s2' =>
      rest <- broadcast_rev s1' s2' ;;
      if (d1 =? d2)%nat then Ok (d1 :: rest)
      else if (d1 =? 1)%nat then Ok (d2 :: rest)
      else if (d2 =? 1)%nat then Ok (d1 :: rest)
      else Raise (RuntimeError "the size of tensor a must match the size of tensor b")
  end.

Definition broadcast_size (s1 s2 : Size) : result Size :=
  s <- broadcast_rev (rev s1) (rev s2) ;; Ok (rev s).

(** [torch.broadcast_tensors] *)
Definition broadcast_tensors (a b : Tensor R) : result (Tensor R * Tensor R) :=
  s <- broadcast_size (size a) (size b) ;;
  Ok (expand a s, expand b s).

(** The mean of the squared differences of two lists. *)
Definition squared_error_mean (o t : list R) : R :=
  mean (zip_with (fun a b => (a - b) * (a - b)) o t).

(** [F.mse_loss]: sizes that differ only draw a warning, the arguments are
    broadcast against each other. *)
Definition mse_loss (output target : Tensor R) : result R :=
  p <- broadcast_tensors output target ;;
  let '(o, t) := p in
  Ok (squared_error_mean (data o) (data t)).

(** What the script calls the plain mean-squared error of two tensors of one
    size. *)
Definition plain_mse (output target : Tensor R) : R :=
  squared_error_mean (data output) (data target).

(** [for t in range(...)]: the body is run for each [t] in turn, the first
    exception ends the loop. *)
Fixpoint for_each {B : Type} (body : nat -> result B) (ts : list nat) : result (list B) :=
  match ts with
  | [] => Ok []
  | t :: ts' => v <- body t ;; vs <- for_each body ts' ;; Ok (v :: vs)
  end.

(** [torch.stack(xs).mean()] of scalars; an empty list cannot be stacked. *)
Definition stack_mean (xs : list R) : result R :=
  match xs with
  | [] => Raise (RuntimeError "stack expects a non-empty TensorList")
  | _ => Ok (mean xs)
  end.

Record CustomLoss : Type := mkCustomLoss {
  mse_weight : R;
  ssim_weight : R
}.

(** [CustomLoss()] *)
Definition CustomLoss_default : CustomLoss := mkCustomLoss (1 / 2) (1 / 2).

(** [CustomLoss.forward] *)
Definition CustomLoss_forward (self : CustomLoss) (output target : Tensor R) : result R :=
  mse_loss <- mse_loss output target ;;
  steps <- Sizes.size_at (size output) 1 ;;
  ssim_losses <-
    for_each (fun t =>
                pred_single <- select1 output t ;;
                target_single <- select1 target t ;;
                s <- ssim pred_single target_single ;;
                Ok (1 - s))
      (seq 0 steps) ;;
  ssim_loss <- stack_mean ssim_losses ;;
  Ok (mse_weight self * mse_loss + ssim_weight self * ssim_loss).

End Loss.

(* ================================================================= *)
(** ** The dataset

    Array values are rational numbers, so that minima, maxima and the
    normalisation can be computed exactly; a quotient is a floating-point
    value only in that a division by zero yields an infinity or NaN, as numpy
    does, instead of raising. *)

Section Dataset.

Local Open Scope Q_scope.

Inductive npfloat : Type :=
| Fin (q : Q)
| PosInf
| NegInf
| NaN.

Record ndarray : Type := mk_ndarray {
  arr_shape : Size;
  arr_values : list Q
}.

(** [np.load]: the arrays stored on disk. *)
Variable np_load : string -> result ndarray.

Definition Qmin_b (a b : Q) : Q := if Qle_bool a b then a else b.

Definition Qmax_b (a b : Q) : Q := if Qle_bool a b then b else a.

(** [a.min()] and [a.max()] over all elements; an empty array has neither. *)
Definition np_min (a : ndarray) : result Q :=
  match arr_values a with
  | [] => Raise (ValueError "zero-size array to reduction operation minimum which has no identity")
  | x :: l => Ok (fold_left Qmin_b l x)
  end.

Definition np_max (a : ndarray) : result Q :=
  match arr_values a with
  | [] => Raise (ValueError "zero-size array to reduction operation maximum which has no identity")
  | x :: l => Ok (fold_left Qmax_b l x)
  end.

(** numpy's [/] on floating-point scalars. *)
Definition true_divide (a b : Q) : npfloat :=
  if Qeq_bool b 0 then
    if Qeq_bool a 0 then NaN
    else if Qle_bool 0 a then PosInf else NegInf
  else Fin (a / b).

(** [(a - a.min()) / (a.max() - a.min())] *)
Definition normalize (a : ndarray) : result (Tensor npfloat) :=
  lo <- np_min a ;;
  hi <- np_max a ;;
  Ok (mkTensor (arr_shape a)
        (map (fun x => true_divide (x - lo) (hi - lo)) (arr_values a))).

Record CustomDataset : Type := mkCustomDataset {
  root_X : string;
  root_y : string;
  filenames_X : list string;
  filenames_y : list string
}.

Definition CustomDataset_init (filenames : list string * list string) : CustomDataset :=
  mkCustomDataset "simulations2D/input_features" "simulations2D/output_targets"
    (fst filenames) (snd filenames).

Definition CustomDataset_len (self : CustomDataset) : nat :=
  List.length (filenames_X self).

Definition path_join (root name : string) : string := (root ++ "/" ++ name)%string.

Definition list_item (l : list string) (idx : nat) : result string :=
  match nth_error l idx with
  | Some x => Ok x
  | None => Raise (IndexError "list index out of range")
  end.

(** [CustomDataset.__getitem__] *)
Definition CustomDataset_getitem (self : CustomDataset) (idx : nat)
  : result (Tensor npfloat * Tensor npfloat) :=
  X_name <- list_item (filenames_X self) idx ;;
  y_name <- list_item (filenames_y self) idx ;;
  X_array <- np_load (path_join (root_X self) X_name) ;;
  y_array <- np_load (path_join (root_y self) y_name) ;;
  X_tensor <- normalize X_array ;;
  y_tensor <- normalize y_array ;;
  Ok (X_tensor, y_tensor).

(** A value in the interval [[0,1]]. *)
Definition in_unit_interval (v : npfloat) : Prop :=
  match v with
  | Fin q => 0 <= q /\ q <= 1
  | _ => False
  end.

End Dataset.

(** A tensor that is the normalisation of an array as the script intends
    it: same shape, every value in [[0,1]], and both ends attained. *)
Definition normalized (a : ndarray) (t : Tensor npfloat) : Prop :=
  size t = arr_shape a
  /\ List.length (data t) = List.length (arr_values a)
  /\ Forall in_unit_interval (data t)
  /\ (exists q, In (Fin q) (data t) /\ Qeq q 0)
  /\ (exists q, In (Fin q) (data t) /\ Qeq q 1).

(* ================================================================= *)
(** ** The training loop

    The model with its optimiser, the random generator and the work on one
    batch are parameters; a batch is the list of the samples in it.  The loop
    is run for its trace of events. *)

Fixpoint chunks_fuel {A : Type} (fuel size : nat) (l : list A) : list (list A) :=
  match fuel with
  | 0 => []
  | S fuel' =>
      match l with
      | [] => []
      | _ => firstn size l :: chunks_fuel fuel' size (skipn size l)
      end
  end.

(** The batches a [DataLoader] cuts a sequence of samples into; the last one
    may be short. *)
Definition chunks {A : Type} (size : nat) (l : list A) : list (list A) :=
  chunks_fuel (List.length l) size l.

Section Training.

Local Open Scope R_scope.

Variable Model : Type.
Variable Rng : Type.

(** [torch.randperm(n)] on the global generator. *)
Variable randperm : Rng -> nat -> list nat * Rng.

(** [zero_grad], forward, loss, [backward] and [step] on one batch: the
    updated model and [loss.item()]. *)
Variable train_step : Model -> list nat -> result (Model * R).

(** forward and loss on one batch. *)
Variable eval_step : Model -> list nat -> result R.

Inductive event : Type :=
| EpochStart (epoch : nat)
| Split (train_subset val_subset : list nat)
| TrainBatch (batch : list nat)
| ValidBatch (batch : list nat) (grad_enabled : bool)
| Print (epoch num_epochs : nat) (tot_train_loss tot_valid_loss : R)
| Finished.

Record TrainState : Type := mkTrainState {
  st_model : Model;
  st_rng : Rng
}.

Definition batch_size : nat := 32.

Definition num_epochs : nat := 20.

(** [int(n * 0.8)] *)
Definition train_subset_size (n : nat) : nat := (4 * n / 5)%nat.

(** [torch.utils.data.random_split(dataset, [a, b])] for [a + b] samples. *)
Definition random_split (g : Rng) (a b : nat) : (list nat * list nat) * Rng :=
  let '(perm, g') := randperm g (a + b) in
  ((firstn a perm, skipn a perm), g').

(** [DataLoader(subset, shuffle=True)]: the random sampler refuses an empty
    subset. *)
Definition DataLoader_shuffled (subset : list nat) : result (list nat) :=
  match subset with
  | [] => Raise (ValueError "num_samples should be a positive integer value, but got num_samples=0")
  | _ => Ok subset
  end.

(** One pass over a shuffled loader: the order is drawn when the pass starts. *)
Definition shuffled_batches (g : Rng) (subset : list nat) : list (list nat) * Rng :=
  let '(perm, g') := randperm g (List.length subset) in
  (chunks batch_size (map (fun i => nth i subset 0%nat) perm), g').

(** [total / len(dataloader)] *)
Definition average (total : R) (batches : nat) : result R :=
  match batches with
  | 0%nat => Raise (ZeroDivisionError "float division by zero")
  | _ => Ok (total / INR batches)
  end.

(** The training batches of one epoch, in order. *)
Fixpoint train_batches (m : Model) (acc : R) (bs : list (list nat))
  : result (Model * R * list event) :=
  match bs with
  | [] => Ok (m, acc, [])
  | b :: bs' =>
      r <- train_step m b ;;
      let '(m', loss) := r in
      r' <- train_batches m' (acc + loss) bs' ;;
      let '(m'', total, evs) := r' in
      Ok (m'', total, TrainBatch b :: evs)
  end.

(** The validation batches of one epoch, in order; [grad] is the gradient
    mode they run in. *)
Fixpoint valid_batches (m : Model) (grad : bool) (acc : R) (bs : list (list nat))
  : result (R * list event) :=
  match bs with
  | [] => Ok (acc, [])
  | b :: bs' =>
      loss <- eval_step m b ;;
      r <- valid_batches m grad (acc + loss) bs' ;;
      let '(total, evs) := r in
      Ok (total, ValidBatch b grad :: evs)
  end.

(** The body of [for epoch in range(num_epochs)] on a pool of [n] samples. *)
Definition epoch_body (n : nat) (epoch : nat) (st : TrainState)
  : result (TrainState * list event) :=
  (* model.train() *)
  let k := train_subset_size n in
  let '((train_subset, val_subset), g1) := random_split (st_rng st) k (n - k) in
  train_dataloader <- DataLoader_shuffled train_subset ;;
  let valid_dataloader := chunks batch_size val_subset in
  let '(batches, g2) := shuffled_batches g1 train_dataloader in
  r <- train_batches (st_model st) 0 batches ;;
  let '(m, train_loss, train_events) := r in
  tot_train_loss <- average train_loss (List.length batches) ;;
  (* model.eval(); with torch.no_grad(): *)
  r' <- valid_batches m false 0 valid_dataloader ;;
  let '(val_loss, valid_events) := r' in
  tot_valid_loss <- average val_loss (List.length valid_dataloader) ;;
  let report :=
    if ((epoch + 1) mod 5 =? 0)%nat
    then [Print (epoch + 1) num_epochs tot_train_loss tot_valid_loss]
    else [] in
  Ok (mkTrainState m g2,
      EpochStart epoch :: Split train_subset val_subset
        :: train_events ++ valid_events ++ report).

Fixpoint run_epochs (n : nat) (epochs : list nat) (st : TrainState)
  : result (TrainState * list event) :=
  match epochs with
  | [] => Ok (st, [])
  | e :: epochs' =>
      r <- epoch_body n e st ;;
      let '(st', evs) := r in
      r' <- run_epochs n epochs' st' ;;
      let '(st'', evs') := r' in
      Ok (st'', evs ++ evs')
  end.

(** The whole loop and the final [print]. *)
Definition training (n : nat) (st : TrainState) : result (TrainState * list event) :=
  r <- run_epochs n (seq 0 num_epochs) st ;;
  let '(st', evs) := r in
  Ok (st', evs ++ [Finished]).

(** The trace of one epoch: the epoch starts, a split is drawn from the
    generator, the training batches run, the validation batches run in the
    order of the validation subset without gradients, and every fifth epoch
    is reported. *)
Definition epoch_shape (n epoch : nat) (evs : list event) : Prop :=
  exists g train_subset val_subset batches tl vl,
    evs = EpochStart epoch :: Split train_subset val_subset
            :: map TrainBatch batches
            ++ map (fun b => ValidBatch b false) (chunks batch_size val_subset)
            ++ (if ((epoch + 1) mod 5 =? 0)%nat
                then [Print (epoch + 1) num_epochs tl vl] else [])
    /\ train_subset ++ val_subset = fst (randperm g n)
    /\ List.length train_subset = train_subset_size n
    /\ List.length val_subset = (n - train_subset_size n)%nat.

Definition printed_epochs (evs : list event) : list nat :=
  flat_map (fun ev => match ev with Print e _ _ _ => [e] | _ => [] end) evs.

Definition started_epochs (evs : list event) : list nat :=
  flat_map (fun ev => match ev with EpochStart e => [e] | _ => [] end) evs.

End Training.

(* ================================================================= *)
(** ** Concrete inputs

    Parameters and data on which the properties below are evaluated. *)

(** A feed-forward whose two linear layers have identity weights and zero
    biases, over the integers. *)
Definition identity_matrix (n : nat) : list (list Z) :=
  map (fun i => map (fun j => if i =? j then 1%Z else 0%Z) (seq 0 n)) (seq 0 n).

Definition identity_linear (n : nat) : LinearParams :=
  mkLinearParams (mkLinear n n) (identity_matrix n) (List.repeat 0%Z n).

Definition identity_ffn (n : nat) : FFN := mkFFN (identity_linear n) (identity_linear n).

(** Two post-attention feature maps of size [(1,16,1,2)]: all zero, and zero
    but for channel 0 at position (0,1). *)
Definition attended_a : Tensor Z := mkTensor [1; 16; 1; 2] (List.repeat 0%Z 32).

Definition attended_b : Tensor Z :=
  mkTensor [1; 16; 1; 2] (0%Z :: 1%Z :: List.repeat 0%Z 30).

(** A recurrent block for one input channel and one hidden channel on a
    1 x 1 grid, two time steps, all LSTM parameters zero. *)
Definition zero_lstm_params : LSTMParams :=
  mkLSTMParams (List.repeat [0%Z] 4) (List.repeat [0%Z] 4)
    (List.repeat 0%Z 4) (List.repeat 0%Z 4).

Definition zero_block : RecurrentBlockObj :=
  mkRecurrentBlockObj (mkRecurrentBlock 2 1 1 1 (mkLSTM 1 1)) zero_lstm_params.

Definition frame_one : Tensor Z := mkTensor [1; 1; 1; 1] [1%Z].

Definition frame_two : Tensor Z := mkTensor [1; 1; 1; 1] [2%Z].

(** A metric to evaluate the loss with: like the one of torchmetrics it
    refuses two frames of different sizes; it scores every other pair of
    frames 1, the structural similarity of two identical frames. *)
Definition size_checking_metric (p q : Tensor R) : result R :=
  if Size_eqb (size p) (size q) then Ok 1%R
  else Raise (RuntimeError "Predictions and targets are expected to have the same shape").

Definition zeros (s : Size) : Tensor R := mkTensor s (List.repeat 0%R (numel s)).

(** A disk on which every input file holds a constant 2 x 2 field and every
    target file a field that varies. *)
Definition constant_field : ndarray := mk_ndarray [2; 2] [3%Q; 3%Q; 3%Q; 3%Q].

Definition varying_field : ndarray := mk_ndarray [2; 2] [1%Q; 2%Q; 3%Q; 5%Q].

Definition disk (path : string) : result ndarray :=
  if prefix "simulations2D/input_features/" path then Ok constant_field
  else if prefix "simulations2D/output_targets/" path then Ok varying_field
  else Raise (FileNotFoundError path).

Definition one_sample : CustomDataset := CustomDataset_init (["a.npy"], ["a.npy"]).

(** A generator that counts its draws and returns the samples in order, and
    batch steps with loss zero on a model without parameters. *)
Definition counting_randperm (g n : nat) : list nat * nat := (seq 0 n, S g).

Definition unit_train_step (m : unit) (batch : list nat) : result (unit * R) :=
  Ok (m, 0%R).

Definition unit_eval_step (m : unit) (batch : list nat) : result R := Ok 0%R.

Definition initial_state : TrainState unit nat := mkTrainState tt 0.

(** Two post-attention feature maps of size [(1,16,2,1)]: all zero, and
    zero but for channel 0 in row 1. *)
Definition column_a : Tensor Z := mkTensor [1; 16; 2; 1] (List.repeat 0%Z 32).

Definition column_b : Tensor Z :=
  mkTensor [1; 16; 2; 1] (0%Z :: 1%Z :: List.repeat 0%Z 30).

(** [torch.cat([x, x])]: a module that returns every frame twice. *)
Definition cat_twice (A : Type) (x : Tensor A) : result (Tensor A) :=
  match size x with
  | n :: rest => Ok (mkTensor (2 * n :: rest) (data x ++ data x))
  | [] => Raise (RuntimeError "zero-dimensional tensor cannot be concatenated")
  end.

(** A dataset with two input names and one target name. *)
Definition uneven_dataset : CustomDataset :=
  CustomDataset_init (["a.npy"; "b.npy"], ["a.npy"]).

(** A disk on which every file holds the varying field, and one on which
    every file holds an empty array. *)
Definition varying_disk (path : string) : result ndarray := Ok varying_field.

Definition empty_disk (path : string) : result ndarray := Ok (mk_ndarray [0] []).

(* ================================================================= *)
(** * Properties *)

Example model_64 : Sizes.model [2; 4; 64; 64] = Ok [2; 60; 2; 64; 64].
Proof. vm_compute. reflexivity. Qed.

Example model_32_128 : Sizes.model [1; 4; 32; 128] = Ok [1; 60; 2; 64; 64].
Proof. vm_compute. reflexivity. Qed.

(* ----------------------------------------------------------------- *)
(** *** Arithmetic of the layers *)

Lemma conv_same_extent (h : nat) : 1 <= h -> (h + 2 * 1 - 3) / 1 + 1 = h.
Proof. intros Hh. rewrite Nat.div_1_r. lia. Qed.

Lemma conv_point_extent (h : nat) : 1 <= h -> (h + 2 * 0 - 1) / 1 + 1 = h.
Proof. intros Hh. rewrite Nat.div_1_r. lia. Qed.

Lemma pool_extent (h : nat) : 2 <= h -> (h - 2) / 2 + 1 = h / 2.
Proof.
  intros Hh.
  replace h with ((h - 2) + 1 * 2) at 2 by lia.
  rewrite Nat.div_add by lia. reflexivity.
Qed.

Lemma deconv_extent (h : nat) : 1 <= h -> (h - 1) * 2 + 3 + 1 - 2 * 1 = 2 * h.
Proof. lia. Qed.

Lemma raises_Raise (A : Type) (e : exn) : raises (@Raise A e).
Proof. exists e. reflexivity. Qed.

Lemma raises_bind (A B : Type) (r : result A) (k : A -> result B) :
  raises r -> raises (bind r k).
Proof. intros [e ->]. exists e. reflexivity. Qed.

Lemma bind_Ok_inv (A B : Type) (r : result A) (k : A -> result B) (b : B) :
  bind r k = Ok b -> exists a, r = Ok a /\ k a = Ok b.
Proof. destruct r as [a|e]; cbn [bind]; [eauto|discriminate]. Qed.

#[local] Hint Resolve raises_Raise raises_bind : core.

(* ----------------------------------------------------------------- *)
(** *** The layers on sizes *)

Lemma infer_size_known (d : dims) (n : nat) :
  count_infer d = 0 -> n = known_numel d -> infer_size d n = Ok (fill_infer d 0).
Proof.
  intros Hc ->. unfold infer_size. rewrite Hc, Nat.eqb_refl. reflexivity.
Qed.

Lemma infer_size_infer (d : dims) (n q : nat) :
  count_infer d = 1 -> 0 < known_numel d -> n = q * known_numel d ->
  infer_size d n = Ok (fill_infer d q).
Proof.
  intros Hc Hpos ->. unfold infer_size. rewrite Hc.
  rewrite Nat.Div0.mod_mul, Nat.div_mul by lia.
  replace (0 <? known_numel d) with true by (symmetry; apply Nat.ltb_lt; assumption).
  replace (known_numel d =? 0) with false by (symmetry; apply Nat.eqb_neq; lia).
  rewrite Nat.eqb_refl, orb_true_r. reflexivity.
Qed.

Lemma infer_size_known_inv (d : dims) (n : nat) (s : Size) :
  count_infer d = 0 -> infer_size d n = Ok s -> s = fill_infer d 0.
Proof.
  intros Hc. unfold infer_size. rewrite Hc.
  destruct (n =? known_numel d); [|discriminate].
  intros Hs. injection Hs as <-. reflexivity.
Qed.

Lemma infer_size_ambiguous (d : dims) (n : nat) :
  count_infer d = 1 -> known_numel d = 0 -> raises (infer_size d n).
Proof.
  intros Hc Hz. unfold infer_size. rewrite Hc, Hz.
  cbn [Nat.ltb Nat.leb andb orb Nat.eqb].
  destruct (n =? 0); cbn [orb]; apply raises_Raise.
Qed.

Ltac sizes_cbn :=
  cbn [bind Sequential numel known_numel count_infer fill_infer fold_right filter map
       List.length andb orb negb nth nth_error fst snd rev app].

(** Decides the comparisons of a goal that linear arithmetic settles. *)
Ltac decide_tests :=
  repeat match goal with
         | |- context [?a <? ?b] =>
             first [ replace (a <? b) with true by (symmetry; apply Nat.ltb_lt; lia)
                   | replace (a <? b) with false by (symmetry; apply Nat.ltb_ge; lia) ]
         | |- context [?a <=? ?b] =>
             first [ replace (a <=? b) with true by (symmetry; apply Nat.leb_le; lia)
                   | replace (a <=? b) with false by (symmetry; apply Nat.leb_gt; lia) ]
         | |- context [?a =? ?b] =>
             first [ replace (a =? b) with true by (symmetry; apply Nat.eqb_eq; lia)
                   | replace (a =? b) with false by (symmetry; apply Nat.eqb_neq; lia) ]
         end.

Ltac conv_cbn :=
  cbn [depthwise pointwise conv_in_channels conv_out_channels conv_kernel_size
       conv_stride conv_padding conv_groups].

Section SizesOfLayers.

Import Sizes.

Lemma SeparableConv2d_forward_ok (cin cout : nat) (m : SeparableConv2d) (n h w : nat) :
  SeparableConv2d_init cin cout = Ok m ->
  1 <= cout -> 1 <= h -> 1 <= w ->
  SeparableConv2d_forward m [n; cin; h; w] = Ok [n; cout; h; w].
Proof.
  unfold SeparableConv2d_init, Conv2d_init.
  intros Hm Hc Hh Hw.
  destruct (cin =? 0) eqn:Ec; [discriminate|].
  rewrite Nat.Div0.mod_same, !Nat.mod_1_r in Hm. cbn [negb Nat.eqb bind] in Hm.
  injection Hm as <-.
  unfold SeparableConv2d_forward, Conv2d_forward, with_chw. conv_cbn.
  decide_tests. cbn [negb orb bind]. rewrite !conv_same_extent by assumption.
  decide_tests. cbn [negb orb bind]. rewrite !conv_point_extent by assumption.
  reflexivity.
Qed.

Lemma SeparableConv2d_forward_empty (cin cout : nat) (m : SeparableConv2d) (n h w : nat) :
  SeparableConv2d_init cin cout = Ok m ->
  h = 0 \/ w = 0 ->
  raises (SeparableConv2d_forward m [n; cin; h; w]).
Proof.
  unfold SeparableConv2d_init, Conv2d_init.
  intros Hm Hhw.
  destruct (cin =? 0) eqn:Ec; [discriminate|].
  rewrite Nat.Div0.mod_same, !Nat.mod_1_r in Hm. cbn [negb Nat.eqb bind] in Hm.
  injection Hm as <-.
  unfold SeparableConv2d_forward, Conv2d_forward, with_chw. conv_cbn.
  rewrite Nat.ltb_irrefl, Nat.eqb_refl. cbn [negb].
  replace ((h =? 0) || (w =? 0)) with true.
  - cbn [bind]. auto.
  - symmetry. apply orb_true_iff. rewrite !Nat.eqb_eq. exact Hhw.
Qed.

Lemma SeparableConv2d_forward_no_output (cin : nat) (m : SeparableConv2d) (x : Size) :
  SeparableConv2d_init cin 0 = Ok m ->
  raises (SeparableConv2d_forward m x).
Proof.
  unfold SeparableConv2d_init, Conv2d_init.
  intros Hm.
  destruct (cin =? 0) eqn:Ec; [discriminate|].
  rewrite Nat.Div0.mod_same, !Nat.mod_1_r in Hm. cbn [negb Nat.eqb bind] in Hm.
  injection Hm as <-.
  unfold SeparableConv2d_forward.
  destruct (Conv2d_forward (depthwise _) x) as [out|e]; cbn [bind]; [|auto].
  unfold Conv2d_forward, with_chw. conv_cbn. cbn [Nat.ltb Nat.leb].
  destruct out as [|a0 [|a1 [|a2 [|a3 [|a4 out]]]]]; cbn [bind]; auto.
Qed.

Lemma conv_block_forward_ok (cin cout : nat) (m : conv_block) (n h w : nat) :
  conv_block_init cin cout = Ok m ->
  1 <= cout -> 2 <= h -> 2 <= w ->
  conv_block_forward m [n; cin; h; w] = Ok [n; cout; h / 2; w / 2].
Proof.
  unfold conv_block_init. intros Hm Hc Hh Hw.
  destruct (SeparableConv2d_init cin cin) as [c1|] eqn:E1; [|discriminate].
  destruct (SeparableConv2d_init cin cout) as [c2|] eqn:E2; [|discriminate].
  cbn [bind] in Hm. injection Hm as <-.
  assert (Hcin : 1 <= cin).
  { unfold SeparableConv2d_init, Conv2d_init in E1.
    destruct cin; [discriminate E1|lia]. }
  unfold conv_block_forward. cbn [cb_conv1 cb_conv2 cb_norm cb_pool].
  rewrite (SeparableConv2d_forward_ok n E1) by lia. cbn [bind].
  rewrite (SeparableConv2d_forward_ok n E2) by lia. cbn [bind].
  unfold InstanceNorm2d_forward, GELU_forward, AvgPool2d_forward, with_chw.
  replace (h * w =? 1) with false by (symmetry; apply Nat.eqb_neq; nia).
  cbn [bind].
  replace (h <? 2) with false by (symmetry; apply Nat.ltb_ge; lia).
  replace (w <? 2) with false by (symmetry; apply Nat.ltb_ge; lia).
  cbn [orb bind]. rewrite !pool_extent by assumption. reflexivity.
Qed.

Lemma conv_block_forward_small (cin cout : nat) (m : conv_block) (n h w : nat) :
  conv_block_init cin cout = Ok m ->
  h < 2 \/ w < 2 ->
  raises (conv_block_forward m [n; cin; h; w]).
Proof.
  unfold conv_block_init. intros Hm Hhw.
  destruct (SeparableConv2d_init cin cin) as [c1|] eqn:E1; [|discriminate].
  destruct (SeparableConv2d_init cin cout) as [c2|] eqn:E2; [|discriminate].
  cbn [bind] in Hm. injection Hm as <-.
  assert (Hcin : 1 <= cin).
  { unfold SeparableConv2d_init, Conv2d_init in E1.
    destruct cin; [discriminate E1|lia]. }
  unfold conv_block_forward. cbn [cb_conv1 cb_conv2 cb_norm cb_pool].
  destruct (Nat.eq_dec h 0) as [Hh0|Hh0];
    [apply raises_bind, (SeparableConv2d_forward_empty n E1); auto|].
  destruct (Nat.eq_dec w 0) as [Hw0|Hw0];
    [apply raises_bind, (SeparableConv2d_forward_empty n E1); auto|].
  rewrite (SeparableConv2d_forward_ok n E1) by lia. cbn [bind].
  destruct cout as [|cout'];
    [apply raises_bind, (SeparableConv2d_forward_no_output _ E2)|].
  rewrite (SeparableConv2d_forward_ok n E2) by lia. cbn [bind].
  unfold InstanceNorm2d_forward, GELU_forward, AvgPool2d_forward, with_chw.
  destruct (h * w =? 1); cbn [bind]; auto.
  replace ((h <? 2) || (w <? 2)) with true; cbn [bind]; auto.
  symmetry. apply orb_true_iff. rewrite !Nat.ltb_lt. lia.
Qed.

Lemma permute_201 (a b c : nat) : permute [a; b; c] [2; 0; 1] = Ok [c; a; b].
Proof. reflexivity. Qed.

Lemma permute_120 (a b c : nat) : permute [a; b; c] [1; 2; 0] = Ok [b; c; a].
Proof. reflexivity. Qed.

Lemma permute_0213 (a b c d : nat) : permute [a; b; c; d] [0; 2; 1; 3] = Ok [a; c; b; d].
Proof. reflexivity. Qed.

Lemma permute_0312 (a b c d : nat) : permute [a; b; c; d] [0; 3; 1; 2] = Ok [a; d; b; c].
Proof. reflexivity. Qed.

Lemma VisionTransformer_forward_ok (cin cout : nat) (m : VisionTransformer) (n h w : nat) :
  VisionTransformer_init cin cout = Ok m ->
  1 <= n -> 1 <= h -> 1 <= w ->
  VisionTransformer_forward m [n; cin; h; w] = Ok [n; cout; h; w].
Proof.
  unfold VisionTransformer_init, Conv2d_init, MultiheadAttention_init.
  intros Hm Hn Hh Hw.
  rewrite !Nat.mod_1_r in Hm. cbn [Nat.eqb negb bind orb] in Hm.
  rewrite orb_false_r in Hm.
  destruct (cout =? 0) eqn:Ec; [discriminate|]. apply Nat.eqb_neq in Ec.
  destruct (cout / 16 * 16 =? cout); [|discriminate].
  cbn [bind] in Hm. injection Hm as <-.
  unfold VisionTransformer_forward. cbn [projector attention ffn].
  unfold Conv2d_forward, GELU_forward, with_chw. conv_cbn.
  sizes_cbn. rewrite Nat.eqb_refl. cbn [negb].
  replace (cout <? 1) with false by (symmetry; apply Nat.ltb_ge; lia).
  replace (h =? 0) with false by (symmetry; apply Nat.eqb_neq; lia).
  replace (w =? 0) with false by (symmetry; apply Nat.eqb_neq; lia).
  replace (h + 2 * 0 <? 1) with false by (symmetry; apply Nat.ltb_ge; lia).
  replace (w + 2 * 0 <? 1) with false by (symmetry; apply Nat.ltb_ge; lia).
  sizes_cbn. rewrite !conv_point_extent by assumption.
  unfold unpack4. sizes_cbn.
  unfold view at 1.
  rewrite (@infer_size_infer _ _ (h * w)); sizes_cbn; [|reflexivity|nia|ring].
  rewrite permute_201. sizes_cbn.
  unfold MultiheadAttention_forward. cbn [embed_dim]. rewrite Nat.eqb_refl. sizes_cbn.
  rewrite permute_120. sizes_cbn.
  unfold view at 1.
  rewrite infer_size_known; sizes_cbn; [|reflexivity|ring].
  rewrite permute_0213. sizes_cbn.
  unfold view at 1.
  rewrite infer_size_known; sizes_cbn; [|reflexivity|ring].
  unfold Linear_forward. sizes_cbn. cbn [in_features out_features].
  rewrite Nat.eqb_refl. sizes_cbn. rewrite Nat.eqb_refl. sizes_cbn.
  unfold view.
  rewrite infer_size_known; sizes_cbn; [|reflexivity|ring].
  apply permute_0312.
Qed.

Lemma RecurrentBlock_forward_spec (cin hid T im : nat) (m : RecurrentBlock) (n h w : nat) :
  RecurrentBlock_init cin hid T im = Ok m ->
  RecurrentBlock_forward m [n; cin; h; w]
  = if cin * h * w =? cin * im * im
    then Ok [n; T; hid; im; im]
    else Raise (RuntimeError "input.size(-1) must be equal to input_size").
Proof.
  unfold RecurrentBlock_init, LSTM_init. intros Hm.
  destruct (hid * im * im =? 0); [discriminate|].
  cbn [bind] in Hm. injection Hm as <-.
  unfold RecurrentBlock_forward, unpack4.
  cbn [timesteps im_size input_dim hidden_dim lstm]. sizes_cbn.
  unfold reshape.
  rewrite infer_size_known; sizes_cbn; [|reflexivity|ring].
  unfold view at 1.
  rewrite infer_size_known; sizes_cbn; [|reflexivity|ring].
  unfold repeat.
  cbn [List.length Nat.ltb Nat.leb Nat.sub List.repeat app combine map fst snd bind].
  unfold LSTM_forward. cbn [input_size hidden_size].
  rewrite !Nat.mul_1_r, Nat.mul_1_l.
  destruct (cin * h * w =? cin * im * im); [|reflexivity].
  sizes_cbn. unfold view.
  rewrite infer_size_known; sizes_cbn; [reflexivity|reflexivity|ring].
Qed.

Lemma decon_block_forward_ok (cin cout n h w : nat) :
  1 <= cin -> 1 <= cout -> 1 <= h -> 1 <= w ->
  decon_block_forward (decon_block_init cin cout) [n; cin; h; w]
  = Ok [n; cout; 2 * h; 2 * w].
Proof.
  unfold decon_block_init, ConvTranspose2d_init. intros Hci Hco Hh Hw.
  unfold decon_block_forward, ConvTranspose2d_forward, InstanceNorm2d_forward,
    GELU_forward, with_chw.
  cbn [db_deconv db_norm deconv_in_channels deconv_out_channels deconv_kernel_size
       deconv_stride deconv_padding deconv_output_padding].
  rewrite Nat.eqb_refl. cbn [negb Nat.leb].
  replace (cin =? 0) with false by (symmetry; apply Nat.eqb_neq; lia).
  replace (cout =? 0) with false by (symmetry; apply Nat.eqb_neq; lia).
  replace (h =? 0) with false by (symmetry; apply Nat.eqb_neq; lia).
  replace (w =? 0) with false by (symmetry; apply Nat.eqb_neq; lia).
  cbn [orb bind]. rewrite !deconv_extent by assumption.
  replace (2 * h * (2 * w) =? 1) with false by (symmetry; apply Nat.eqb_neq; nia).
  reflexivity.
Qed.

Lemma TimeDistributed_decon_block_ok (cin cout n t h w : nat) :
  1 <= n -> 1 <= t -> 1 <= cin -> 1 <= cout -> 1 <= h -> 1 <= w ->
  TimeDistributedModule_forward (decon_block_forward (decon_block_init cin cout))
    [n; t; cin; h; w]
  = Ok [n; t; cout; 2 * h; 2 * w].
Proof.
  intros Hn Ht Hc Hco Hh Hw.
  unfold TimeDistributedModule_forward, unpack5. sizes_cbn.
  unfold reshape at 1.
  rewrite (@infer_size_infer _ _ (n * t)); sizes_cbn; [|reflexivity|nia|ring].
  rewrite decon_block_forward_ok by assumption.
  unfold size_at. sizes_cbn. unfold reshape.
  rewrite (@infer_size_infer _ _ cout); sizes_cbn; [reflexivity|reflexivity|nia|ring].
Qed.

Lemma VisionTransformer_forward_empty_batch (cin cout : nat) (m : VisionTransformer)
  (h w : nat) :
  VisionTransformer_init cin cout = Ok m ->
  raises (VisionTransformer_forward m [0; cin; h; w]).
Proof.
  unfold VisionTransformer_init, Conv2d_init. intros Hm.
  rewrite !Nat.mod_1_r in Hm. cbn [Nat.eqb negb bind] in Hm.
  destruct (MultiheadAttention_init cout 16) as [att|]; [|discriminate].
  cbn [bind] in Hm. injection Hm as <-.
  unfold VisionTransformer_forward. cbn [projector attention ffn].
  unfold Conv2d_forward, GELU_forward, with_chw. conv_cbn.
  sizes_cbn. rewrite Nat.eqb_refl. cbn [negb].
  destruct (cout <? 1); sizes_cbn; auto.
  destruct ((h =? 0) || (w =? 0)); sizes_cbn; auto.
  destruct ((h + 2 * 0 <? 1) || (w + 2 * 0 <? 1)); sizes_cbn; auto.
  unfold unpack4. sizes_cbn.
  apply raises_bind. unfold view. apply infer_size_ambiguous; reflexivity.
Qed.

Lemma encoder_forward_ok (e1 e2 e3 : conv_block) (n h w : nat) :
  conv_block_init 4 8 = Ok e1 -> conv_block_init 8 16 = Ok e2 ->
  conv_block_init 16 32 = Ok e3 ->
  8 <= h -> 8 <= w ->
  Sequential (map conv_block_forward [e1; e2; e3]) [n; 4; h; w]
  = Ok [n; 32; h / 8; w / 8].
Proof.
  intros E1 E2 E3 Hh Hw.
  assert (Hh2 : 4 <= h / 2) by (apply Nat.div_le_lower_bound; lia).
  assert (Hw2 : 4 <= w / 2) by (apply Nat.div_le_lower_bound; lia).
  assert (Hh4 : 2 <= h / 2 / 2) by (apply Nat.div_le_lower_bound; lia).
  assert (Hw4 : 2 <= w / 2 / 2) by (apply Nat.div_le_lower_bound; lia).
  cbn [map Sequential].
  rewrite (conv_block_forward_ok n E1) by lia. cbn [bind].
  rewrite (conv_block_forward_ok n E2) by lia. cbn [bind].
  rewrite (conv_block_forward_ok n E3) by lia. cbn [bind].
  rewrite !Nat.Div0.div_div. reflexivity.
Qed.

Lemma encoder_forward_small (e1 e2 e3 : conv_block) (n h w : nat) :
  conv_block_init 4 8 = Ok e1 -> conv_block_init 8 16 = Ok e2 ->
  conv_block_init 16 32 = Ok e3 ->
  h < 8 \/ w < 8 ->
  raises (Sequential (map conv_block_forward [e1; e2; e3]) [n; 4; h; w]).
Proof.
  intros E1 E2 E3 Hhw.
  cbn [map Sequential].
  destruct (Nat.lt_ge_cases h 2) as [Hh|Hh];
    [apply raises_bind, (conv_block_forward_small n E1); auto|].
  destruct (Nat.lt_ge_cases w 2) as [Hw|Hw];
    [apply raises_bind, (conv_block_forward_small n E1); auto|].
  rewrite (conv_block_forward_ok n E1) by lia. cbn [bind].
  destruct (Nat.lt_ge_cases (h / 2) 2) as [Hh2|Hh2];
    [apply raises_bind, (conv_block_forward_small n E2); auto|].
  destruct (Nat.lt_ge_cases (w / 2) 2) as [Hw2|Hw2];
    [apply raises_bind, (conv_block_forward_small n E2); auto|].
  rewrite (conv_block_forward_ok n E2) by lia. cbn [bind].
  apply raises_bind, (conv_block_forward_small n E3).
  rewrite !Nat.Div0.div_div. cbn [Nat.mul].
  destruct Hhw as [Hlt|Hlt]; [left|right];
    apply Nat.Div0.div_lt_upper_bound; lia.
Qed.

End SizesOfLayers.

(** The model on grids the encoder accepts: the recurrent block decides. *)
Lemma model_large_grid (N H W : nat) :
  1 <= N -> 8 <= H -> 8 <= W ->
  Sizes.model [N; 4; H; W]
  = if H / 8 * (W / 8) =? 64
    then Ok [N; 60; 2; 64; 64]
    else Raise (RuntimeError "input.size(-1) must be equal to input_size").
Proof.
  intros HN HH HW. unfold Sizes.model, ProxyModel_init.
  destruct (conv_block_init 4 8) as [e1|] eqn:E1; [|discriminate E1].
  destruct (conv_block_init 8 16) as [e2|] eqn:E2; [|discriminate E2].
  destruct (conv_block_init 16 32) as [e3|] eqn:E3; [|discriminate E3].
  destruct (VisionTransformer_init 32 64) as [v|] eqn:Ev; [|discriminate Ev].
  destruct (RecurrentBlock_init 64 32 60 (2 ^ 3)) as [r|] eqn:Er; [|discriminate Er].
  cbn [bind]. unfold Sizes.ProxyModel_forward.
  cbn [encoder vit recurrent decoder].
  rewrite (encoder_forward_ok N E1 E2 E3) by assumption. cbn [bind].
  assert (Hh : 1 <= H / 8) by (apply Nat.div_le_lower_bound; lia).
  assert (Hw : 1 <= W / 8) by (apply Nat.div_le_lower_bound; lia).
  rewrite (VisionTransformer_forward_ok Ev) by lia. cbn [bind].
  rewrite (RecurrentBlock_forward_spec _ _ _ Er).
  destruct (H / 8 * (W / 8) =? 64) eqn:E.
  - apply Nat.eqb_eq in E.
    replace (64 * (H / 8) * (W / 8) =? 64 * 2 ^ 3 * 2 ^ 3) with true
      by (symmetry; apply Nat.eqb_eq; cbn [Nat.pow]; nia).
    cbn [bind map Sequential].
    do 3 (rewrite TimeDistributed_decon_block_ok
            by (cbn [Nat.pow Nat.mul Nat.add]; lia); cbn [bind]).
    reflexivity.
  - apply Nat.eqb_neq in E.
    replace (64 * (H / 8) * (W / 8) =? 64 * 2 ^ 3 * 2 ^ 3) with false
      by (symmetry; apply Nat.eqb_neq; cbn [Nat.pow]; nia).
    reflexivity.
Qed.


(* ----------------------------------------------------------------- *)
(** *** Offsets and multi-indices *)

Lemma ravel_unravel (s : Size) (k : nat) : k < numel s -> ravel s (unravel s k) = k.
Proof.
  revert k. induction s as [|d s IH]; intros k Hk.
  - cbn in Hk |- *. lia.
  - cbn [unravel ravel]. cbn [numel fold_right] in Hk. fold (numel s) in Hk.
    assert (Hs : numel s <> 0) by (intros Hz; rewrite Hz in Hk; lia).
    rewrite IH by (apply Nat.mod_upper_bound; assumption).
    rewrite (Nat.div_mod_eq k (numel s)) at 3. lia.
Qed.

Lemma unravel_in_range (s : Size) (k : nat) :
  k < numel s -> Forall2 (fun i d => i < d) (unravel s k) s.
Proof.
  revert k. induction s as [|d s IH]; intros k Hk; cbn [unravel].
  - constructor.
  - cbn [numel fold_right] in Hk. fold (numel s) in Hk.
    assert (Hs : numel s <> 0) by (intros Hz; rewrite Hz in Hk; lia).
    constructor.
    + apply Nat.Div0.div_lt_upper_bound. lia.
    + apply IH, Nat.mod_upper_bound. assumption.
Qed.

Lemma zip_with_clamp_id (s idx : list nat) :
  Forall2 (fun i d => i < d) idx s ->
  zip_with (fun d i => if d =? 1 then 0 else i) s idx = idx.
Proof.
  induction 1 as [|i d idx s Hlt _ IH]; cbn [zip_with]; [reflexivity|].
  rewrite IH. destruct (d =? 1) eqn:E; [|reflexivity].
  apply Nat.eqb_eq in E. f_equal. lia.
Qed.

Lemma gather_seq_app (A : Type) (l pre : list A) :
  gather (pre ++ l) (seq (List.length pre) (List.length l)) = l.
Proof.
  revert pre. induction l as [|x l IH]; intros pre; [reflexivity|].
  cbn [List.length seq gather flat_map].
  rewrite nth_error_app2, Nat.sub_diag by lia. cbn [nth_error app].
  f_equal. specialize (IH (pre ++ [x])).
  rewrite <- app_assoc, length_app, Nat.add_1_r in IH. exact IH.
Qed.

Lemma gather_seq (A : Type) (l : list A) : gather l (seq 0 (List.length l)) = l.
Proof. exact (gather_seq_app l []). Qed.

Lemma gather_ext (A : Type) (l : list A) (f g : nat -> nat) (ks : list nat) :
  (forall k, In k ks -> f k = g k) ->
  gather l (map f ks) = gather l (map g ks).
Proof.
  intros Hfg. unfold gather. rewrite !flat_map_concat_map, !map_map.
  f_equal. apply map_ext_in. intros k Hk. rewrite (Hfg k Hk). reflexivity.
Qed.

Lemma expand_same (A : Type) (x : Tensor A) : wf x -> expand x (size x) = x.
Proof.
  destruct x as [s d]. unfold wf, expand. cbn [size data]. intros Hwf.
  rewrite Nat.sub_diag. cbn [skipn]. f_equal.
  rewrite (@gather_ext _ d _ (fun k => k)).
  - rewrite map_id, <- Hwf. apply gather_seq.
  - intros k Hk. apply in_seq in Hk.
    rewrite zip_with_clamp_id by (apply unravel_in_range; lia).
    apply ravel_unravel. lia.
Qed.

Lemma gather_valid (A : Type) (l : list A) (offs : list nat) :
  (forall k, In k offs -> k < List.length l) ->
  Forall2 (fun a k => nth_error l k = Some a) (gather l offs) offs.
Proof.
  induction offs as [|k offs IH]; intros Hv; cbn [gather flat_map]; [constructor|].
  destruct (nth_error l k) as [a|] eqn:E.
  - cbn [app]. constructor; [exact E|]. apply IH. intros; apply Hv; right; assumption.
  - apply nth_error_None in E. specialize (Hv k (or_introl eq_refl)). lia.
Qed.

Lemma Forall2_nth_error_r (A B : Type) (P : A -> B -> Prop) (l1 : list A) (l2 : list B)
  (i : nat) (b : B) :
  Forall2 P l1 l2 -> nth_error l2 i = Some b ->
  exists a, nth_error l1 i = Some a /\ P a b.
Proof.
  intros HF. revert i. induction HF as [|a' b' l1 l2 Hab _ IH]; intros [|i] Hi;
    cbn [nth_error] in *; try discriminate.
  - injection Hi as <-. eauto.
  - apply IH. exact Hi.
Qed.

Lemma gather_nth_error (A : Type) (l : list A) (f : nat -> nat) (n k : nat) :
  (forall k, k < n -> f k < List.length l) -> k < n ->
  nth_error (gather l (map f (seq 0 n))) k = nth_error l (f k).
Proof.
  intros Hv Hk.
  assert (HF : Forall2 (fun a k => nth_error l k = Some a)
                 (gather l (map f (seq 0 n))) (map f (seq 0 n))).
  { apply gather_valid. intros j Hj. apply in_map_iff in Hj as (i & <- & Hi).
    apply in_seq in Hi. apply Hv. lia. }
  destruct (@Forall2_nth_error_r _ _ _ _ _ k (f k) HF) as (a & Ha & Hl).
  - rewrite nth_error_map, nth_error_seq.
    replace (k <? n) with true by (symmetry; apply Nat.ltb_lt; assumption).
    reflexivity.
  - rewrite Ha, Hl. reflexivity.
Qed.

Lemma gather_length (A : Type) (l : list A) (f : nat -> nat) (n : nat) :
  (forall k, k < n -> f k < List.length l) ->
  List.length (gather l (map f (seq 0 n))) = n.
Proof.
  intros Hv.
  assert (HF : Forall2 (fun a k => nth_error l k = Some a)
                 (gather l (map f (seq 0 n))) (map f (seq 0 n))).
  { apply gather_valid. intros j Hj. apply in_map_iff in Hj as (i & <- & Hi).
    apply in_seq in Hi. apply Hv. lia. }
  apply Forall2_length in HF. rewrite HF, length_map, length_seq. reflexivity.
Qed.

Lemma ravel_lt (s : Size) (idx : list nat) :
  Forall2 (fun i d => i < d) idx s -> ravel s idx < numel s.
Proof.
  induction 1 as [|i d idx s Hlt _ IH]; cbn [ravel numel fold_right]; [lia|].
  fold (numel s). nia.
Qed.

Lemma unravel_ravel (s : Size) (idx : list nat) :
  Forall2 (fun i d => i < d) idx s -> unravel s (ravel s idx) = idx.
Proof.
  induction 1 as [|i d idx s Hlt HF IH]; cbn [ravel unravel]; [reflexivity|].
  assert (Hr := ravel_lt HF).
  replace ((i * numel s + ravel s idx) mod numel s) with (ravel s idx)
    by (rewrite (Nat.add_comm (i * numel s)), Nat.Div0.mod_add, Nat.mod_small;
        [reflexivity|assumption]).
  rewrite Nat.div_add_l by lia. rewrite Nat.div_small by assumption.
  rewrite IH, Nat.add_0_r. reflexivity.
Qed.

Lemma split_rows_length (B : Type) (count len : nat) (l : list B) :
  List.length (split_rows count len l) = count.
Proof.
  revert l. induction count as [|count IH]; intros l; cbn [split_rows List.length];
    [reflexivity|]. rewrite IH. reflexivity.
Qed.

Lemma split_rows_nth (A : Type) (count len r : nat) (l : list A) :
  r < count ->
  nth_error (split_rows count len l) r = Some (firstn len (skipn (r * len) l)).
Proof.
  revert r l. induction count as [|count IH]; intros r l Hr; [lia|].
  cbn [split_rows]. destruct r as [|r]; cbn [nth_error]; [reflexivity|].
  rewrite IH by lia. rewrite skipn_skipn. do 3 f_equal. lia.
Qed.

Lemma flat_map_rows_nth (A B : Type) (f : A -> list B) (rows : list A) (len r d : nat)
  (row : A) :
  (forall x, In x rows -> List.length (f x) = len) ->
  nth_error rows r = Some row -> d < len ->
  nth_error (flat_map f rows) (r * len + d) = nth_error (f row) d.
Proof.
  revert r. induction rows as [|a rows IH]; intros r Hlen Hr Hd;
    [destruct r; discriminate|].
  cbn [flat_map]. destruct r as [|r]; cbn [nth_error] in Hr.
  - injection Hr as ->. cbn [Nat.mul Nat.add].
    apply nth_error_app1. rewrite Hlen by (left; reflexivity). assumption.
  - rewrite nth_error_app2 by (rewrite Hlen by (left; reflexivity); lia).
    rewrite Hlen by (left; reflexivity).
    replace (S r * len + d - len) with (r * len + d) by lia.
    apply IH; [intros; apply Hlen; right; assumption|assumption|assumption].
Qed.

Lemma split_rows_flat_map (A B : Type) (f : A -> list B) (rows : list A) (len : nat) :
  (forall x, In x rows -> List.length (f x) = len) ->
  split_rows (List.length rows) len (flat_map f rows) = map f rows.
Proof.
  induction rows as [|a rows IH]; intros Hlen; [reflexivity|].
  cbn [List.length split_rows flat_map map].
  assert (Ha : List.length (f a) = len) by (apply Hlen; left; reflexivity).
  rewrite firstn_app, <- Ha, firstn_all, Nat.sub_diag. cbn [firstn].
  rewrite app_nil_r, skipn_app, skipn_all, Nat.sub_diag. cbn [skipn app].
  rewrite Ha, IH by (intros; apply Hlen; right; assumption). reflexivity.
Qed.

Lemma map_flat_map (A B C : Type) (g : B -> C) (f : A -> list B) (l : list A) :
  map g (flat_map f l) = flat_map (fun x => map g (f x)) l.
Proof.
  induction l as [|a l IH]; [reflexivity|].
  cbn [flat_map]. rewrite map_app, IH. reflexivity.
Qed.

Lemma flat_map_map (A B C : Type) (g : A -> B) (f : B -> list C) (l : list A) :
  flat_map f (map g l) = flat_map (fun x => f (g x)) l.
Proof.
  induction l as [|a l IH]; [reflexivity|]. cbn [map flat_map]. rewrite IH. reflexivity.
Qed.

Lemma zip_with_length (A B C : Type) (f : A -> B -> C) (l1 : list A) (l2 : list B) :
  List.length (zip_with f l1 l2) = Nat.min (List.length l1) (List.length l2).
Proof.
  revert l2. induction l1 as [|a l1 IH]; intros [|b l2]; cbn [zip_with List.length];
    try reflexivity.
  rewrite IH. reflexivity.
Qed.

Lemma permute_data (A : Type) (x t : Tensor A) (p : list nat) :
  wf x -> permute x p = Ok t ->
  (forall k, k < numel (size t) ->
     Forall2 (fun i d => i < d) (source_index p (unravel (size t) k)) (size x)) ->
  wf t
  /\ forall k, k < numel (size t) ->
       nth_error (data t) k
       = nth_error (data x) (ravel (size x) (source_index p (unravel (size t) k))).
Proof.
  intros Hwf Hp Hv. unfold permute in Hp.
  apply bind_Ok_inv in Hp as (s & Hs & Hp). injection Hp as <-.
  cbn [size data] in *. unfold wf in *. cbn [size data].
  assert (Hv' : forall k, k < numel s ->
                  ravel (size x) (source_index p (unravel s k)) < List.length (data x)).
  { intros k Hk. rewrite Hwf. apply ravel_lt, Hv, Hk. }
  split.
  - apply gather_length. exact Hv'.
  - intros k Hk.
    apply (@gather_nth_error _ (data x)
             (fun k => ravel (size x) (source_index p (unravel s k))) (numel s) k Hv' Hk).
Qed.

Lemma unravel4 (B C H W k : nat) :
  k < numel [B; C; H; W] ->
  exists b c i j,
    unravel [B; C; H; W] k = [b; c; i; j] /\ b < B /\ c < C /\ i < H /\ j < W.
Proof.
  intros Hk. assert (HF := unravel_in_range Hk). cbn [unravel] in HF |- *.
  inversion_clear HF as [|? ? ? ? Hb H1].
  inversion_clear H1 as [|? ? ? ? Hc H2].
  inversion_clear H2 as [|? ? ? ? Hi H3].
  inversion_clear H3 as [|? ? ? ? Hj _].
  do 4 eexists. split; [reflexivity|]. auto.
Qed.

Lemma in_range4 (b c i j B C H W : nat) :
  b < B -> c < C -> i < H -> j < W ->
  Forall2 (fun i d => i < d) [b; c; i; j] [B; C; H; W].
Proof. intros. repeat constructor; assumption. Qed.

Lemma permute_0213_data (A : Type) (x t : Tensor A) (B C H W : nat) :
  wf x -> size x = [B; C; H; W] -> permute x [0; 2; 1; 3] = Ok t ->
  size t = [B; H; C; W] /\ wf t
  /\ forall b i c j, b < B -> i < H -> c < C -> j < W ->
       nth_error (data t) (ravel [B; H; C; W] [b; i; c; j])
       = nth_error (data x) (ravel [B; C; H; W] [b; c; i; j]).
Proof.
  intros Hwf Hs Hp.
  assert (Hst : size t = [B; H; C; W]).
  { unfold permute in Hp. rewrite Hs in Hp. cbn in Hp. injection Hp as <-. reflexivity. }
  destruct (@permute_data _ x t [0; 2; 1; 3] Hwf Hp) as [Hwt Hnth].
  { intros k Hk. rewrite Hst in *. rewrite Hs.
    destruct (unravel4 Hk) as (b & i & c & j & -> & Hb & Hi & Hc & Hj).
    cbn. apply in_range4; assumption. }
  split; [exact Hst|]. split; [exact Hwt|].
  intros b i c j Hb Hi Hc Hj.
  assert (HF := in_range4 Hb Hi Hc Hj).
  rewrite Hnth by (rewrite Hst; apply ravel_lt; exact HF).
  rewrite Hst, Hs, (unravel_ravel HF). reflexivity.
Qed.

Lemma permute_0312_data (A : Type) (x t : Tensor A) (B H W C : nat) :
  wf x -> size x = [B; H; W; C] -> permute x [0; 3; 1; 2] = Ok t ->
  size t = [B; C; H; W] /\ wf t
  /\ forall b d i j, b < B -> d < C -> i < H -> j < W ->
       nth_error (data t) (ravel [B; C; H; W] [b; d; i; j])
       = nth_error (data x) (ravel [B; H; W; C] [b; i; j; d]).
Proof.
  intros Hwf Hs Hp.
  assert (Hst : size t = [B; C; H; W]).
  { unfold permute in Hp. rewrite Hs in Hp. cbn in Hp. injection Hp as <-. reflexivity. }
  destruct (@permute_data _ x t [0; 3; 1; 2] Hwf Hp) as [Hwt Hnth].
  { intros k Hk. rewrite Hst in *. rewrite Hs.
    destruct (unravel4 Hk) as (b & d & i & j & -> & Hb & Hd & Hi & Hj).
    cbn. apply in_range4; assumption. }
  split; [exact Hst|]. split; [exact Hwt|].
  intros b d i j Hb Hd Hi Hj.
  assert (HF := in_range4 Hb Hd Hi Hj).
  rewrite Hnth by (rewrite Hst; apply ravel_lt; exact HF).
  rewrite Hst, Hs, (unravel_ravel HF). reflexivity.
Qed.

Lemma flat_map_length_rows (A B : Type) (f : A -> list B) (rows : list A) (len : nat) :
  (forall x, In x rows -> List.length (f x) = len) ->
  List.length (flat_map f rows) = List.length rows * len.
Proof.
  induction rows as [|a rows IH]; intros Hlen; [reflexivity|].
  cbn [flat_map List.length]. rewrite length_app, Hlen by (left; reflexivity).
  rewrite IH by (intros; apply Hlen; right; assumption). lia.
Qed.

(* ----------------------------------------------------------------- *)
(** *** The feed-forward stage of the attention block *)

Section Layout.

Context {A : Type} {num : Num A}.
Variable gelu : A -> A.

Lemma linear_row_length (m : @LinearParams A) (C : nat) (row : list A) :
  linear_width m C -> List.length (linear_row m row) = C.
Proof.
  intros (_ & HW & Hb). unfold linear_row, vadd, matvec.
  rewrite zip_with_length, length_map, HW, Hb. apply Nat.min_id.
Qed.

Lemma Linear_apply_rows (m : @LinearParams A) (C B L : nat) (l : list A) :
  linear_width m C -> 0 < C ->
  Linear_apply m (mkTensor [B; L; C] l)
  = Ok (mkTensor [B; L; C] (flat_map (linear_row m) (split_rows (B * L) C l))).
Proof.
  intros (Hcfg & _ & _) HC. unfold Linear_apply. cbn [size data].
  unfold Sizes.Linear_forward. rewrite Hcfg. cbn [rev app in_features out_features].
  rewrite Nat.eqb_refl. cbn [bind rev app numel fold_right].
  replace (B * (L * (C * 1)) / C) with (B * L)
    by (replace (B * (L * (C * 1))) with (B * L * C) by ring;
        rewrite Nat.div_mul by lia; reflexivity).
  reflexivity.
Qed.

(** What the feed-forward stage computes: the result at position [(i,j)] of
    sample [b] is the feed-forward of the run of the [(H,C,W)] layout that
    starts at offset [(i W + j) C], not of the channel vector at [(i,j)]. *)
Lemma feed_forward_layout (m : @FFN A) (B C H W : nat) (x : Tensor A) :
  wf x -> size x = [B; C; H; W] ->
  linear_width (ffn_fc1 m) C -> linear_width (ffn_fc2 m) C -> 0 < C ->
  exists y,
    VisionTransformer_feed_forward gelu m B C H W x = Ok y
    /\ size y = [B; C; H; W]
    /\ forall b d i j, b < B -> d < C -> i < H -> j < W ->
         exists row,
           map Some row = layout_run x C W b i j
           /\ get y [b; d; i; j] = nth_error (ffn_row gelu m row) d.
Proof.
  intros Hwf Hs H1 H2 HC.
  assert (Hp1 : exists t1, permute x [0; 2; 1; 3] = Ok t1)
    by (unfold permute; rewrite Hs; cbn; eauto).
  destruct Hp1 as [t1 Hp1].
  destruct (permute_0213_data Hwf Hs Hp1) as (Hs1 & Hwf1 & Hnth1).
  unfold VisionTransformer_feed_forward. rewrite Hp1. cbn [bind].
  unfold view, reshape. rewrite Hs1.
  rewrite infer_size_known; sizes_cbn; [|reflexivity|ring].
  unfold ffn_forward. cbn [Sequential].
  rewrite (Linear_apply_rows _ _ _ H1 HC). cbn [bind].
  unfold elementwise. cbn [size data bind].
  rewrite (Linear_apply_rows _ _ _ H2 HC). cbn [bind size data].
  rewrite infer_size_known; sizes_cbn; [|reflexivity|ring].
  set (rows := split_rows (B * (H * W)) C (data t1)).
  assert (Hrows : List.length rows = B * (H * W)) by apply split_rows_length.
  assert (Hdata :
    flat_map (linear_row (ffn_fc2 m))
      (split_rows (B * (H * W)) C (map gelu (flat_map (linear_row (ffn_fc1 m)) rows)))
    = flat_map (ffn_row gelu m) rows).
  { rewrite map_flat_map, <- Hrows.
    rewrite split_rows_flat_map
      by (intros r _; rewrite length_map; apply linear_row_length; assumption).
    rewrite flat_map_map. reflexivity. }
  rewrite Hdata.
  set (t6 := mkTensor [B; H; W; C] (flat_map (ffn_row gelu m) rows)).
  assert (Hwf6 : wf t6).
  { unfold wf, t6. cbn [size data numel fold_right].
    rewrite (@flat_map_length_rows _ _ _ _ C)
      by (intros r _; apply linear_row_length; assumption).
    rewrite Hrows. ring. }
  assert (Hp2 : exists y, permute t6 [0; 3; 1; 2] = Ok y)
    by (unfold permute; cbn; eauto).
  destruct Hp2 as [y Hp2].
  destruct (@permute_0312_data _ t6 y B H W C Hwf6 eq_refl Hp2) as (Hsy & Hwfy & Hnthy).
  exists y. split; [exact Hp2|]. split; [exact Hsy|].
  intros b d i j Hb Hd Hi Hj.
  set (r := b * (H * W) + i * W + j).
  assert (Hiw : i * W + j < H * W) by nia.
  assert (Hbw : b * (H * W) + H * W <= B * (H * W)) by nia.
  assert (Hr : r < B * (H * W)) by (subst r; lia).
  exists (firstn C (skipn (r * C) (data t1))). split.
  - apply nth_error_ext. intros e. unfold layout_run.
    rewrite !nth_error_map, nth_error_firstn, nth_error_skipn, nth_error_seq.
    destruct (e <? C) eqn:Ee; [|reflexivity].
    apply Nat.ltb_lt in Ee. cbn [Nat.add option_map].
    set (q := (j * C + e) / W). set (u := (j * C + e) mod W).
    assert (Hqu : j * C + e = W * q + u) by (subst q u; apply Nat.div_mod_eq).
    assert (Hu : u < W) by (subst u; apply Nat.mod_upper_bound; lia).
    assert (Hq : q < C) by (subst q; apply Nat.Div0.div_lt_upper_bound; nia).
    specialize (Hnth1 b i q u Hb Hi Hq Hu).
    unfold get. rewrite Hs, <- Hnth1.
    replace (r * C + e) with (ravel [B; H; C; W] [b; i; q; u]).
    + unfold wf in Hwf1. rewrite Hs1 in Hwf1.
      assert (Hlt : ravel [B; H; C; W] [b; i; q; u] < List.length (data t1))
        by (rewrite Hwf1; apply ravel_lt, in_range4; assumption).
      destruct (nth_error (data t1) (ravel [B; H; C; W] [b; i; q; u])) eqn:E;
        [reflexivity|].
      apply nth_error_None in E. lia.
    + cbn [ravel numel fold_right]. subst r. nia.
  - unfold get. rewrite Hsy, (Hnthy b d i j Hb Hd Hi Hj).
    unfold t6. cbn [data].
    replace (ravel [B; H; W; C] [b; i; j; d]) with (r * C + d)
      by (cbn [ravel numel fold_right]; subst r; ring).
    apply (@flat_map_rows_nth _ _ (ffn_row gelu m) rows C r d).
    + intros r0 _. apply linear_row_length. assumption.
    + subst rows. apply split_rows_nth. exact Hr.
    + exact Hd.
Qed.

End Layout.

(* ----------------------------------------------------------------- *)
(** *** The composite loss *)

Lemma broadcast_rev_same (s : Size) : broadcast_rev s s = Ok s.
Proof.
  induction s as [|d s IH]; [reflexivity|].
  cbn [broadcast_rev]. rewrite IH. cbn [bind]. rewrite Nat.eqb_refl. reflexivity.
Qed.

Lemma broadcast_size_same (s : Size) : broadcast_size s s = Ok s.
Proof.
  unfold broadcast_size. rewrite broadcast_rev_same. cbn [bind].
  rewrite rev_involutive. reflexivity.
Qed.

Lemma broadcast_rev_compatible (s1 s2 s : Size) :
  broadcast_rev s1 s2 = Ok s -> List.length s1 = List.length s2 ->
  Forall2 (fun a b => a = b \/ a = 1 \/ b = 1) s1 s2.
Proof.
  revert s2 s. induction s1 as [|d1 s1 IH]; intros [|d2 s2] s Hb Hlen;
    cbn [List.length] in Hlen; try discriminate; [constructor|].
  cbn [broadcast_rev] in Hb.
  apply bind_Ok_inv in Hb as (rest & Hrest & Hb).
  constructor; [|apply (IH _ _ Hrest); lia].
  destruct (d1 =? d2) eqn:E12; [apply Nat.eqb_eq in E12; auto|].
  destruct (d1 =? 1) eqn:E1; [apply Nat.eqb_eq in E1; auto|].
  destruct (d2 =? 1) eqn:E2; [apply Nat.eqb_eq in E2; auto|discriminate].
Qed.

Lemma Forall2_reverse (A B : Type) (P : A -> B -> Prop) (l1 : list A) (l2 : list B) :
  Forall2 P l1 l2 -> Forall2 P (rev l1) (rev l2).
Proof.
  induction 1 as [|a b l1 l2 Hab _ IH]; cbn [rev]; [constructor|].
  apply Forall2_app; [assumption|repeat constructor; assumption].
Qed.

Lemma broadcast_size_compatible (s1 s2 s : Size) :
  broadcast_size s1 s2 = Ok s -> List.length s1 = List.length s2 ->
  Forall2 (fun a b => a = b \/ a = 1 \/ b = 1) s1 s2.
Proof.
  unfold broadcast_size. intros Hb Hlen.
  apply bind_Ok_inv in Hb as (r & Hr & _).
  apply broadcast_rev_compatible in Hr; [|rewrite !length_rev; assumption].
  apply Forall2_reverse in Hr. rewrite !rev_involutive in Hr. exact Hr.
Qed.

Lemma mse_loss_same_size (output target : Tensor R) :
  wf output -> wf target -> size output = size target ->
  mse_loss output target = Ok (plain_mse output target).
Proof.
  intros Ho Ht Hs. unfold mse_loss, broadcast_tensors, plain_mse.
  rewrite <- Hs, broadcast_size_same. cbn [bind].
  rewrite (expand_same Ho). rewrite Hs, (expand_same Ht). reflexivity.
Qed.

Lemma zip_with_comm (A B : Type) (f : A -> A -> B) (l1 l2 : list A) :
  (forall a b, f a b = f b a) -> zip_with f l1 l2 = zip_with f l2 l1.
Proof.
  intros Hf. revert l2. induction l1 as [|a l1 IH]; intros [|b l2]; cbn [zip_with];
    try reflexivity.
  rewrite Hf, IH. reflexivity.
Qed.

Lemma squared_error_mean_comm (o t : list R) :
  squared_error_mean o t = squared_error_mean t o.
Proof.
  unfold squared_error_mean. f_equal.
  apply zip_with_comm. intros a b. ring.
Qed.

Lemma mse_loss_comm (a b : Tensor R) :
  size a = size b -> mse_loss a b = mse_loss b a.
Proof.
  intros Hs. unfold mse_loss, broadcast_tensors. rewrite Hs.
  destruct (broadcast_size (size b) (size b)) as [s|e]; cbn [bind]; [|reflexivity].
  rewrite squared_error_mean_comm. reflexivity.
Qed.

Lemma for_each_ext (B : Type) (f g : nat -> result B) (ts : list nat) :
  (forall t, In t ts -> f t = g t) -> for_each f ts = for_each g ts.
Proof.
  induction ts as [|t ts IH]; intros Hfg; [reflexivity|].
  cbn [for_each]. rewrite (Hfg t) by (left; reflexivity).
  rewrite IH by (intros; apply Hfg; right; assumption). reflexivity.
Qed.

Lemma for_each_Ok_inv (B : Type) (body : nat -> result B) (ts : list nat) (vs : list B) :
  for_each body ts = Ok vs ->
  List.length vs = List.length ts /\ (forall t, In t ts -> returns (body t)).
Proof.
  revert vs. induction ts as [|t ts IH]; intros vs Hvs; cbn [for_each] in Hvs.
  - injection Hvs as <-. split; [reflexivity|intros t []].
  - apply bind_Ok_inv in Hvs as (v & Hv & Hvs).
    apply bind_Ok_inv in Hvs as (vs' & Hvs' & Hvs).
    injection Hvs as <-. destruct (IH _ Hvs') as [Hlen Hall].
    split; [cbn [List.length]; lia|].
    intros t' [<-|Hin]; [exists v; assumption|auto].
Qed.

Lemma for_each_returns (B : Type) (body : nat -> result B) (ts : list nat) :
  (forall t, In t ts -> returns (body t)) ->
  exists vs, for_each body ts = Ok vs /\ List.length vs = List.length ts.
Proof.
  induction ts as [|t ts IH]; intros Hall.
  - exists []. split; reflexivity.
  - destruct (Hall t (or_introl eq_refl)) as [v Hv].
    destruct IH as (vs & Hvs & Hlen); [intros; apply Hall; right; assumption|].
    exists (v :: vs). cbn [for_each]. rewrite Hv, Hvs. cbn [bind List.length].
    split; [reflexivity|lia].
Qed.

Lemma select1_size (A : Type) (x y : Tensor A) (t : nat) :
  select1 x t = Ok y ->
  exists n T rest, size x = n :: T :: rest /\ t < T /\ size y = n :: rest.
Proof.
  unfold select1. destruct (size x) as [|n [|T rest]]; try discriminate.
  destruct (t <? T) eqn:E; [|discriminate].
  intros Hy. injection Hy as <-. apply Nat.ltb_lt in E.
  exists n, T, rest. cbn [size]. auto.
Qed.

Lemma select1_returns (A : Type) (x : Tensor A) (n T t : nat) (rest : Size) :
  size x = n :: T :: rest -> t < T -> returns (select1 x t).
Proof.
  intros Hs Ht. unfold select1. rewrite Hs.
  replace (t <? T) with true by (symmetry; apply Nat.ltb_lt; assumption).
  eexists. reflexivity.
Qed.

Lemma select1_Raise_same_size (A : Type) (x y : Tensor A) (t : nat) (e : exn) :
  size x = size y -> select1 x t = Raise e -> select1 y t = Raise e.
Proof.
  unfold select1. intros <-.
  destruct (size x) as [|n [|T rest]]; try (intros Hx; exact Hx).
  destruct (t <? T); [discriminate|intros Hx; exact Hx].
Qed.

Section LossProperties.

Variable ssim : Tensor R -> Tensor R -> result R.

Local Open Scope R_scope.



Lemma CustomLoss_forward_returns_inv (self : CustomLoss) (output target : Tensor R) :
  (forall p q v, ssim p q = Ok v -> size p = size q) ->
  returns (CustomLoss_forward ssim self output target) ->
  size output = size target
  \/ exists n T rest,
       size output = n :: 1%nat :: rest /\ size target = n :: T :: rest /\ (1 < T)%nat.
Proof.
  intros Hshape [v Hv]. unfold CustomLoss_forward in Hv.
  apply bind_Ok_inv in Hv as (m & Hm & Hv).
  apply bind_Ok_inv in Hv as (steps & Hsteps & Hv).
  apply bind_Ok_inv in Hv as (losses & Hlosses & Hv).
  apply bind_Ok_inv in Hv as (sl & Hsl & _).
  apply for_each_Ok_inv in Hlosses as [Hlen Hall]. rewrite length_seq in Hlen.
  destruct losses as [|l0 losses]; [discriminate Hsl|].
  cbn [List.length] in Hlen.
  assert (Hlast : In (steps - 1)%nat (seq 0 steps)) by (apply in_seq; lia).
  destruct (Hall _ Hlast) as [x Hx].
  apply bind_Ok_inv in Hx as (p & Hp & Hx).
  apply bind_Ok_inv in Hx as (q & Hq & Hx).
  apply bind_Ok_inv in Hx as (s & Hs & _).
  apply Hshape in Hs.
  apply select1_size in Hp as (n1 & T1 & r1 & So & Hlt1 & Sp).
  apply select1_size in Hq as (n2 & T2 & r2 & St & Hlt2 & Sq).
  rewrite Sp, Sq in Hs. injection Hs as -> ->.
  rewrite So in Hsteps. cbn in Hsteps. injection Hsteps as Hst. subst steps.
  unfold mse_loss, broadcast_tensors in Hm.
  apply bind_Ok_inv in Hm as (pr & Hpr & _).
  apply bind_Ok_inv in Hpr as (sb & Hsb & _).
  apply broadcast_size_compatible in Hsb;
    [|rewrite So, St; reflexivity].
  rewrite So, St in Hsb. inversion Hsb as [|? ? ? ? _ Htl]; subst.
  inversion Htl as [|? ? ? ? HT _]; subst.
  rewrite So, St.
  match goal with
  | |- _ :: ?a :: _ = _ \/ _ => destruct (Nat.eq_dec a T2) as [E|E]
  end; [left; rewrite E; reflexivity|].
  right. exists n2, T2, r2.
  repeat split; [do 2 f_equal; lia|lia].
Qed.

End LossProperties.

Lemma size_checking_metric_shape (p q : Tensor R) (v : R) :
  size_checking_metric p q = Ok v -> size p = size q.
Proof.
  unfold size_checking_metric, Size_eqb.
  destruct (list_eq_dec Nat.eq_dec (size p) (size q)); [auto|discriminate].
Qed.

Lemma size_checking_metric_comm (p q : Tensor R) :
  size_checking_metric p q = size_checking_metric q p.
Proof.
  unfold size_checking_metric, Size_eqb.
  destruct (list_eq_dec Nat.eq_dec (size p) (size q)) as [E|E];
    destruct (list_eq_dec Nat.eq_dec (size q) (size p)) as [E'|E'];
    congruence.
Qed.

Example zero_block_built :
  RecurrentBlock_init 1 1 2 1 = Ok (rb_cfg zero_block).
Proof. reflexivity. Qed.

(* ----------------------------------------------------------------- *)
(** *** The dataset accessor *)

Section DatasetProperties.

Local Open Scope Q_scope.

Lemma Qmin_b_le_l (a b : Q) : Qmin_b a b <= a.
Proof.
  unfold Qmin_b. destruct (Qle_bool a b) eqn:E; [apply Qle_refl|].
  apply Qlt_le_weak, Qnot_le_lt. intros Hle.
  apply Qle_bool_iff in Hle. congruence.
Qed.

Lemma Qmin_b_le_r (a b : Q) : Qmin_b a b <= b.
Proof.
  unfold Qmin_b. destruct (Qle_bool a b) eqn:E; [|apply Qle_refl].
  apply Qle_bool_iff. assumption.
Qed.

Lemma Qmax_b_ge_l (a b : Q) : a <= Qmax_b a b.
Proof.
  unfold Qmax_b. destruct (Qle_bool a b) eqn:E; [|apply Qle_refl].
  apply Qle_bool_iff. assumption.
Qed.

Lemma Qmax_b_ge_r (a b : Q) : b <= Qmax_b a b.
Proof.
  unfold Qmax_b. destruct (Qle_bool a b) eqn:E; [apply Qle_refl|].
  apply Qlt_le_weak, Qnot_le_lt. intros Hle.
  apply Qle_bool_iff in Hle. congruence.
Qed.

Lemma fold_min_le (l : list Q) (x : Q) :
  fold_left Qmin_b l x <= x /\ Forall (fun y => fold_left Qmin_b l x <= y) l.
Proof.
  revert x. induction l as [|y l IH]; intros x; cbn [fold_left].
  - split; [apply Qle_refl|constructor].
  - destruct (IH (Qmin_b x y)) as [H1 H2]. split.
    + eapply Qle_trans; [exact H1|apply Qmin_b_le_l].
    + constructor; [eapply Qle_trans; [exact H1|apply Qmin_b_le_r]|exact H2].
Qed.

Lemma fold_max_ge (l : list Q) (x : Q) :
  x <= fold_left Qmax_b l x /\ Forall (fun y => y <= fold_left Qmax_b l x) l.
Proof.
  revert x. induction l as [|y l IH]; intros x; cbn [fold_left].
  - split; [apply Qle_refl|constructor].
  - destruct (IH (Qmax_b x y)) as [H1 H2]. split.
    + eapply Qle_trans; [apply Qmax_b_ge_l|exact H1].
    + constructor; [eapply Qle_trans; [apply Qmax_b_ge_r|exact H1]|exact H2].
Qed.

Lemma np_min_le (a : ndarray) (lo : Q) :
  np_min a = Ok lo -> Forall (fun y => lo <= y) (arr_values a).
Proof.
  unfold np_min. destruct (arr_values a) as [|x l]; [discriminate|].
  intros Hlo. injection Hlo as <-.
  destruct (fold_min_le l x). constructor; assumption.
Qed.

Lemma np_max_ge (a : ndarray) (hi : Q) :
  np_max a = Ok hi -> Forall (fun y => y <= hi) (arr_values a).
Proof.
  unfold np_max. destruct (arr_values a) as [|x l]; [discriminate|].
  intros Hhi. injection Hhi as <-.
  destruct (fold_max_ge l x). constructor; assumption.
Qed.

Lemma true_divide_unit (x lo hi : Q) :
  lo <= x -> x <= hi -> lo < hi -> in_unit_interval (true_divide (x - lo) (hi - lo)).
Proof.
  intros Hlo Hhi Hlt. unfold true_divide.
  assert (Hpos : 0 < hi - lo) by Lqa.lra.
  destruct (Qeq_bool (hi - lo) 0) eqn:E.
  - apply Qeq_bool_iff in E. Lqa.lra.
  - cbn [in_unit_interval]. split.
    + apply Qle_shift_div_l; [assumption|]. Lqa.lra.
    + apply Qle_shift_div_r; [assumption|]. Lqa.lra.
Qed.

(** Away from constant arrays the normalisation lands in [[0,1]]. *)
Lemma normalize_unit_interval (a : ndarray) (t : Tensor npfloat) (lo hi : Q) :
  np_min a = Ok lo -> np_max a = Ok hi -> lo < hi ->
  normalize a = Ok t -> Forall in_unit_interval (data t).
Proof.
  intros Hlo Hhi Hlt. unfold normalize. rewrite Hlo, Hhi. cbn [bind].
  intros Ht. injection Ht as <-. cbn [data].
  apply np_min_le in Hlo. apply np_max_ge in Hhi.
  rewrite Forall_forall in *. intros v Hv.
  apply in_map_iff in Hv as (x & <- & Hx).
  apply true_divide_unit; auto.
Qed.

(** A constant array is divided by zero: every value is NaN. *)
Lemma normalize_constant (a : ndarray) (c : Q) (t : Tensor npfloat) :
  Forall (fun x => x == c) (arr_values a) ->
  normalize a = Ok t -> Forall (fun v => v = NaN) (data t).
Proof.
  intros Hc. unfold normalize.
  destruct (np_min a) as [lo|] eqn:Hlo; [|discriminate].
  destruct (np_max a) as [hi|] eqn:Hhi; [|discriminate].
  cbn [bind]. intros Ht. injection Ht as <-. cbn [data].
  assert (Hlo' := np_min_le Hlo). assert (Hhi' := np_max_ge Hhi).
  assert (Hloc : lo == c /\ hi == c).
  { unfold np_min in Hlo. unfold np_max in Hhi.
    destruct (arr_values a) as [|x l]; [discriminate|].
    injection Hlo as <-. injection Hhi as <-.
    inversion Hc as [|? ? Hx Hl]; subst.
    split.
    - clear Hlo' Hhi' Hc. revert x Hx. induction Hl as [|y l Hy _ IH]; intros x Hx;
        cbn [fold_left]; [assumption|].
      apply IH. unfold Qmin_b. destruct (Qle_bool x y); assumption.
    - clear Hlo' Hhi' Hc. revert x Hx. induction Hl as [|y l Hy _ IH]; intros x Hx;
        cbn [fold_left]; [assumption|].
      apply IH. unfold Qmax_b. destruct (Qle_bool x y); assumption. }
  destruct Hloc as [Hl Hh].
  rewrite Forall_forall in *. intros v Hv.
  apply in_map_iff in Hv as (x & <- & Hx).
  specialize (Hc x Hx). cbn beta in Hc.
  unfold true_divide.
  replace (Qeq_bool (hi - lo) 0) with true
    by (symmetry; apply Qeq_bool_iff; Lqa.lra).
  replace (Qeq_bool (x - lo) 0) with true
    by (symmetry; apply Qeq_bool_iff; Lqa.lra).
  reflexivity.
Qed.

Lemma normalize_returns (a : ndarray) :
  arr_values a <> [] ->
  exists t, normalize a = Ok t /\ List.length (data t) = List.length (arr_values a).
Proof.
  intros Hne. unfold normalize, np_min, np_max.
  destruct (arr_values a) as [|x l] eqn:E; [contradiction|].
  cbn [bind]. eexists. split; [reflexivity|].
  cbn [data]. apply length_map.
Qed.

End DatasetProperties.

(* ----------------------------------------------------------------- *)
(** *** The training loop *)

Lemma chunks_nonempty (A : Type) (size : nat) (l : list A) :
  l <> [] -> chunks size l <> [].
Proof.
  intros Hl. unfold chunks. destruct l as [|x l]; [contradiction|].
  cbn [List.length chunks_fuel]. discriminate.
Qed.

Lemma train_subset_size_pos (n : nat) : 2 <= n -> 1 <= train_subset_size n.
Proof.
  intros Hn. unfold train_subset_size. apply Nat.div_le_lower_bound; lia.
Qed.

Lemma train_subset_size_lt (n : nat) : 1 <= n -> train_subset_size n < n.
Proof.
  intros Hn. unfold train_subset_size. apply Nat.Div0.div_lt_upper_bound. lia.
Qed.

Section TrainingProperties.

Variable Model : Type.
Variable Rng : Type.
Variable randperm : Rng -> nat -> list nat * Rng.
Variable train_step : Model -> list nat -> result (Model * R).
Variable eval_step : Model -> list nat -> result R.

Hypothesis randperm_length : forall g n, List.length (fst (randperm g n)) = n.
Hypothesis train_step_returns : forall m b, returns (train_step m b).
Hypothesis eval_step_returns : forall m b, returns (eval_step m b).

Lemma train_batches_returns (bs : list (list nat)) (m : Model) (acc : R) :
  exists m' total,
    train_batches train_step m acc bs = Ok (m', total, map TrainBatch bs).
Proof.
  revert m acc. induction bs as [|b bs IH]; intros m acc; cbn [train_batches map].
  - eauto.
  - destruct (train_step_returns m b) as [[m1 loss] Hstep]. rewrite Hstep. cbn [bind].
    destruct (IH m1 (acc + loss)%R) as (m' & total & Hrest).
    rewrite Hrest. cbn [bind]. eauto.
Qed.

Lemma valid_batches_returns (bs : list (list nat)) (m : Model) (grad : bool) (acc : R) :
  exists total,
    valid_batches eval_step m grad acc bs
    = Ok (total, map (fun b => ValidBatch b grad) bs).
Proof.
  revert acc. induction bs as [|b bs IH]; intros acc; cbn [valid_batches map].
  - eauto.
  - destruct (eval_step_returns m b) as [loss Hstep]. rewrite Hstep. cbn [bind].
    destruct (IH (acc + loss)%R) as (total & Hrest).
    rewrite Hrest. cbn [bind]. eauto.
Qed.

Lemma average_returns (total : R) (batches : nat) :
  batches <> 0 -> average total batches = Ok (total / INR batches)%R.
Proof. destruct batches; [contradiction|reflexivity]. Qed.

Lemma epoch_body_spec (n epoch : nat) (st : TrainState Model Rng) :
  2 <= n ->
  exists st' evs,
    epoch_body randperm train_step eval_step n epoch st = Ok (st', evs)
    /\ epoch_shape randperm n epoch evs.
Proof.
  intros Hn. unfold epoch_body, random_split, shuffled_batches.
  assert (Hk := train_subset_size_pos Hn).
  assert (Hk' := @train_subset_size_lt n ltac:(lia)).
  set (k := train_subset_size n) in *.
  replace (k + (n - k)) with n by lia.
  assert (Hlen := randperm_length (st_rng st) n).
  assert (Hdraw : fst (randperm (st_rng st) n) = fst (randperm (st_rng st) n))
    by reflexivity.
  destruct (randperm (st_rng st) n) as [perm g1] in Hlen, Hdraw at 1 |- *.
  cbn [fst] in Hlen, Hdraw.
  assert (Htrain : List.length (firstn k perm) = k) by (rewrite length_firstn; lia).
  assert (Hval : List.length (skipn k perm) = n - k) by (rewrite length_skipn; lia).
  destruct (firstn k perm) as [|i0 tr] eqn:Etr; [cbn [List.length] in Htrain; lia|].
  cbn [DataLoader_shuffled bind].
  assert (Hlen2 := randperm_length g1 (List.length (i0 :: tr))).
  destruct (randperm g1 (List.length (i0 :: tr))) as [perm2 g2]. cbn [fst] in Hlen2.
  set (batches := chunks batch_size (map (fun i => nth i (i0 :: tr) 0) perm2)).
  destruct (train_batches_returns batches (st_model st) 0%R)
    as (m & train_loss & Htb).
  rewrite Htb. cbn [bind].
  rewrite average_returns; cbn [bind].
  2:{ subst batches. intros Hz. apply length_zero_iff_nil in Hz.
      revert Hz. apply chunks_nonempty. intros Hnil.
      apply (f_equal (@List.length nat)) in Hnil.
      rewrite length_map, Hlen2 in Hnil. discriminate Hnil. }
  destruct (valid_batches_returns (chunks batch_size (skipn k perm)) m false 0%R)
    as (val_loss & Hvb).
  rewrite Hvb. cbn [bind].
  rewrite average_returns; cbn [bind].
  2:{ intros Hz. apply length_zero_iff_nil in Hz.
      revert Hz. apply chunks_nonempty. intros Hnil.
      rewrite Hnil in Hval. cbn [List.length] in Hval. lia. }
  do 2 eexists. split; [reflexivity|].
  unfold epoch_shape. exists (st_rng st). do 5 eexists.
  split; [reflexivity|]. split; [|split; assumption].
  rewrite <- Hdraw, <- Etr. apply firstn_skipn.
Qed.

Lemma run_epochs_spec (n : nat) (epochs : list nat) (st : TrainState Model Rng) :
  2 <= n ->
  exists st' segs,
    run_epochs randperm train_step eval_step n epochs st = Ok (st', List.concat segs)
    /\ Forall2 (epoch_shape randperm n) epochs segs.
Proof.
  intros Hn. revert st. induction epochs as [|e epochs IH]; intros st; cbn [run_epochs].
  - exists st, []. split; [reflexivity|constructor].
  - destruct (epoch_body_spec e st Hn) as (st1 & evs & Hbody & Hshape).
    rewrite Hbody. cbn [bind].
    destruct (IH st1) as (st2 & segs & Hrest & Hall).
    rewrite Hrest. cbn [bind].
    exists st2, (evs :: segs). split; [reflexivity|constructor; assumption].
Qed.

End TrainingProperties.

Lemma started_epochs_shape (Rng : Type) (randperm : Rng -> nat -> list nat * Rng)
  (n e : nat) (evs : list event) :
  epoch_shape randperm n e evs -> started_epochs evs = [e].
Proof.
  intros (g & tr & va & bs & tl & vl & -> & _).
  unfold started_epochs. cbn [flat_map app]. f_equal.
  rewrite !flat_map_app.
  assert (H1 : forall l, flat_map (fun ev : event => match ev with
                                                     | EpochStart e0 => [e0]
                                                     | _ => []
                                                     end)
                           (map TrainBatch l) = []).
  { induction l; cbn; auto. }
  assert (H2 : forall l, flat_map (fun ev : event => match ev with
                                                     | EpochStart e0 => [e0]
                                                     | _ => []
                                                     end)
                           (map (fun b => ValidBatch b false) l) = []).
  { induction l; cbn; auto. }
  rewrite H1, H2. destruct ((e + 1) mod 5 =? 0); reflexivity.
Qed.

Lemma printed_epochs_shape (Rng : Type) (randperm : Rng -> nat -> list nat * Rng)
  (n e : nat) (evs : list event) :
  epoch_shape randperm n e evs ->
  printed_epochs evs = if (e + 1) mod 5 =? 0 then [e + 1] else [].
Proof.
  intros (g & tr & va & bs & tl & vl & -> & _).
  unfold printed_epochs. cbn [flat_map app].
  rewrite !flat_map_app.
  assert (H1 : forall l, flat_map (fun ev : event => match ev with
                                                     | Print e0 _ _ _ => [e0]
                                                     | _ => []
                                                     end)
                           (map TrainBatch l) = []).
  { induction l; cbn; auto. }
  assert (H2 : forall l, flat_map (fun ev : event => match ev with
                                                     | Print e0 _ _ _ => [e0]
                                                     | _ => []
                                                     end)
                           (map (fun b => ValidBatch b false) l) = []).
  { induction l; cbn; auto. }
  rewrite H1, H2. destruct ((e + 1) mod 5 =? 0); reflexivity.
Qed.

Lemma started_epochs_segments (Rng : Type) (randperm : Rng -> nat -> list nat * Rng)
  (n : nat) (epochs : list nat) (segs : list (list event)) :
  Forall2 (epoch_shape randperm n) epochs segs ->
  started_epochs (List.concat segs) = epochs.
Proof.
  induction 1 as [|e seg epochs segs Hshape _ IH]; [reflexivity|].
  cbn [List.concat]. unfold started_epochs in *. rewrite flat_map_app, IH.
  fold (started_epochs seg). rewrite (started_epochs_shape Hshape). reflexivity.
Qed.

Lemma printed_epochs_segments (Rng : Type) (randperm : Rng -> nat -> list nat * Rng)
  (n : nat) (epochs : list nat) (segs : list (list event)) :
  Forall2 (epoch_shape randperm n) epochs segs ->
  printed_epochs (List.concat segs)
  = flat_map (fun e => if (e + 1) mod 5 =? 0 then [e + 1] else []) epochs.
Proof.
  induction 1 as [|e seg epochs segs Hshape _ IH]; [reflexivity|].
  cbn [List.concat flat_map]. unfold printed_epochs in *. rewrite flat_map_app, IH.
  fold (printed_epochs seg). rewrite (printed_epochs_shape Hshape). reflexivity.
Qed.

(* ----------------------------------------------------------------- *)
(** *** The recurrent expansion block *)

Section RecurrentProperties.

Context {A : Type} `{Num A}.

Variables sigmoid tanh : A -> A.

Lemma LSTM_call_default_state (cfg : LSTM) (p : LSTMParams) (x : Tensor A) (n t f : nat) :
  size x = [n; t; f] ->
  LSTM_call sigmoid tanh cfg p x None
  = LSTM_call sigmoid tanh cfg p x
      (Some (List.repeat (zero_state (hidden_size cfg)) n)).
Proof. intros Hs. unfold LSTM_call. rewrite Hs. reflexivity. Qed.

Lemma RecurrentBlock_forward_inv (self self' : RecurrentBlockObj) (x y : Tensor A) :
  RecurrentBlock_forward sigmoid tanh self x = Ok (y, self') ->
  self' = self
  /\ exists b c h w x_repeated out last,
       size x = [b; c; h; w]
       /\ repeat_time (mkTensor [b; 1; c * h * w] (data x)) (timesteps (rb_cfg self))
          = Ok x_repeated
       /\ LSTM_call sigmoid tanh (lstm (rb_cfg self)) (rb_params self) x_repeated None
          = Ok (out, last)
       /\ data y = data out.
Proof.
  unfold RecurrentBlock_forward. intros Hf.
  apply bind_Ok_inv in Hf as ([[[b c] h] w] & Hsize & Hf).
  apply bind_Ok_inv in Hf as (xr & Hxr & Hf).
  apply bind_Ok_inv in Hf as (v & Hv & Hf).
  apply bind_Ok_inv in Hf as (xrep & Hrep & Hf).
  apply bind_Ok_inv in Hf as ([out last] & Hcall & Hf).
  apply bind_Ok_inv in Hf as (xo & Hview & Hf).
  injection Hf as <- <-. split; [reflexivity|].
  exists b, c, h, w, xrep, out, last.
  split.
  { unfold Sizes.unpack4 in Hsize.
    destruct (size x) as [|? [|? [|? [|? [|]]]]]; try discriminate.
    injection Hsize as -> -> -> ->. reflexivity. }
  split.
  { unfold reshape in Hxr. apply bind_Ok_inv in Hxr as (s1 & _ & Hxr).
    injection Hxr as <-.
    unfold view, reshape in Hv. cbn [size data] in Hv.
    apply bind_Ok_inv in Hv as (s2 & Hs2 & Hv). injection Hv as <-.
    apply infer_size_known_inv in Hs2; [|reflexivity]. subst s2. exact Hrep. }
  split; [exact Hcall|].
  unfold view, reshape in Hview.
  apply bind_Ok_inv in Hview as (s & _ & Hview).
  injection Hview as <-. reflexivity.
Qed.

(** With zero input weights, over numbers whose zero absorbs products, the
    LSTM does not look at its input. *)

Hypothesis mul_zero : forall a : A, num_mul num0 a = num0.
Hypothesis add_zero : num_add num0 num0 = num0.

Lemma dot_zero_row (row v : list A) :
  Forall (fun a => a = num0) row -> dot row v = num0.
Proof.
  unfold dot. intros Hrow. revert v.
  induction Hrow as [|a row -> _ IH]; intros [|b v]; cbn [zip_with fold_right];
    try reflexivity.
  rewrite mul_zero, IH. exact add_zero.
Qed.

Lemma matvec_zero_rows (W : list (list A)) (v v' : list A) :
  Forall (Forall (fun a => a = num0)) W -> matvec W v = matvec W v'.
Proof.
  intros HW. unfold matvec. apply map_ext_in. intros row Hrow.
  rewrite Forall_forall in HW.
  rewrite !dot_zero_row by (apply HW; assumption). reflexivity.
Qed.

Lemma lstm_seq_zero_input_weights (p : LSTMParams) (hs : nat) (xs xs' : list (list A))
  (hc : list A * list A) :
  Forall (Forall (fun a => a = num0)) (weight_ih p) ->
  List.length xs = List.length xs' ->
  lstm_seq sigmoid tanh p hs xs hc = lstm_seq sigmoid tanh p hs xs' hc.
Proof.
  intros HW. revert xs' hc.
  induction xs as [|x xs IH]; intros [|x' xs'] hc Hlen; cbn [List.length] in Hlen;
    try discriminate; [reflexivity|].
  cbn [lstm_seq].
  assert (Hcell : lstm_cell sigmoid tanh p hs x hc = lstm_cell sigmoid tanh p hs x' hc).
  { unfold lstm_cell. destruct hc as [h c].
    rewrite (matvec_zero_rows x x' HW). reflexivity. }
  rewrite Hcell, (IH xs') by lia. reflexivity.
Qed.

Lemma zip_with_ext_nth (B C D : Type) (f g : B -> C -> D) (l1 l1' : list B) (l2 : list C) :
  List.length l1 = List.length l1' ->
  (forall b b' c, f b c = g b' c) ->
  zip_with f l1 l2 = zip_with g l1' l2.
Proof.
  intros Hlen Hfg. revert l1' l2 Hlen.
  induction l1 as [|b l1 IH]; intros [|b' l1'] l2 Hlen; cbn [List.length] in Hlen;
    try discriminate; [reflexivity|].
  destruct l2 as [|c l2]; cbn [zip_with]; [reflexivity|].
  rewrite (Hfg b b' c), (IH l1') by lia. reflexivity.
Qed.

Lemma LSTM_call_zero_input_weights (cfg : LSTM) (p : LSTMParams) (x x' : Tensor A) hx :
  Forall (Forall (fun a => a = num0)) (weight_ih p) ->
  size x = size x' ->
  LSTM_call sigmoid tanh cfg p x hx = LSTM_call sigmoid tanh cfg p x' hx.
Proof.
  intros HW Hs. unfold LSTM_call. rewrite <- Hs.
  destruct (Sizes.LSTM_forward cfg (size x)) as [s|e]; cbn [bind]; [|reflexivity].
  destruct (size x) as [|n [|t [|f [|]]]]; try reflexivity.
  assert (Hruns :
    zip_with (fun sample hc =>
                lstm_seq sigmoid tanh p (hidden_size cfg) (split_rows t f sample) hc)
      (split_rows n (t * f) (data x))
      (match hx with
       | Some states => states
       | None => List.repeat (zero_state (hidden_size cfg)) n
       end)
    = zip_with (fun sample hc =>
                  lstm_seq sigmoid tanh p (hidden_size cfg) (split_rows t f sample) hc)
        (split_rows n (t * f) (data x'))
        (match hx with
         | Some states => states
         | None => List.repeat (zero_state (hidden_size cfg)) n
         end)).
  { apply zip_with_ext_nth; [rewrite !split_rows_length; reflexivity|].
    intros b b' c. apply lstm_seq_zero_input_weights; [assumption|].
    rewrite !split_rows_length. reflexivity. }
  rewrite Hruns. reflexivity.
Qed.

(** X17. A block whose LSTM has zero input weights does not look at its
    input: over numbers whose zero absorbs products, it returns the same
    result for all inputs of one size. *)
Lemma RecurrentBlock_forward_zero_input_weights
  (self : RecurrentBlockObj) (x x' : Tensor A) :
  Forall (Forall (fun a => a = num0)) (weight_ih (rb_params self)) ->
  size x = size x' ->
  RecurrentBlock_forward sigmoid tanh self x = RecurrentBlock_forward sigmoid tanh self x'.
Proof.
  intros HW Hs. unfold RecurrentBlock_forward. rewrite <- Hs.
  destruct (Sizes.unpack4 (size x)) as [[[[b c] h] w]|e]; cbn [bind]; [|reflexivity].
  unfold view, reshape. rewrite <- Hs.
  destruct (infer_size [Some b; Some (c * h * w)] (numel (size x))) as [s1|e];
    cbn [bind size data]; [|reflexivity].
  destruct (infer_size [Some b; Some 1; Some (c * h * w)] (numel s1)) as [s2|e];
    cbn [bind size data]; [|reflexivity].
  unfold repeat_time. cbn [size data].
  destruct (Sizes.repeat s2 [1; timesteps (rb_cfg self); 1]) as [s3|e];
    cbn [bind]; [|reflexivity].
  destruct s2 as [|n [|[|[|one]] [|f [|]]]]; try reflexivity.
  cbn [bind].
  rewrite (@LSTM_call_zero_input_weights (lstm (rb_cfg self)) (rb_params self)
             (mkTensor s3
                (flat_map (fun row => List.concat (List.repeat row (timesteps (rb_cfg self))))
                   (split_rows n f (data x))))
             (mkTensor s3
                (flat_map (fun row => List.concat (List.repeat row (timesteps (rb_cfg self))))
                   (split_rows n f (data x'))))
             None HW eq_refl).
  reflexivity.
Qed.

End RecurrentProperties.

(* ================================================================= *)
(** * The claims of the specification *)

(* ----------------------------------------------------------------- *)
(** ** Attention block: construction *)

(** C7. Constructing the attention block with an output channel count that
    16 does not divide raises the assertion error of the attention layer's
    constructor, so no block exists on which [forward] could be called. *)
Theorem VisionTransformer_init_indivisible (input_channels output_channels : nat) :
  output_channels mod 16 <> 0 ->
  VisionTransformer_init input_channels output_channels
  = Raise (AssertionError "embed_dim must be divisible by num_heads").
Proof.
  intros Hmod. unfold VisionTransformer_init, Conv2d_init, MultiheadAttention_init.
  rewrite !Nat.mod_1_r. cbn [Nat.eqb negb bind orb]. rewrite orb_false_r.
  destruct (output_channels =? 0) eqn:E0.
  - apply Nat.eqb_eq in E0. subst. exfalso. apply Hmod. reflexivity.
  - destruct (output_channels / 16 * 16 =? output_channels) eqn:E; [|reflexivity].
    apply Nat.eqb_eq in E. exfalso. apply Hmod.
    rewrite <- E. apply Nat.Div0.mod_mul.
Qed.

Lemma VisionTransformer_init_indivisible_witness :
  40 mod 16 <> 0
  /\ VisionTransformer_init 32 40
     = Raise (AssertionError "embed_dim must be divisible by num_heads").
Proof.
  split; [cbn; lia|].
  apply (@VisionTransformer_init_indivisible 32 40). cbn. lia.
Defined.

(* ----------------------------------------------------------------- *)
(** ** Attention block: the feed-forward stage *)

(** C2. The feed-forward stage does not act per spatial position.  The two
    post-attention maps [attended_a] and [attended_b] agree in every channel
    at position (0,0), and for identity weights and every activation that
    separates 0 from 1 the results of the block differ at position (0,0), in
    channel 1: the row the feed-forward sees for position (0,0) is read from
    the [(H,C,W)] layout that [permute(0, 2, 1, 3)] produces, so it holds
    channels 0..7 of both columns. *)
Theorem feed_forward_mixes_positions (gelu : Z -> Z) :
  gelu 0%Z <> gelu 1%Z ->
  (forall b c, b < 1 -> c < 16 ->
     get attended_a [b; c; 0; 0] = get attended_b [b; c; 0; 0])
  /\ exists y1 y2,
       VisionTransformer_feed_forward gelu (identity_ffn 16) 1 16 1 2 attended_a = Ok y1
       /\ VisionTransformer_feed_forward gelu (identity_ffn 16) 1 16 1 2 attended_b = Ok y2
       /\ get y1 [0; 1; 0; 0] <> get y2 [0; 1; 0; 0].
Proof.
  intros Hg. split.
  - intros b c Hb Hc. destruct b as [|b]; [|lia].
    do 16 (destruct c as [|c]; [reflexivity|]). lia.
  - eexists. eexists. split; [reflexivity|]. split; [reflexivity|].
    cbn. intros Heq. apply Hg.
    destruct (gelu 0%Z), (gelu 1%Z); cbn in Heq; congruence.
Qed.

Lemma feed_forward_mixes_positions_witness :
  (fun z : Z => z) 0%Z <> (fun z : Z => z) 1%Z
  /\ exists y1 y2,
       VisionTransformer_feed_forward (fun z => z) (identity_ffn 16) 1 16 1 2 attended_a
       = Ok y1
       /\ VisionTransformer_feed_forward (fun z => z) (identity_ffn 16) 1 16 1 2 attended_b
          = Ok y2
       /\ get y1 [0; 1; 0; 0] <> get y2 [0; 1; 0; 0].
Proof.
  split; [cbn; lia|].
  apply (@feed_forward_mixes_positions (fun z => z)). cbn. lia.
Defined.

(* ----------------------------------------------------------------- *)
(** ** Composite loss *)

Lemma size_checking_metric_returns (output target p q : Tensor R) (s : Size) (t : nat) :
  size output = s -> size target = s ->
  select1 output t = Ok p -> select1 target t = Ok q ->
  returns (size_checking_metric p q).
Proof.
  intros So St Hp Hq.
  apply select1_size in Hp as (n1 & T1 & r1 & So' & _ & Sp).
  apply select1_size in Hq as (n2 & T2 & r2 & St' & _ & Sq).
  assert (E : n1 :: r1 = n2 :: r2) by congruence.
  unfold size_checking_metric, Size_eqb. rewrite Sp, Sq, E.
  destruct (list_eq_dec Nat.eq_dec (n2 :: r2) (n2 :: r2)); [|contradiction].
  eexists. reflexivity.
Qed.

(** C10. The composite loss is symmetric in its two arguments on tensors of
    one size, as the mean-squared error is and the structural-similarity
    metric is taken to be: both calls return the same value, or raise the
    same exception. *)
Theorem CustomLoss_forward_symmetric
  (ssim : Tensor R -> Tensor R -> result R) (self : CustomLoss) (a b : Tensor R) :
  (forall p q, ssim p q = ssim q p) ->
  size a = size b ->
  CustomLoss_forward ssim self a b = CustomLoss_forward ssim self b a.
Proof.
  intros Hsym Hs. unfold CustomLoss_forward.
  rewrite (mse_loss_comm Hs), Hs.
  destruct (mse_loss b a) as [m|e]; cbn [bind]; [|reflexivity].
  destruct (Sizes.size_at (size b) 1) as [steps|e]; cbn [bind]; [|reflexivity].
  rewrite (@for_each_ext _ _
             (fun t => pred_single <- select1 b t ;;
                       target_single <- select1 a t ;;
                       s <- ssim pred_single target_single ;; Ok (1 - s)%R)).
  - reflexivity.
  - intros t _.
    destruct (select1 a t) as [p|e] eqn:Ea; destruct (select1 b t) as [q|e'] eqn:Eb;
      cbn [bind].
    + rewrite Hsym. reflexivity.
    + apply (select1_Raise_same_size (y:=a)) in Eb; [congruence|auto].
    + apply (select1_Raise_same_size (y:=b)) in Ea; [congruence|auto].
    + apply (select1_Raise_same_size (y:=b)) in Ea; [congruence|auto].
Qed.

Lemma CustomLoss_forward_symmetric_witness :
  size (zeros [2; 3; 2; 16; 16]) = size (mkTensor [2; 3; 2; 16; 16] (List.repeat 1%R 3072))
  /\ CustomLoss_forward size_checking_metric CustomLoss_default
       (zeros [2; 3; 2; 16; 16]) (mkTensor [2; 3; 2; 16; 16] (List.repeat 1%R 3072))
     = CustomLoss_forward size_checking_metric CustomLoss_default
         (mkTensor [2; 3; 2; 16; 16] (List.repeat 1%R 3072)) (zeros [2; 3; 2; 16; 16]).
Proof.
  split; [reflexivity|].
  apply (@CustomLoss_forward_symmetric size_checking_metric CustomLoss_default).
  - exact size_checking_metric_comm.
  - reflexivity.
Defined.

(** C6, as stated, fails on an empty time axis: with no time step there is
    no structural-similarity term to stack, and the loss raises whatever its
    weights are, where the mean-squared error alone is defined. *)
Lemma CustomLoss_forward_no_time_step :
  size (zeros [2; 0; 2; 16; 16]) = [2; 0; 2; 16; 16]
  /\ CustomLoss_forward size_checking_metric (mkCustomLoss 1 0)
       (zeros [2; 0; 2; 16; 16]) (zeros [2; 0; 2; 16; 16])
     = Raise (RuntimeError "stack expects a non-empty TensorList").
Proof. split; reflexivity. Qed.

(** C6 (amended). For every pair of well-formed 5D tensors of one size with
    at least one time step, on whose frames the structural-similarity metric
    returns, the loss with [mse_weight = 1] and [ssim_weight = 0] is the plain
    mean-squared error of the two tensors. *)
Theorem CustomLoss_forward_weights_1_0
  (ssim : Tensor R -> Tensor R -> result R) (output target : Tensor R)
  (n T c h w : nat) :
  wf output -> wf target ->
  size output = [n; T; c; h; w] -> size target = [n; T; c; h; w] ->
  1 <= T ->
  (forall t p q, t < T -> select1 output t = Ok p -> select1 target t = Ok q ->
                 returns (ssim p q)) ->
  CustomLoss_forward ssim (mkCustomLoss 1 0) output target
  = Ok (plain_mse output target).
Proof.
  intros Ho Ht So St HT Hssim. unfold CustomLoss_forward.
  rewrite mse_loss_same_size by (assumption || congruence). cbn [bind].
  rewrite So. cbn [Sizes.size_at nth_error bind].
  destruct (@for_each_returns R
              (fun t => pred_single <- select1 output t ;;
                        target_single <- select1 target t ;;
                        s <- ssim pred_single target_single ;; Ok (1 - s)%R)
              (seq 0 T)) as (vs & Hvs & Hlen).
  { intros t Hin. apply in_seq in Hin.
    destruct (@select1_returns _ output n T t [c; h; w] So) as [p Hp]; [lia|].
    destruct (@select1_returns _ target n T t [c; h; w] St) as [q Hq]; [lia|].
    destruct (Hssim t p q) as [s Hs]; [lia|assumption|assumption|].
    rewrite Hp, Hq. cbn [bind]. rewrite Hs. cbn [bind]. eexists. reflexivity. }
  rewrite Hvs. cbn [bind]. rewrite length_seq in Hlen.
  destruct vs as [|v vs]; [cbn [List.length] in Hlen; lia|].
  cbn [stack_mean bind mse_weight ssim_weight]. f_equal. ring.
Qed.

Lemma CustomLoss_forward_weights_1_0_witness :
  CustomLoss_forward size_checking_metric (mkCustomLoss 1 0)
    (zeros [2; 3; 2; 16; 16]) (zeros [2; 3; 2; 16; 16])
  = Ok (plain_mse (zeros [2; 3; 2; 16; 16]) (zeros [2; 3; 2; 16; 16])).
Proof.
  apply (@CustomLoss_forward_weights_1_0 size_checking_metric
           (zeros [2; 3; 2; 16; 16]) (zeros [2; 3; 2; 16; 16]) 2 3 2 16 16).
  - reflexivity.
  - reflexivity.
  - reflexivity.
  - reflexivity.
  - lia.
  - intros t p q _ Hp Hq.
    exact (@size_checking_metric_returns _ _ p q _ t eq_refl eq_refl Hp Hq).
Defined.

(** C3, as stated, fails when the prediction has one time step and the
    target has several: the mean-squared error broadcasts, the loop compares
    the single predicted frame with the first target frame, and a value is
    returned. *)
Lemma CustomLoss_forward_broadcasts :
  size (zeros [2; 1; 2; 16; 16]) <> size (zeros [2; 60; 2; 16; 16])
  /\ returns (CustomLoss_forward size_checking_metric CustomLoss_default
                (zeros [2; 1; 2; 16; 16]) (zeros [2; 60; 2; 16; 16])).
Proof.
  split; [discriminate|]. eexists. hnf. reflexivity.
Qed.

(** C3 (amended). With a metric that refuses frames of different sizes, the
    loss raises on every pair of tensors of different sizes, except when
    they differ only in the time axis and the prediction has exactly one
    time step: it returns a value only when the sizes are identical or are
    [(N,1,...)] against [(N,T,...)] with [T > 1]. *)
Theorem CustomLoss_forward_shape_mismatch
  (ssim : Tensor R -> Tensor R -> result R) (self : CustomLoss)
  (output target : Tensor R) :
  (forall p q v, ssim p q = Ok v -> size p = size q) ->
  size output <> size target ->
  ~ (exists n T rest,
       size output = n :: 1 :: rest /\ size target = n :: T :: rest /\ 1 < T) ->
  raises (CustomLoss_forward ssim self output target).
Proof.
  intros Hshape Hne Hpat.
  destruct (CustomLoss_forward ssim self output target) as [v|e] eqn:E;
    [|exists e; reflexivity].
  exfalso.
  destruct (@CustomLoss_forward_returns_inv ssim self output target Hshape)
    as [Heq|Hex]; [exists v; assumption|contradiction|contradiction].
Qed.

Lemma CustomLoss_forward_shape_mismatch_witness :
  raises (CustomLoss_forward size_checking_metric CustomLoss_default
            (zeros [2; 60; 2; 16; 16]) (zeros [2; 60; 2; 16; 8])).
Proof.
  apply (@CustomLoss_forward_shape_mismatch size_checking_metric CustomLoss_default
           (zeros [2; 60; 2; 16; 16]) (zeros [2; 60; 2; 16; 8])).
  - exact size_checking_metric_shape.
  - cbn. intros Heq. discriminate Heq.
  - cbn. intros (n & T & rest & Ho & _). discriminate Ho.
Defined.

(* ----------------------------------------------------------------- *)
(** ** Recurrent expansion block *)

(** C4, as stated, fails in its second half: with all LSTM parameters zero
    the block maps the two different frames [frame_one] and [frame_two] to
    the same output sequence, whatever the activations are. *)
Lemma zero_block_collision :
  frame_one <> frame_two
  /\ size frame_one = size frame_two
  /\ forall sigmoid tanh : Z -> Z,
       exists y,
         RecurrentBlock_forward sigmoid tanh zero_block frame_one = Ok (y, zero_block)
         /\ RecurrentBlock_forward sigmoid tanh zero_block frame_two = Ok (y, zero_block).
Proof.
  split; [discriminate|]. split; [reflexivity|].
  intros sigmoid tanh. eexists. split; reflexivity.
Qed.

(** C4 (amended). A call of the recurrent block leaves the block object as
    it was and runs its LSTM, on the input frame repeated at every time
    step, from the zero hidden and cell state of every sample; so a second
    call on the same input returns the same output sequence.  Nothing is
    said about two different inputs. *)
Theorem RecurrentBlock_forward_deterministic
  (A : Type) (N : Num A) (sigmoid tanh : A -> A)
  (self self' : RecurrentBlockObj) (x y : Tensor A) :
  RecurrentBlock_forward sigmoid tanh self x = Ok (y, self') ->
  self' = self
  /\ RecurrentBlock_forward sigmoid tanh self' x = Ok (y, self')
  /\ exists b c h w x_repeated out last,
       size x = [b; c; h; w]
       /\ repeat_time (mkTensor [b; 1; c * h * w] (data x)) (timesteps (rb_cfg self))
          = Ok x_repeated
       /\ LSTM_call sigmoid tanh (lstm (rb_cfg self)) (rb_params self) x_repeated
            (Some (List.repeat (zero_state (hidden_size (lstm (rb_cfg self)))) b))
          = Ok (out, last)
       /\ data y = data out.
Proof.
  intros Hf.
  destruct (RecurrentBlock_forward_inv Hf)
    as (-> & b & c & h & w & xrep & out & last & Hsize & Hrep & Hcall & Hdata).
  split; [reflexivity|]. split; [exact Hf|].
  exists b, c, h, w, xrep, out, last.
  split; [exact Hsize|]. split; [exact Hrep|]. split; [|exact Hdata].
  assert (Hs : size xrep = [b; timesteps (rb_cfg self); c * h * w]).
  { unfold repeat_time in Hrep. cbn [size data] in Hrep.
    apply bind_Ok_inv in Hrep as (s & Hs & Hrep). injection Hrep as <-.
    cbn in Hs. injection Hs as <-. cbn [size].
    rewrite !Nat.mul_1_r, Nat.add_0_r. reflexivity. }
  rewrite <- (LSTM_call_default_state sigmoid tanh _ _ Hs). exact Hcall.
Qed.

Lemma RecurrentBlock_forward_deterministic_witness :
  exists y,
    RecurrentBlock_forward (fun z => z) (fun z => z) zero_block frame_one
    = Ok (y, zero_block)
    /\ RecurrentBlock_forward (fun z => z) (fun z => z) zero_block frame_one
       = Ok (y, zero_block).
Proof.
  eexists. split; [reflexivity|].
  apply (@RecurrentBlock_forward_deterministic Z Num_Z (fun z => z) (fun z => z)
           zero_block zero_block frame_one).
  reflexivity.
Defined.

(* ----------------------------------------------------------------- *)
(** ** Time-distributed wrapper *)

(** C5, as stated, fails on an empty batch: the second [reshape] has to
    infer the channel axis next to a zero product and raises. *)
Lemma TimeDistributed_Identity_empty_batch :
  raises (TimeDistributedModule_forward (@Identity nat)
            (mkTensor [0; 60; 2; 16; 16] [])).
Proof. eexists. reflexivity. Qed.

(** C5 (amended). For every 5D tensor none of whose axes is empty, the
    time-distributed wrapper of the identity module returns the tensor
    itself, with its size and its values; on a tensor with an empty axis it
    raises. *)
Theorem TimeDistributed_Identity (A : Type) (x : Tensor A) (b t c h w : nat) :
  size x = [b; t; c; h; w] ->
  if 0 <? b * t * c * h * w
  then TimeDistributedModule_forward (@Identity A) x = Ok x
  else raises (TimeDistributedModule_forward (@Identity A) x).
Proof.
  destruct x as [s d]. cbn [size]. intros ->.
  unfold TimeDistributedModule_forward, Sizes.unpack5, reshape, Identity.
  cbn [size data bind].
  destruct (0 <? b * t * c * h * w) eqn:E.
  - apply Nat.ltb_lt in E.
    assert (0 < b /\ 0 < t /\ 0 < c /\ 0 < h /\ 0 < w) as (Hb & Ht & Hc & Hh & Hw) by nia.
    rewrite (@infer_size_infer _ _ (b * t)); sizes_cbn; [|reflexivity|nia|ring].
    unfold Sizes.size_at. cbn [size data]. sizes_cbn.
    rewrite (@infer_size_infer _ _ c); sizes_cbn; [reflexivity|reflexivity|nia|ring].
  - apply Nat.ltb_ge in E.
    destruct (Nat.eq_dec (c * h * w) 0) as [Hz|Hz].
    + do 2 apply raises_bind.
      apply infer_size_ambiguous; sizes_cbn; [reflexivity|nia].
    + rewrite (@infer_size_infer _ _ (b * t)); sizes_cbn;
        [|reflexivity|rewrite Nat.mul_1_r, Nat.mul_assoc; lia|ring].
      unfold Sizes.size_at. cbn [size data]. sizes_cbn.
      apply raises_bind, infer_size_ambiguous; sizes_cbn; [reflexivity|].
      rewrite Nat.mul_1_r, !Nat.mul_assoc.
      destruct (Nat.eq_dec (b * t) 0) as [Hbt|Hbt]; [rewrite Hbt; reflexivity|].
      exfalso. apply Hbt.
      assert (Hp : b * t * (c * h * w) = 0) by (rewrite !Nat.mul_assoc; lia).
      apply Nat.eq_mul_0 in Hp. tauto.
Qed.

Lemma TimeDistributed_Identity_witness :
  TimeDistributedModule_forward (@Identity nat) (mkTensor [2; 3; 1; 1; 2] (seq 0 12))
  = Ok (mkTensor [2; 3; 1; 1; 2] (seq 0 12)).
Proof.
  apply (@TimeDistributed_Identity nat (mkTensor [2; 3; 1; 1; 2] (seq 0 12)) 2 3 1 1 2).
  reflexivity.
Defined.

(* ----------------------------------------------------------------- *)
(** ** Dataset accessor *)

(** C9. The accessor does not keep a constant array in [[0,1]]: whenever the
    input file of a sample holds a non-empty array all of whose values are
    equal, the maximum equals the minimum, every quotient is 0/0, and the
    input tensor the accessor returns is NaN throughout, so that none of its
    values lies in [[0,1]]. *)
Theorem getitem_constant_input
  (np_load : string -> result ndarray) (self : CustomDataset) (idx : nat)
  (X_name y_name : string) (X_array y_array : ndarray) (c : Q) :
  list_item (filenames_X self) idx = Ok X_name ->
  list_item (filenames_y self) idx = Ok y_name ->
  np_load (path_join (root_X self) X_name) = Ok X_array ->
  np_load (path_join (root_y self) y_name) = Ok y_array ->
  arr_values X_array <> [] ->
  Forall (fun x => Qeq x c) (arr_values X_array) ->
  arr_values y_array <> [] ->
  exists X y,
    CustomDataset_getitem np_load self idx = Ok (X, y)
    /\ data X <> []
    /\ Forall (fun v => v = NaN) (data X)
    /\ Forall (fun v => ~ in_unit_interval v) (data X).
Proof.
  intros HX Hy HlX Hly HneX Hconst Hney.
  destruct (normalize_returns HneX) as (X & HnX & HlenX).
  destruct (normalize_returns Hney) as (y & Hny & _).
  exists X, y. unfold CustomDataset_getitem.
  rewrite HX, Hy. cbn [bind]. rewrite HlX, Hly. cbn [bind].
  rewrite HnX, Hny. cbn [bind].
  assert (Hnan := normalize_constant Hconst HnX).
  split; [reflexivity|]. split; [|split; [exact Hnan|]].
  - intros Hnil. rewrite Hnil in HlenX. cbn [List.length] in HlenX.
    symmetry in HlenX. apply length_zero_iff_nil in HlenX. contradiction.
  - rewrite Forall_forall in *. intros v Hv. rewrite (Hnan v Hv). cbn. tauto.
Qed.

Lemma getitem_constant_input_witness :
  exists X y,
    CustomDataset_getitem disk one_sample 0 = Ok (X, y)
    /\ data X = [NaN; NaN; NaN; NaN]
    /\ Forall (fun v => ~ in_unit_interval v) (data X)
    /\ Forall in_unit_interval (data y).
Proof.
  destruct (@getitem_constant_input disk one_sample 0 "a.npy" "a.npy"
              constant_field varying_field 3%Q)
    as (X & y & Hget & _ & _ & Hout).
  - reflexivity.
  - reflexivity.
  - reflexivity.
  - reflexivity.
  - cbn. discriminate.
  - cbn. repeat constructor.
  - cbn. discriminate.
  - exists X, y. split; [exact Hget|].
    vm_compute in Hget. injection Hget as <- <-.
    split; [reflexivity|]. split; [exact Hout|].
    repeat constructor; cbn; unfold Qle; cbn; lia.
Defined.

(* ----------------------------------------------------------------- *)
(** ** Training loop *)

(** C8, as stated, fails on a training pool of one sample: [int(1 * 0.8)] is
    0, the training subset is empty, and the first epoch raises when its
    shuffled loader is built. *)
Lemma training_single_sample_raises :
  training counting_randperm unit_train_step unit_eval_step 1 initial_state
  = Raise (ValueError "num_samples should be a positive integer value, but got num_samples=0").
Proof. reflexivity. Qed.

(** C8 (amended). On a training pool of at least two samples, with batch
    steps that return, the loop returns after exactly the 20 epochs
    0, ..., 19 and the closing message.  Every epoch starts by drawing a
    split of the pool from the generator into [int(0.8 n)] training and the
    remaining validation samples, runs its training batches, then the
    validation batches in the order of the validation subset with gradients
    disabled, and a report is printed in the epochs numbered 5, 10, 15 and
    20 and in no other. *)
Theorem training_runs_all_epochs
  (Model Rng : Type) (randperm : Rng -> nat -> list nat * Rng)
  (train_step : Model -> list nat -> result (Model * R))
  (eval_step : Model -> list nat -> result R)
  (n : nat) (st : TrainState Model Rng) :
  (forall g k, List.length (fst (randperm g k)) = k) ->
  (forall m b, returns (train_step m b)) ->
  (forall m b, returns (eval_step m b)) ->
  2 <= n ->
  exists st' evs segs,
    training randperm train_step eval_step n st = Ok (st', evs)
    /\ evs = List.concat segs ++ [Finished]
    /\ Forall2 (epoch_shape randperm n) (seq 0 num_epochs) segs
    /\ started_epochs evs = seq 0 20
    /\ printed_epochs evs = [5; 10; 15; 20].
Proof.
  intros Hperm Htrain Heval Hn. unfold training.
  destruct (@run_epochs_spec Model Rng randperm train_step eval_step
              Hperm Htrain Heval n (seq 0 num_epochs) st Hn)
    as (st' & segs & Hrun & Hall).
  rewrite Hrun. cbn [bind].
  exists st', (List.concat segs ++ [Finished]), segs.
  split; [reflexivity|]. split; [reflexivity|]. split; [exact Hall|].
  unfold started_epochs, printed_epochs. rewrite !flat_map_app.
  fold (started_epochs (List.concat segs)). fold (printed_epochs (List.concat segs)).
  rewrite (started_epochs_segments Hall), (printed_epochs_segments Hall).
  split; reflexivity.
Qed.

Lemma training_runs_all_epochs_witness :
  exists st' evs,
    training counting_randperm unit_train_step unit_eval_step 10 initial_state
    = Ok (st', evs)
    /\ started_epochs evs = seq 0 20
    /\ printed_epochs evs = [5; 10; 15; 20].
Proof.
  destruct (@training_runs_all_epochs unit nat counting_randperm unit_train_step
              unit_eval_step 10 initial_state)
    as (st' & evs & segs & Hrun & _ & _ & Hstart & Hprint).
  - intros g k. cbn. apply length_seq.
  - intros m b. eexists. reflexivity.
  - intros m b. eexists. reflexivity.
  - lia.
  - exists st', evs. auto.
Defined.

(* ----------------------------------------------------------------- *)
(** ** Composite model *)

(** C1, as stated, fails on the 16 x 16 grid of its own scenario: the
    encoder leaves a 2 x 2 grid, the recurrent block flattens 64 x 2 x 2 = 256
    features, and its LSTM was built for 64 x 8 x 8 = 4096. *)
Lemma ProxyModel_forward_16x16_raises :
  16 mod 8 = 0
  /\ Sizes.model [2; 4; 16; 16]
     = Raise (RuntimeError "input.size(-1) must be equal to input_size").
Proof. split; reflexivity. Qed.

(** C1 (amended). On a non-empty batch of 4-channel images whose sides are
    divisible by 8 and whose grid, halved three times by the encoder, is the
    8 x 8 latent grid the recurrent block was built for (that is, on
    64 x 64 images), the forward pass of the model returns, and the result
    has size [(N,60,2,H,W)]. *)
Theorem ProxyModel_forward_sizes (N H W : nat) :
  1 <= N ->
  H mod 8 = 0 -> W mod 8 = 0 ->
  H / 8 = 8 -> W / 8 = 8 ->
  Sizes.model [N; 4; H; W] = Ok [N; 60; 2; H; W].
Proof.
  intros HN HmH HmW HdH HdW.
  assert (HH : H = 64) by (rewrite (Nat.div_mod_eq H 8), HmH, HdH; reflexivity).
  assert (HW : W = 64) by (rewrite (Nat.div_mod_eq W 8), HmW, HdW; reflexivity).
  subst H W.
  rewrite model_large_grid by lia. reflexivity.
Qed.

Lemma ProxyModel_forward_sizes_witness :
  Sizes.model [2; 4; 64; 64] = Ok [2; 60; 2; 64; 64].
Proof.
  apply (@ProxyModel_forward_sizes 2 64 64);
    [lia|reflexivity|reflexivity|reflexivity|reflexivity].
Defined.

(* ================================================================= *)
(** * Further properties of the code *)

(* ----------------------------------------------------------------- *)
(** ** The convolution blocks on sizes *)

Lemma SeparableConv2d_init_inv (cin cout : nat) (m : SeparableConv2d) :
  SeparableConv2d_init cin cout = Ok m ->
  cin <> 0
  /\ m = mkSeparableConv2d (mkConv2d cin cin 3 1 1 cin false)
           (mkConv2d cin cout 1 1 0 1 false).
Proof.
  unfold SeparableConv2d_init, Conv2d_init. intros Hm.
  destruct (cin =? 0) eqn:Ec; [discriminate|]. apply Nat.eqb_neq in Ec.
  rewrite Nat.Div0.mod_same, !Nat.mod_1_r in Hm. cbn [negb Nat.eqb bind] in Hm.
  injection Hm as <-. split; [assumption|reflexivity].
Qed.

Lemma SeparableConv2d_forward_channels (cin cout : nat) (m : SeparableConv2d)
  (n c h w : nat) :
  SeparableConv2d_init cin cout = Ok m -> c <> cin ->
  raises (Sizes.SeparableConv2d_forward m [n; c; h; w]).
Proof.
  intros Hm Hc. destruct (SeparableConv2d_init_inv Hm) as [_ ->].
  unfold Sizes.SeparableConv2d_forward, Sizes.Conv2d_forward, Sizes.with_chw. conv_cbn.
  rewrite Nat.ltb_irrefl.
  replace (c =? cin) with false by (symmetry; apply Nat.eqb_neq; assumption).
  cbn [negb bind]. auto.
Qed.

Lemma conv_block_forward_channels (cin cout : nat) (m : conv_block) (n c h w : nat) :
  conv_block_init cin cout = Ok m -> c <> cin ->
  raises (Sizes.conv_block_forward m [n; c; h; w]).
Proof.
  unfold conv_block_init. intros Hm Hc.
  destruct (SeparableConv2d_init cin cin) as [c1|] eqn:E1; [|discriminate].
  destruct (SeparableConv2d_init cin cout) as [c2|] eqn:E2; [|discriminate].
  cbn [bind] in Hm. injection Hm as <-.
  unfold Sizes.conv_block_forward. cbn [cb_conv1].
  apply raises_bind, (SeparableConv2d_forward_channels n h w E1 Hc).
Qed.

(** X1. A separable convolution built with the default 3 x 3 kernel and at
    least one output channel keeps the batch and the grid of an
    [(N,C,H,W)] input and replaces the channel count: on a non-empty batch
    it returns size [(N,out_channels,H,W)] when the input has [in_channels]
    channels and a non-empty grid, and raises on every other input. *)
Theorem SeparableConv2d_forward_sizes (in_channels out_channels : nat)
  (m : SeparableConv2d) (n c h w : nat) :
  SeparableConv2d_init in_channels out_channels = Ok m ->
  1 <= out_channels ->
  1 <= n ->
  if (c =? in_channels) && (1 <=? h) && (1 <=? w)
  then Sizes.SeparableConv2d_forward m [n; c; h; w] = Ok [n; out_channels; h; w]
  else raises (Sizes.SeparableConv2d_forward m [n; c; h; w]).
Proof.
  intros Hm Hout _.
  destruct (c =? in_channels) eqn:Ec; cbn [andb].
  - apply Nat.eqb_eq in Ec. subst c.
    destruct (1 <=? h) eqn:Eh; cbn [andb].
    + destruct (1 <=? w) eqn:Ew.
      * apply Nat.leb_le in Eh, Ew. apply (SeparableConv2d_forward_ok n Hm); assumption.
      * apply Nat.leb_gt in Ew. apply (SeparableConv2d_forward_empty n Hm). lia.
    + apply Nat.leb_gt in Eh. apply (SeparableConv2d_forward_empty n Hm). lia.
  - apply Nat.eqb_neq in Ec. apply (SeparableConv2d_forward_channels n h w Hm Ec).
Qed.

Lemma SeparableConv2d_forward_sizes_witness :
  exists m,
    SeparableConv2d_init 4 8 = Ok m
    /\ Sizes.SeparableConv2d_forward m [2; 4; 5; 7] = Ok [2; 8; 5; 7].
Proof.
  eexists. split; [reflexivity|].
  apply (@SeparableConv2d_forward_sizes 4 8 _ 2 4 5 7); [reflexivity|lia|lia].
Defined.

(** X2. An encoder block with at least one output channel halves the grid,
    rounding down: on a non-empty batch of [(N,C,H,W)] inputs it returns
    size [(N,out_channels,H/2,W/2)] when the input has [in_channels]
    channels and at least two rows and two columns, and raises on every
    other input; an odd row or column is dropped by the pooling. *)
Theorem conv_block_forward_sizes (in_channels out_channels : nat) (m : conv_block)
  (n c h w : nat) :
  conv_block_init in_channels out_channels = Ok m ->
  1 <= out_channels ->
  1 <= n ->
  if (c =? in_channels) && (2 <=? h) && (2 <=? w)
  then Sizes.conv_block_forward m [n; c; h; w] = Ok [n; out_channels; h / 2; w / 2]
  else raises (Sizes.conv_block_forward m [n; c; h; w]).
Proof.
  intros Hm Hout _.
  destruct (c =? in_channels) eqn:Ec; cbn [andb].
  - apply Nat.eqb_eq in Ec. subst c.
    destruct (2 <=? h) eqn:Eh; cbn [andb].
    + destruct (2 <=? w) eqn:Ew.
      * apply Nat.leb_le in Eh, Ew. apply (conv_block_forward_ok n Hm); assumption.
      * apply Nat.leb_gt in Ew. apply (conv_block_forward_small n Hm). lia.
    + apply Nat.leb_gt in Eh. apply (conv_block_forward_small n Hm). lia.
  - apply Nat.eqb_neq in Ec. apply (conv_block_forward_channels n h w Hm Ec).
Qed.

Lemma conv_block_forward_sizes_witness :
  exists m,
    conv_block_init 4 8 = Ok m
    /\ Sizes.conv_block_forward m [2; 4; 5; 7] = Ok [2; 8; 2; 3].
Proof.
  eexists. split; [reflexivity|].
  apply (@conv_block_forward_sizes 4 8 _ 2 4 5 7); [reflexivity|lia|lia].
Defined.

(** X3. A decoder block with at least one input and one output channel
    doubles the grid: on a non-empty batch of [(N,C,H,W)] inputs with a
    non-empty grid it returns size [(N,out_channels,2H,2W)] when the input
    has [in_channels] channels, and raises when it has not. *)
Theorem decon_block_forward_sizes (in_channels out_channels n c h w : nat) :
  1 <= in_channels -> 1 <= out_channels ->
  1 <= n -> 1 <= h -> 1 <= w ->
  if c =? in_channels
  then Sizes.decon_block_forward (decon_block_init in_channels out_channels) [n; c; h; w]
       = Ok [n; out_channels; 2 * h; 2 * w]
  else raises (Sizes.decon_block_forward (decon_block_init in_channels out_channels)
                 [n; c; h; w]).
Proof.
  intros Hci Hco _ Hh Hw. destruct (c =? in_channels) eqn:Ec.
  - apply Nat.eqb_eq in Ec. subst c. apply decon_block_forward_ok; assumption.
  - unfold Sizes.decon_block_forward, Sizes.ConvTranspose2d_forward, Sizes.with_chw,
      decon_block_init, ConvTranspose2d_init.
    cbn [db_deconv deconv_in_channels deconv_out_channels]. rewrite Ec.
    destruct ((in_channels =? 0) || (out_channels =? 0)); cbn [negb bind]; auto.
Qed.

Lemma decon_block_forward_sizes_witness :
  Sizes.decon_block_forward (decon_block_init 32 16) [2; 32; 8; 8] = Ok [2; 16; 16; 16].
Proof.
  apply (@decon_block_forward_sizes 32 16 2 32 8 8); lia.
Defined.

Lemma Conv2d_rect_forward_square (cin cout k p g : nat) (b : bool) (x : Size) :
  Conv2d_rect_forward (mkConv2d_rect cin cout (k, k) p g b) x
  = Sizes.Conv2d_forward (mkConv2d cin cout k 1 p g b) x.
Proof.
  unfold Conv2d_rect_forward, Sizes.Conv2d_forward, Sizes.with_chw.
  cbn [rect_kernel_size rect_padding rect_in_channels rect_out_channels rect_groups].
  conv_cbn.
  destruct x as [|a0 [|a1 [|a2 [|a3 [|a4 x]]]]]; try reflexivity;
    rewrite !Nat.div_1_r; reflexivity.
Qed.

(** With the default arguments this is the separable convolution of the
    blocks above. *)
Lemma SeparableConv2d_init_kernel_default (cin cout : nat) (m : SeparableConv2d)
  (x : Size) :
  SeparableConv2d_init cin cout = Ok m ->
  exists m',
    SeparableConv2d_init_kernel cin cout (3, 3) false = Ok m'
    /\ SeparableConv2d_rect_forward m' x = Sizes.SeparableConv2d_forward m x.
Proof.
  intros Hm. destruct (SeparableConv2d_init_inv Hm) as [Hc ->].
  unfold SeparableConv2d_init_kernel, Conv2d_rect_init, Conv2d_init.
  replace (cin =? 0) with false by (symmetry; apply Nat.eqb_neq; assumption).
  rewrite Nat.Div0.mod_same, !Nat.mod_1_r. cbn [negb Nat.eqb bind].
  eexists. split; [reflexivity|].
  unfold SeparableConv2d_rect_forward, Sizes.SeparableConv2d_forward.
  cbn [depthwise_rect pointwise_rect depthwise pointwise].
  rewrite Conv2d_rect_forward_square. reflexivity.
Qed.

(** X4. The padding of a separable convolution does not follow its
    kernel: built with a [kh x kw] kernel and at least one output channel it
    maps a non-empty batch of [(N,in_channels,H,W)] inputs with a non-empty
    grid to size [(N,out_channels,H + 3 - kh,W + 3 - kw)], and raises when
    the grid is empty or the kernel exceeds the padded grid; so the grid is
    kept by 3 x 3 kernels only. *)
Theorem SeparableConv2d_kernel_sizes (in_channels out_channels kh kw : nat) (bias : bool)
  (m : SeparableConv2d_rect) (n h w : nat) :
  SeparableConv2d_init_kernel in_channels out_channels (kh, kw) bias = Ok m ->
  1 <= out_channels ->
  1 <= n -> 1 <= kh -> 1 <= kw ->
  if (1 <=? h) && (1 <=? w) && (kh <=? h + 2) && (kw <=? w + 2)
  then SeparableConv2d_rect_forward m [n; in_channels; h; w]
       = Ok [n; out_channels; h + 3 - kh; w + 3 - kw]
  else raises (SeparableConv2d_rect_forward m [n; in_channels; h; w]).
Proof.
  unfold SeparableConv2d_init_kernel, Conv2d_rect_init, Conv2d_init.
  intros Hm Hout _ Hkh Hkw.
  destruct (in_channels =? 0) eqn:Ec; [discriminate|].
  rewrite Nat.Div0.mod_same, !Nat.mod_1_r in Hm. cbn [negb Nat.eqb bind] in Hm.
  injection Hm as <-.
  unfold SeparableConv2d_rect_forward, Conv2d_rect_forward, Sizes.Conv2d_forward,
    Sizes.with_chw.
  cbn [depthwise_rect pointwise_rect rect_kernel_size rect_padding rect_in_channels
       rect_out_channels rect_groups].
  conv_cbn. rewrite Nat.ltb_irrefl, Nat.eqb_refl. cbn [negb].
  destruct (1 <=? h) eqn:Eh; cbn [andb].
  2:{ apply Nat.leb_gt in Eh.
      replace (h =? 0) with true by (symmetry; apply Nat.eqb_eq; lia).
      cbn [orb bind]. auto. }
  apply Nat.leb_le in Eh.
  replace (h =? 0) with false by (symmetry; apply Nat.eqb_neq; lia).
  destruct (1 <=? w) eqn:Ew; cbn [andb orb].
  2:{ apply Nat.leb_gt in Ew.
      replace (w =? 0) with true by (symmetry; apply Nat.eqb_eq; lia).
      cbn [bind]. auto. }
  apply Nat.leb_le in Ew.
  replace (w =? 0) with false by (symmetry; apply Nat.eqb_neq; lia).
  destruct (kh <=? h + 2) eqn:Ekh; cbn [andb].
  2:{ apply Nat.leb_gt in Ekh.
      replace (h + 2 * 1 <? kh) with true by (symmetry; apply Nat.ltb_lt; lia).
      cbn [orb bind]. auto. }
  apply Nat.leb_le in Ekh.
  replace (h + 2 * 1 <? kh) with false by (symmetry; apply Nat.ltb_ge; lia).
  cbn [orb].
  destruct (kw <=? w + 2) eqn:Ekw.
  2:{ apply Nat.leb_gt in Ekw.
      replace (w + 2 * 1 <? kw) with true by (symmetry; apply Nat.ltb_lt; lia).
      cbn [bind]. auto. }
  apply Nat.leb_le in Ekw.
  replace (w + 2 * 1 <? kw) with false by (symmetry; apply Nat.ltb_ge; lia).
  cbn [bind]. rewrite Nat.eqb_refl. cbn [negb].
  replace (out_channels <? 1) with false by (symmetry; apply Nat.ltb_ge; lia).
  replace (h + 2 * 1 - kh + 1 =? 0) with false by (symmetry; apply Nat.eqb_neq; lia).
  replace (w + 2 * 1 - kw + 1 =? 0) with false by (symmetry; apply Nat.eqb_neq; lia).
  replace (h + 2 * 1 - kh + 1 + 2 * 0 <? 1) with false
    by (symmetry; apply Nat.ltb_ge; lia).
  replace (w + 2 * 1 - kw + 1 + 2 * 0 <? 1) with false
    by (symmetry; apply Nat.ltb_ge; lia).
  cbn [orb bind]. rewrite !Nat.div_1_r.
  replace (h + 2 * 1 - kh + 1 + 2 * 0 - 1 + 1) with (h + 3 - kh) by lia.
  replace (w + 2 * 1 - kw + 1 + 2 * 0 - 1 + 1) with (w + 3 - kw) by lia.
  reflexivity.
Qed.

Lemma SeparableConv2d_kernel_sizes_witness :
  exists m,
    SeparableConv2d_init_kernel 4 8 (5, 5) false = Ok m
    /\ SeparableConv2d_rect_forward m [2; 4; 16; 16] = Ok [2; 8; 14; 14].
Proof.
  eexists. split; [reflexivity|].
  apply (@SeparableConv2d_kernel_sizes 4 8 5 5 false _ 2 16 16);
    [reflexivity|lia|lia|lia|lia].
Defined.

(* ----------------------------------------------------------------- *)
(** ** The attention block, the recurrent block and the model on sizes *)

(** X5. The attention block can be built for every positive multiple of 16
    as its output channel count, whatever the positive input channel count
    is: it then has 16 heads of width [output_channels / 16]. *)
Theorem VisionTransformer_init_heads (input_channels k : nat) :
  1 <= input_channels -> 1 <= k ->
  VisionTransformer_init input_channels (16 * k)
  = Ok (mkVisionTransformer (mkConv2d input_channels (16 * k) 1 1 0 1 true)
          (mkMultiheadAttention (16 * k) 16 k)
          (mkLinear (16 * k) (16 * k), mkLinear (16 * k) (16 * k))).
Proof.
  intros _ Hk. unfold VisionTransformer_init, Conv2d_init, MultiheadAttention_init.
  rewrite !Nat.mod_1_r. cbn [Nat.eqb negb bind orb]. rewrite orb_false_r.
  replace (16 * k =? 0) with false by (symmetry; apply Nat.eqb_neq; lia).
  rewrite (Nat.mul_comm 16 k), Nat.div_mul by lia.
  rewrite Nat.eqb_refl. reflexivity.
Qed.

Lemma VisionTransformer_init_heads_witness :
  VisionTransformer_init 32 64
  = Ok (mkVisionTransformer (mkConv2d 32 64 1 1 0 1 true)
          (mkMultiheadAttention 64 16 4)
          (mkLinear 64 64, mkLinear 64 64)).
Proof.
  apply (@VisionTransformer_init_heads 32 4); lia.
Defined.





(** X7. The recurrent block checks only the number of features per sample.
    On a non-empty batch and with at least one time step, every
    [(N,C,H,W)] input with [C H W = input_dim im_size^2] is accepted,
    whatever its channel count and its grid, and the result has size
    [(N,timesteps,hidden_dim,im_size,im_size)]; every other input raises
    the size error of the LSTM. *)
Theorem RecurrentBlock_forward_sizes (cin hid T im : nat)
  (m : RecurrentBlock) (n c h w : nat) :
  RecurrentBlock_init cin hid T im = Ok m ->
  1 <= n -> 1 <= T ->
  Sizes.RecurrentBlock_forward m [n; c; h; w]
  = if c * h * w =? cin * im * im
    then Ok [n; T; hid; im; im]
    else Raise (RuntimeError "input.size(-1) must be equal to input_size").
Proof.
  unfold RecurrentBlock_init, LSTM_init. intros Hm _ _.
  destruct (hid * im * im =? 0); [discriminate|].
  cbn [bind] in Hm. injection Hm as <-.
  unfold Sizes.RecurrentBlock_forward, Sizes.unpack4.
  cbn [timesteps im_size input_dim hidden_dim lstm]. sizes_cbn.
  unfold Sizes.reshape.
  rewrite infer_size_known; sizes_cbn; [|reflexivity|ring].
  unfold Sizes.view at 1.
  rewrite infer_size_known; sizes_cbn; [|reflexivity|ring].
  unfold Sizes.repeat.
  cbn [List.length Nat.ltb Nat.leb Nat.sub List.repeat app combine map fst snd bind].
  unfold Sizes.LSTM_forward. cbn [input_size hidden_size].
  rewrite !Nat.mul_1_r, Nat.mul_1_l.
  destruct (c * h * w =? cin * im * im); [|reflexivity].
  sizes_cbn. unfold Sizes.view.
  rewrite infer_size_known; sizes_cbn; [reflexivity|reflexivity|ring].
Qed.

Lemma RecurrentBlock_forward_sizes_witness :
  exists m,
    RecurrentBlock_init 64 32 60 8 = Ok m
    /\ Sizes.RecurrentBlock_forward m [2; 16; 4; 64] = Ok [2; 60; 32; 8; 8].
Proof.
  eexists. split; [reflexivity|].
  apply (@RecurrentBlock_forward_sizes 64 32 60 8 _ 2 16 4 64); [reflexivity|lia|lia].
Defined.

Lemma with_chw_rank (f : nat -> nat -> nat -> result (nat * nat * nat)) (x y : Size) :
  Sizes.with_chw f x = Ok y -> List.length y = List.length x.
Proof.
  unfold Sizes.with_chw.
  destruct x as [|a [|b [|c [|d [|e x]]]]]; try discriminate.
  - destruct (f a b c) as [[[c' h'] w']|]; cbn [bind]; [|discriminate].
    intros Hy. injection Hy as <-. reflexivity.
  - destruct (f b c d) as [[[c' h'] w']|]; cbn [bind]; [|discriminate].
    intros Hy. injection Hy as <-. reflexivity.
Qed.

Lemma conv_block_forward_rank (m : conv_block) (x y : Size) :
  Sizes.conv_block_forward m x = Ok y -> List.length y = List.length x.
Proof.
  unfold Sizes.conv_block_forward, Sizes.SeparableConv2d_forward. intros Hy.
  apply bind_Ok_inv in Hy as (x1 & H1 & Hy).
  apply bind_Ok_inv in H1 as (x0 & H0 & H1).
  apply bind_Ok_inv in Hy as (x2 & H2 & Hy).
  apply bind_Ok_inv in H2 as (x2' & H2' & H2).
  apply bind_Ok_inv in Hy as (x3 & H3 & Hy).
  apply bind_Ok_inv in Hy as (x4 & H4 & Hy).
  unfold Sizes.GELU_forward in H4. injection H4 as <-.
  apply with_chw_rank in H0, H1, H2', H2, H3, Hy. congruence.
Qed.

Lemma encoder_forward_rank (ms : list conv_block) (x y : Size) :
  Sequential (map Sizes.conv_block_forward ms) x = Ok y -> List.length y = List.length x.
Proof.
  revert x. induction ms as [|m ms IH]; intros x; cbn [map Sequential].
  - intros Hy. injection Hy as <-. reflexivity.
  - intros Hy. apply bind_Ok_inv in Hy as (x1 & H1 & Hy).
    apply conv_block_forward_rank in H1. apply IH in Hy. congruence.
Qed.

Lemma VisionTransformer_forward_rank (m : VisionTransformer) (x y : Size) :
  Sizes.VisionTransformer_forward m x = Ok y -> List.length x = 4.
Proof.
  unfold Sizes.VisionTransformer_forward. cbn [Sequential]. intros Hy.
  apply bind_Ok_inv in Hy as (px & Hpx & Hy).
  apply bind_Ok_inv in Hpx as (x1 & H1 & Hpx).
  apply bind_Ok_inv in Hpx as (x2 & H2 & Hpx).
  unfold Sizes.GELU_forward in H2. injection H2 as <-. injection Hpx as <-.
  apply with_chw_rank in H1.
  apply bind_Ok_inv in Hy as (p & Hp & _).
  unfold Sizes.unpack4 in Hp.
  destruct x1 as [|a [|b [|c [|d [|e x1]]]]]; try discriminate.
  rewrite <- H1. reflexivity.
Qed.

(** X8. The model returns on no input but a non-empty batch of 4-channel
    images whose grid, halved three times, has 64 positions: whenever
    [model(x)] returns, [x] has size [(N,4,H,W)] with [N >= 1] and
    [H/8 * W/8 = 64], and the result has size [(N,60,2,64,64)].  Inputs
    with another number of axes or of channels raise. *)
Theorem ProxyModel_forward_returns_inv (x y : Size) :
  Sizes.model x = Ok y ->
  exists N H W,
    x = [N; 4; H; W] /\ 1 <= N /\ H / 8 * (W / 8) = 64 /\ y = [N; 60; 2; 64; 64].
Proof.
  intros Hy.
  assert (Hrank : List.length x = 4).
  { unfold Sizes.model in Hy. apply bind_Ok_inv in Hy as (m & _ & Hy).
    unfold Sizes.ProxyModel_forward in Hy.
    apply bind_Ok_inv in Hy as (encoded & Henc & Hy).
    apply bind_Ok_inv in Hy as (v & Hv & _).
    apply encoder_forward_rank in Henc. apply VisionTransformer_forward_rank in Hv.
    congruence. }
  destruct x as [|N [|C [|H [|W [|e x]]]]]; try discriminate Hrank.
  exists N, H, W.
  assert (Hcases : C = 4 /\ 8 <= H /\ 8 <= W /\ 1 <= N).
  { unfold Sizes.model, ProxyModel_init in Hy.
    destruct (conv_block_init 4 8) as [e1|] eqn:E1; [|discriminate E1].
    destruct (conv_block_init 8 16) as [e2|] eqn:E2; [|discriminate E2].
    destruct (conv_block_init 16 32) as [e3|] eqn:E3; [|discriminate E3].
    destruct (VisionTransformer_init 32 64) as [v|] eqn:Ev; [|discriminate Ev].
    destruct (RecurrentBlock_init 64 32 60 (2 ^ 3)) as [r|] eqn:Er; [|discriminate Er].
    cbn [bind] in Hy. unfold Sizes.ProxyModel_forward in Hy.
    cbn [encoder vit recurrent decoder] in Hy.
    destruct (Nat.eq_dec C 4) as [->|HC].
    2:{ exfalso. cbn [map Sequential] in Hy.
        destruct (conv_block_forward_channels N H W E1 HC) as [e He].
        rewrite He in Hy. discriminate Hy. }
    destruct (Nat.lt_ge_cases H 8) as [HH|HH].
    { exfalso. destruct (@encoder_forward_small e1 e2 e3 N H W E1 E2 E3) as [e He];
        [auto|]. rewrite He in Hy. discriminate Hy. }
    destruct (Nat.lt_ge_cases W 8) as [HW|HW].
    { exfalso. destruct (@encoder_forward_small e1 e2 e3 N H W E1 E2 E3) as [e He];
        [auto|]. rewrite He in Hy. discriminate Hy. }
    rewrite (encoder_forward_ok N E1 E2 E3) in Hy by assumption. cbn [bind] in Hy.
    destruct N as [|N'].
    { exfalso. destruct (@VisionTransformer_forward_empty_batch 32 64 v (H / 8) (W / 8) Ev)
        as [e He]. rewrite He in Hy. discriminate Hy. }
    repeat split; [assumption|assumption|lia]. }
  destruct Hcases as (-> & HH & HW & HN).
  rewrite (model_large_grid HN HH HW) in Hy.
  destruct (H / 8 * (W / 8) =? 64) eqn:E; [|discriminate Hy].
  apply Nat.eqb_eq in E. injection Hy as <-. auto.
Qed.

Lemma ProxyModel_forward_returns_inv_witness :
  exists N H W,
    [1; 4; 32; 128] = [N; 4; H; W] /\ 1 <= N /\ H / 8 * (W / 8) = 64
    /\ [1; 60; 2; 64; 64] = [N; 60; 2; 64; 64].
Proof.
  apply (@ProxyModel_forward_returns_inv [1; 4; 32; 128] [1; 60; 2; 64; 64]).
  vm_compute. reflexivity.
Defined.

(** X9. The encoder and the attention block accept every grid of at least
    8 x 8 positions; the restriction of the model to grids with
    [H/8 * W/8 = 64] comes from the recurrent block alone.  On a non-empty
    batch of 4-channel images with [H, W >= 8] and [H/8 * W/8 <> 64] the
    model raises the size error of the LSTM. *)
Theorem ProxyModel_forward_grid_mismatch (N H W : nat) :
  1 <= N -> 8 <= H -> 8 <= W -> H / 8 * (W / 8) <> 64 ->
  Sizes.model [N; 4; H; W]
  = Raise (RuntimeError "input.size(-1) must be equal to input_size").
Proof.
  intros HN HH HW Hne. rewrite (model_large_grid HN HH HW).
  replace (H / 8 * (W / 8) =? 64) with false by (symmetry; apply Nat.eqb_neq; assumption).
  reflexivity.
Qed.

Lemma ProxyModel_forward_grid_mismatch_witness :
  Sizes.model [2; 4; 128; 128]
  = Raise (RuntimeError "input.size(-1) must be equal to input_size").
Proof.
  apply (@ProxyModel_forward_grid_mismatch 2 128 128); [lia|lia|lia|].
  vm_compute. lia.
Defined.

Section ModelParts.

Import Sizes.

(** X10. The encoder of the model divides the grid by 8, rounding down: on
    a non-empty batch of 4-channel images it returns size
    [(N,32,H/8,W/8)] when the grid has at least 8 rows and 8 columns, and
    raises on every smaller grid. *)
Theorem ProxyModel_encoder_sizes (m : ProxyModel) (n h w : nat) :
  ProxyModel_init = Ok m ->
  1 <= n ->
  if (8 <=? h) && (8 <=? w)
  then Sequential (map conv_block_forward (encoder m)) [n; 4; h; w]
       = Ok [n; 32; h / 8; w / 8]
  else raises (Sequential (map conv_block_forward (encoder m)) [n; 4; h; w]).
Proof.
  unfold ProxyModel_init. intros Hm _.
  destruct (conv_block_init 4 8) as [e1|] eqn:E1; [|discriminate Hm].
  destruct (conv_block_init 8 16) as [e2|] eqn:E2; [|discriminate Hm].
  destruct (conv_block_init 16 32) as [e3|] eqn:E3; [|discriminate Hm].
  destruct (VisionTransformer_init 32 64) as [v|]; [|discriminate Hm].
  destruct (RecurrentBlock_init 64 32 60 (2 ^ 3)) as [r|]; [|discriminate Hm].
  cbn [bind] in Hm. injection Hm as <-. cbn [encoder].
  destruct (8 <=? h) eqn:Eh; cbn [andb].
  - destruct (8 <=? w) eqn:Ew.
    + apply Nat.leb_le in Eh, Ew. apply encoder_forward_ok; assumption.
    + apply Nat.leb_gt in Ew. apply encoder_forward_small; auto.
  - apply Nat.leb_gt in Eh. apply encoder_forward_small; auto.
Qed.

(** X11. The decoder of the model multiplies the grid by 8 and keeps the
    batch and time axes: on a non-empty [(N,T,32,H,W)] input it returns
    size [(N,T,2,8H,8W)], for every number of time steps. *)
Theorem ProxyModel_decoder_sizes (m : ProxyModel) (n t h w : nat) :
  ProxyModel_init = Ok m ->
  1 <= n -> 1 <= t -> 1 <= h -> 1 <= w ->
  Sequential
    (map (fun d => TimeDistributedModule_forward (decon_block_forward d)) (decoder m))
    [n; t; 32; h; w]
  = Ok [n; t; 2; 8 * h; 8 * w].
Proof.
  unfold ProxyModel_init. intros Hm Hn Ht Hh Hw.
  destruct (conv_block_init 4 8) as [e1|]; [|discriminate Hm].
  destruct (conv_block_init 8 16) as [e2|]; [|discriminate Hm].
  destruct (conv_block_init 16 32) as [e3|]; [|discriminate Hm].
  destruct (VisionTransformer_init 32 64) as [v|]; [|discriminate Hm].
  destruct (RecurrentBlock_init 64 32 60 (2 ^ 3)) as [r|]; [|discriminate Hm].
  cbn [bind] in Hm. injection Hm as <-. cbn [decoder map Sequential].
  rewrite TimeDistributed_decon_block_ok by lia. cbn [bind].
  rewrite TimeDistributed_decon_block_ok by lia. cbn [bind].
  rewrite TimeDistributed_decon_block_ok by lia. cbn [bind].
  replace (2 * (2 * (2 * h))) with (8 * h) by lia.
  replace (2 * (2 * (2 * w))) with (8 * w) by lia.
  reflexivity.
Qed.

End ModelParts.

Lemma ProxyModel_encoder_sizes_witness :
  exists m,
    ProxyModel_init = Ok m
    /\ Sequential (map Sizes.conv_block_forward (encoder m)) [2; 4; 100; 37]
       = Ok [2; 32; 12; 4].
Proof.
  eexists. split; [reflexivity|].
  apply (@ProxyModel_encoder_sizes _ 2 100 37); [reflexivity|lia].
Defined.

Lemma ProxyModel_decoder_sizes_witness :
  exists m,
    ProxyModel_init = Ok m
    /\ Sequential
         (map (fun d => Sizes.TimeDistributedModule_forward (Sizes.decon_block_forward d))
            (decoder m))
         [2; 5; 32; 3; 4]
       = Ok [2; 5; 2; 24; 32].
Proof.
  eexists. split; [reflexivity|].
  apply (@ProxyModel_decoder_sizes _ 2 5 3 4); [reflexivity|lia|lia|lia|lia].
Defined.

(* ----------------------------------------------------------------- *)
(** ** The time-distributed wrapper around any module *)

(** X12. The time-distributed wrapper hands its module all frames of a
    non-empty [(B,T,C,H,W)] tensor as one batch of [B T] images, in the
    order they are stored, and regroups the result of the module without
    touching its values.  It does not check that the module kept the batch
    axis: a result of [m] images with [c'] channels on a non-empty grid
    comes back with [q] channels whenever [m c' = q (B T)], with [q = c']
    for a module that returns one image per frame. *)
Theorem TimeDistributedModule_forward_module (A : Type)
  (module : Tensor A -> result (Tensor A)) (x out : Tensor A)
  (b t c h w m c' h' w' q : nat) :
  size x = [b; t; c; h; w] ->
  0 < b * t * c * h * w ->
  module (mkTensor [b * t; c; h; w] (data x)) = Ok out ->
  size out = [m; c'; h'; w'] ->
  0 < h' * w' ->
  m * c' = q * (b * t) ->
  TimeDistributedModule_forward module x = Ok (mkTensor [b; t; q; h'; w'] (data out)).
Proof.
  destruct x as [s d]. cbn [size data]. intros -> Hpos Hmod Hout Hgrid Hq.
  assert (0 < b /\ 0 < t /\ 0 < c /\ 0 < h /\ 0 < w) as (Hb & Ht & Hc & Hh & Hw) by nia.
  unfold TimeDistributedModule_forward, Sizes.unpack5, reshape.
  cbn [size data bind].
  rewrite (@infer_size_infer _ _ (b * t)); sizes_cbn; [|reflexivity|nia|ring].
  rewrite Hmod. cbn [bind]. rewrite Hout.
  unfold Sizes.size_at. sizes_cbn.
  rewrite (@infer_size_infer _ _ q); sizes_cbn; [reflexivity|reflexivity|nia|].
  rewrite !Nat.mul_1_r.
  replace (m * (c' * (h' * w'))) with (m * c' * (h' * w')) by ring.
  rewrite Hq. ring.
Qed.

Lemma TimeDistributedModule_forward_module_witness :
  TimeDistributedModule_forward (@cat_twice nat) (mkTensor [2; 3; 1; 1; 2] (seq 0 12))
  = Ok (mkTensor [2; 3; 2; 1; 2] (seq 0 12 ++ seq 0 12)).
Proof.
  apply (@TimeDistributedModule_forward_module nat (@cat_twice nat)
           (mkTensor [2; 3; 1; 1; 2] (seq 0 12))
           (mkTensor [12; 1; 1; 2] (seq 0 12 ++ seq 0 12)) 2 3 1 1 2 12 1 1 2 2).
  - reflexivity.
  - cbn. lia.
  - reflexivity.
  - reflexivity.
  - cbn. lia.
  - reflexivity.
Defined.

(* ----------------------------------------------------------------- *)
(** ** The attention block on values *)

Lemma unravel3 (B C L k : nat) :
  k < numel [B; C; L] ->
  exists b c l, unravel [B; C; L] k = [b; c; l] /\ b < B /\ c < C /\ l < L.
Proof.
  intros Hk. assert (HF := unravel_in_range Hk). cbn [unravel] in HF |- *.
  inversion_clear HF as [|? ? ? ? Hb H1].
  inversion_clear H1 as [|? ? ? ? Hc H2].
  inversion_clear H2 as [|? ? ? ? Hl _].
  do 3 eexists. split; [reflexivity|]. auto.
Qed.

Lemma in_range3 (b c l B C L : nat) :
  b < B -> c < C -> l < L -> Forall2 (fun i d => i < d) [b; c; l] [B; C; L].
Proof. intros. repeat constructor; assumption. Qed.

(** The sequence layout and back: [permute(2, 0, 1)] followed by
    [permute(1, 2, 0)] restores a 3D tensor. *)
Lemma permute_201_120 (A : Type) (v s a : Tensor A) (B C L : nat) :
  wf v -> size v = [B; C; L] ->
  permute v [2; 0; 1] = Ok s -> permute s [1; 2; 0] = Ok a ->
  a = v.
Proof.
  intros Hwf Hv Hs Ha.
  assert (Hss : size s = [L; B; C]).
  { unfold permute in Hs. rewrite Hv in Hs. cbn in Hs. injection Hs as <-. reflexivity. }
  assert (Hsa : size a = [B; C; L]).
  { unfold permute in Ha. rewrite Hss in Ha. cbn in Ha. injection Ha as <-. reflexivity. }
  destruct (@permute_data _ v s [2; 0; 1] Hwf Hs) as [Hwfs Hnths].
  { intros k Hk. rewrite Hss in *. rewrite Hv.
    destruct (unravel3 Hk) as (l & b & c & -> & Hl & Hb & Hc).
    cbn. apply in_range3; assumption. }
  destruct (@permute_data _ s a [1; 2; 0] Hwfs Ha) as [Hwfa Hntha].
  { intros k Hk. rewrite Hsa in *. rewrite Hss.
    destruct (unravel3 Hk) as (b & c & l & -> & Hb & Hc & Hl).
    cbn. apply in_range3; assumption. }
  destruct a as [sa da], v as [sv dv]. cbn [size data] in *. subst sa sv. f_equal.
  apply nth_error_ext. intros k.
  unfold wf in Hwf, Hwfa. cbn [size data] in Hwf, Hwfa.
  destruct (Nat.lt_ge_cases k (numel [B; C; L])) as [Hk|Hk].
  - rewrite (Hntha k Hk).
    destruct (unravel3 Hk) as (b & c & l & Hun & Hb & Hc & Hl).
    rewrite Hss, Hun.
    assert (HF : Forall2 (fun i d => i < d) [l; b; c] [L; B; C])
      by (apply in_range3; assumption).
    change (source_index [1; 2; 0] [b; c; l]) with [l; b; c].
    rewrite Hnths by (rewrite Hss; apply ravel_lt; exact HF).
    rewrite Hss, (unravel_ravel HF).
    change (source_index [2; 0; 1] [l; b; c]) with [b; c; l].
    rewrite <- Hun, ravel_unravel by assumption. reflexivity.
  - transitivity (@None A); [|symmetry]; apply nth_error_None; lia.
Qed.

Section AttentionLayout.

Context {A : Type} {num : Num A}.
Variable gelu : A -> A.

(** X13. The rearrangement of the projected feature map into the sequence
    layout of the attention layer and back is lossless: with an attention
    layer that returns its input, the feature map handed to the
    feed-forward stage is the projected map itself, for every well-formed
    non-empty projected map. *)
Theorem VisionTransformer_forward_sequence_layout
  (projector : Tensor A -> result (Tensor A)) (m : @FFN A)
  (x projected_x : Tensor A) (B C H W : nat) :
  Sequential [projector; elementwise gelu] x = Ok projected_x ->
  wf projected_x ->
  size projected_x = [B; C; H; W] ->
  0 < B * C * H * W ->
  VisionTransformer_forward gelu projector (@Identity A) m x
  = VisionTransformer_feed_forward gelu m B C H W projected_x.
Proof.
  intros Hseq Hwf Hsize Hpos.
  assert (0 < B /\ 0 < C /\ 0 < H /\ 0 < W) as (HB & HC & HH & HW) by nia.
  unfold VisionTransformer_forward. rewrite Hseq. cbn [bind].
  rewrite Hsize. cbn [Sizes.unpack4 bind].
  unfold view at 1. unfold reshape. rewrite Hsize.
  rewrite (@infer_size_infer _ _ (H * W)); sizes_cbn; [|reflexivity|nia|ring].
  set (v := mkTensor [B; C; H * W] (data projected_x)).
  assert (Hwfv : wf v).
  { unfold wf in *. cbn [v size data]. rewrite Hwf, Hsize.
    cbn [numel fold_right]. ring. }
  assert (Hs : exists s, permute v [2; 0; 1] = Ok s) by (unfold permute; cbn; eauto).
  destruct Hs as [s Hs]. rewrite Hs. cbn [bind]. unfold Identity at 1. cbn [bind].
  assert (Ha : exists a, permute s [1; 2; 0] = Ok a).
  { unfold permute in Hs |- *. cbn in Hs. injection Hs as <-. cbn. eauto. }
  destruct Ha as [a Ha]. rewrite Ha. cbn [bind].
  rewrite (@permute_201_120 _ v s a B C (H * W) Hwfv eq_refl Hs Ha).
  unfold view at 1. unfold reshape. cbn [v size data].
  rewrite infer_size_known; sizes_cbn; [|reflexivity|ring].
  destruct projected_x as [sp dp]. cbn [size data] in *. subst sp. reflexivity.
Qed.

End AttentionLayout.

Lemma VisionTransformer_forward_sequence_layout_witness :
  VisionTransformer_forward (fun z => z) (@Identity Z) (@Identity Z) (identity_ffn 16)
    attended_b
  = VisionTransformer_feed_forward (fun z => z) (identity_ffn 16) 1 16 1 2 attended_b.
Proof.
  apply (@VisionTransformer_forward_sequence_layout Z Num_Z (fun z => z) (@Identity Z)
           (identity_ffn 16) attended_b attended_b 1 16 1 2).
  - reflexivity.
  - reflexivity.
  - reflexivity.
  - cbn. lia.
Defined.

Lemma map_Some_inj (A : Type) (l l' : list A) : map Some l = map Some l' -> l = l'.
Proof.
  revert l'. induction l as [|a l IH]; intros [|a' l'] Heq; cbn [map] in Heq;
    try discriminate; [reflexivity|].
  injection Heq as -> Heq. rewrite (IH _ Heq). reflexivity.
Qed.

Section FeedForwardRows.

Context {A : Type} {num : Num A}.
Variable gelu : A -> A.

(** X14. The feed-forward stage never mixes rows of the grid or samples of
    the batch: when two well-formed feature maps of one size agree on row
    [i] of sample [b], in all channels and columns, the results of the
    stage agree on that row of that sample.  (Within a row it does mix
    columns.) *)
Theorem feed_forward_row_local (m : @FFN A) (B C H W : nat) (x x' : Tensor A)
  (b i : nat) :
  wf x -> wf x' -> size x = [B; C; H; W] -> size x' = [B; C; H; W] ->
  linear_width (ffn_fc1 m) C -> linear_width (ffn_fc2 m) C -> 0 < C ->
  b < B -> i < H ->
  (forall c j, c < C -> j < W -> get x [b; c; i; j] = get x' [b; c; i; j]) ->
  exists y y',
    VisionTransformer_feed_forward gelu m B C H W x = Ok y
    /\ VisionTransformer_feed_forward gelu m B C H W x' = Ok y'
    /\ forall d j, d < C -> j < W -> get y [b; d; i; j] = get y' [b; d; i; j].
Proof.
  intros Hwf Hwf' Hs Hs' H1 H2 HC Hb Hi Hrow.
  destruct (feed_forward_layout gelu Hwf Hs H1 H2 HC) as (y & Hy & _ & Hget).
  destruct (feed_forward_layout gelu Hwf' Hs' H1 H2 HC) as (y' & Hy' & _ & Hget').
  exists y, y'. split; [exact Hy|]. split; [exact Hy'|].
  intros d j Hd Hj.
  destruct (Hget b d i j Hb Hd Hi Hj) as (row & Hrun & ->).
  destruct (Hget' b d i j Hb Hd Hi Hj) as (row' & Hrun' & ->).
  assert (Hruns : layout_run x C W b i j = layout_run x' C W b i j).
  { unfold layout_run. apply map_ext_in. intros e He. apply in_seq in He.
    apply Hrow.
    - apply Nat.Div0.div_lt_upper_bound. nia.
    - apply Nat.mod_upper_bound. lia. }
  rewrite Hruns, <- Hrun' in Hrun. apply map_Some_inj in Hrun. rewrite Hrun. reflexivity.
Qed.

(** X15. On feature maps with a single column the feed-forward stage acts
    per position, as a feed-forward over channels does: the result at row
    [i] of sample [b] is the feed-forward of the channel vector at that
    position. *)
Theorem feed_forward_single_column (m : @FFN A) (B C H : nat) (x : Tensor A) :
  wf x -> size x = [B; C; H; 1] ->
  linear_width (ffn_fc1 m) C -> linear_width (ffn_fc2 m) C -> 0 < C ->
  exists y,
    VisionTransformer_feed_forward gelu m B C H 1 x = Ok y
    /\ size y = [B; C; H; 1]
    /\ forall b d i, b < B -> d < C -> i < H ->
         exists channels,
           map Some channels = map (fun c => get x [b; c; i; 0]) (seq 0 C)
           /\ get y [b; d; i; 0] = nth_error (ffn_row gelu m channels) d.
Proof.
  intros Hwf Hs H1 H2 HC.
  destruct (feed_forward_layout gelu Hwf Hs H1 H2 HC) as (y & Hy & Hsy & Hget).
  exists y. split; [exact Hy|]. split; [exact Hsy|].
  intros b d i Hb Hd Hi.
  destruct (Hget b d i 0 Hb Hd Hi Nat.lt_0_1) as (row & Hrun & Hval).
  exists row. split; [|exact Hval].
  rewrite Hrun. unfold layout_run. apply map_ext. intros e.
  cbn [Nat.mul Nat.add]. rewrite Nat.div_1_r, Nat.mod_1_r. reflexivity.
Qed.

End FeedForwardRows.

Lemma feed_forward_row_local_witness :
  exists y y',
    VisionTransformer_feed_forward (fun z => z) (identity_ffn 16) 1 16 2 1 column_a = Ok y
    /\ VisionTransformer_feed_forward (fun z => z) (identity_ffn 16) 1 16 2 1 column_b
       = Ok y'
    /\ forall d j, d < 16 -> j < 1 -> get y [0; d; 0; j] = get y' [0; d; 0; j].
Proof.
  apply (@feed_forward_row_local Z Num_Z (fun z => z) (identity_ffn 16) 1 16 2 1
           column_a column_b 0 0).
  - reflexivity.
  - reflexivity.
  - reflexivity.
  - reflexivity.
  - split; [reflexivity|split; reflexivity].
  - split; [reflexivity|split; reflexivity].
  - lia.
  - lia.
  - lia.
  - intros c j Hc Hj. destruct j as [|j]; [|lia].
    do 16 (destruct c as [|c]; [reflexivity|]). lia.
Defined.

Lemma feed_forward_single_column_witness :
  exists y,
    VisionTransformer_feed_forward (fun z => z) (identity_ffn 16) 1 16 2 1 column_b = Ok y
    /\ size y = [1; 16; 2; 1]
    /\ forall b d i, b < 1 -> d < 16 -> i < 2 ->
         exists channels,
           map Some channels = map (fun c => get column_b [b; c; i; 0]) (seq 0 16)
           /\ get y [b; d; i; 0] = nth_error (ffn_row (fun z => z) (identity_ffn 16) channels) d.
Proof.
  apply (@feed_forward_single_column Z Num_Z (fun z => z) (identity_ffn 16) 1 16 2 column_b).
  - reflexivity.
  - reflexivity.
  - split; [reflexivity|split; reflexivity].
  - split; [reflexivity|split; reflexivity].
  - lia.
Defined.

(* ----------------------------------------------------------------- *)
(** ** The recurrent block on values *)

Lemma split_rows_rows_length (A : Type) (count len : nat) (l : list A) :
  List.length l = count * len ->
  forall r, In r (split_rows count len l) -> List.length r = len.
Proof.
  revert l. induction count as [|count IH]; intros l Hl r Hr; cbn [split_rows] in Hr.
  - destruct Hr.
  - destruct Hr as [<-|Hr].
    + rewrite length_firstn. lia.
    + apply (IH (skipn len l)); [|exact Hr]. rewrite length_skipn. lia.
Qed.

Lemma split_rows_concat_repeat (A : Type) (row : list A) (T : nat) :
  split_rows T (List.length row) (List.concat (List.repeat row T)) = List.repeat row T.
Proof.
  induction T as [|T IH]; [reflexivity|].
  cbn [List.repeat List.concat split_rows].
  rewrite firstn_app, firstn_all, Nat.sub_diag. cbn [firstn]. rewrite app_nil_r.
  rewrite skipn_app, skipn_all, Nat.sub_diag. cbn [skipn app].
  rewrite IH. reflexivity.
Qed.

Lemma zip_with_repeat_r (A B C : Type) (f : A -> B -> C) (l : list A) (z : B) :
  zip_with f l (List.repeat z (List.length l)) = map (fun a => f a z) l.
Proof.
  induction l as [|a l IH]; [reflexivity|].
  cbn [List.length List.repeat zip_with map]. rewrite IH. reflexivity.
Qed.

Section RecurrentIteration.

Context {A : Type} {num : Num A}.
Variables sigmoid tanh : A -> A.

(** An LSTM fed the same vector at every step iterates its cell. *)
Lemma lstm_seq_repeat (p : LSTMParams) (hs : nat) (frame : list A) (T : nat)
  (hc : list A * list A) :
  lstm_seq sigmoid tanh p hs (List.repeat frame T) hc
  = (map (fun t => fst (Nat.iter (S t) (lstm_cell sigmoid tanh p hs frame) hc)) (seq 0 T),
     Nat.iter T (lstm_cell sigmoid tanh p hs frame) hc).
Proof.
  revert hc. induction T as [|T IH]; intros hc; [reflexivity|].
  cbn [List.repeat lstm_seq]. rewrite IH.
  cbn [seq map]. rewrite <- seq_shift, map_map.
  f_equal.
  - f_equal. apply map_ext. intros t. rewrite <- !Nat.iter_succ_r. reflexivity.
  - rewrite <- Nat.iter_succ_r. reflexivity.
Qed.

(** X16. The recurrent block iterates the LSTM cell on each frame.  For a
    block as its constructor builds it and a well-formed, non-empty batch
    of inputs with the number of features the block expects, the call
    returns, leaves the block as it was, and the output of sample [b] at
    time step [t] is the hidden state after [t + 1] applications of the
    cell to the flattened input frame of sample [b], starting from the zero
    state.  Samples do not influence each other. *)
Theorem RecurrentBlock_forward_iterates (self : RecurrentBlockObj) (x : Tensor A)
  (cin hid T im n c h w : nat) :
  RecurrentBlock_init cin hid T im = Ok (rb_cfg self) ->
  wf x -> size x = [n; c; h; w] ->
  c * h * w = cin * im * im ->
  1 <= n -> 1 <= T ->
  RecurrentBlock_forward sigmoid tanh self x
  = Ok (mkTensor [n; T; hid; im; im]
          (flat_map
             (fun frame =>
                flat_map
                  (fun t =>
                     fst (Nat.iter (S t)
                            (lstm_cell sigmoid tanh (rb_params self) (hid * im * im) frame)
                            (zero_state (hid * im * im))))
                  (seq 0 T))
             (split_rows n (c * h * w) (data x))),
        self).
Proof.
  unfold RecurrentBlock_init, LSTM_init. intros Hcfg Hwf Hs Hf _ _.
  destruct (hid * im * im =? 0); [discriminate|].
  cbn [bind] in Hcfg. injection Hcfg as Hcfg.
  unfold RecurrentBlock_forward. rewrite <- Hcfg.
  cbn [timesteps im_size input_dim hidden_dim lstm].
  rewrite Hs. cbn [Sizes.unpack4 bind].
  unfold view, reshape. rewrite Hs.
  rewrite infer_size_known; sizes_cbn; [|reflexivity|ring].
  cbn [size data].
  rewrite infer_size_known; sizes_cbn; [|reflexivity|ring].
  unfold repeat_time. cbn [size data].
  unfold Sizes.repeat.
  cbn [List.length Nat.ltb Nat.leb Nat.sub List.repeat app combine map fst snd bind].
  unfold LSTM_call. cbn [size data]. unfold Sizes.LSTM_forward.
  cbn [input_size hidden_size].
  rewrite !Nat.mul_1_r, Nat.mul_1_l.
  rewrite Hf, Nat.eqb_refl. cbn [bind size data].
  rewrite infer_size_known; sizes_cbn; [|reflexivity|ring].
  do 2 f_equal. f_equal.
  set (F := cin * im * im). set (hs := hid * im * im).
  set (rows := split_rows n F (data x)).
  assert (Hrows : List.length rows = n) by apply split_rows_length.
  assert (Hlen : forall r, In r rows -> List.length r = F).
  { apply split_rows_rows_length. unfold wf in Hwf. rewrite Hwf, Hs.
    cbn [numel fold_right]. subst F. rewrite <- Hf. ring. }
  rewrite <- Hrows at 1.
  rewrite split_rows_flat_map.
  2:{ intros r Hr. rewrite length_concat, map_repeat.
      rewrite (Hlen r Hr). clear. induction T as [|T IH]; [reflexivity|].
      cbn [List.repeat].
      change (list_sum (F :: List.repeat F T)) with (F + list_sum (List.repeat F T)).
      rewrite IH. reflexivity. }
  rewrite <- Hrows at 1.
  rewrite <- (length_map (fun row => List.concat (List.repeat row T)) rows).
  rewrite zip_with_repeat_r, map_map, flat_map_map.
  rewrite !flat_map_concat_map. f_equal. apply map_ext_in. intros row Hrow.
  rewrite <- (Hlen row Hrow), split_rows_concat_repeat, lstm_seq_repeat.
  cbn [fst]. rewrite flat_map_concat_map. reflexivity.
Qed.

End RecurrentIteration.

Lemma RecurrentBlock_forward_iterates_witness :
  RecurrentBlock_forward (fun z => z) (fun z => z) zero_block frame_one
  = Ok (mkTensor [1; 2; 1; 1; 1]
          (flat_map
             (fun frame =>
                flat_map
                  (fun t =>
                     fst (Nat.iter (S t)
                            (lstm_cell (fun z => z) (fun z => z) (rb_params zero_block)
                               (1 * 1 * 1) frame)
                            (zero_state (1 * 1 * 1))))
                  (seq 0 2))
             (split_rows 1 (1 * 1 * 1) (data frame_one))),
        zero_block).
Proof.
  apply (@RecurrentBlock_forward_iterates Z Num_Z (fun z => z) (fun z => z)
           zero_block frame_one 1 1 2 1 1 1 1 1).
  - reflexivity.
  - reflexivity.
  - reflexivity.
  - reflexivity.
  - lia.
  - lia.
Defined.

Lemma RecurrentBlock_forward_zero_input_weights_witness :
  RecurrentBlock_forward (fun z => z) (fun z => z) zero_block frame_one
  = RecurrentBlock_forward (fun z => z) (fun z => z) zero_block frame_two.
Proof.
  apply (@RecurrentBlock_forward_zero_input_weights Z Num_Z (fun z => z) (fun z => z)).
  - intros a. reflexivity.
  - reflexivity.
  - cbn. repeat constructor.
  - reflexivity.
Defined.

(* ----------------------------------------------------------------- *)
(** ** The composite loss on values *)

Lemma zip_with_diag (A B : Type) (f : A -> A -> B) (l : list A) :
  zip_with f l l = map (fun a => f a a) l.
Proof.
  induction l as [|a l IH]; [reflexivity|]. cbn [zip_with map]. rewrite IH. reflexivity.
Qed.

Lemma for_each_const (B : Type) (v : B) (ts : list nat) :
  for_each (fun _ => Ok v) ts = Ok (map (fun _ => v) ts).
Proof.
  induction ts as [|t ts IH]; [reflexivity|].
  cbn [for_each bind map]. rewrite IH. reflexivity.
Qed.

Lemma for_each_values (B : Type) (body : nat -> result B) (ts : list nat) (vs : list B) :
  for_each body ts = Ok vs -> Forall2 (fun t v => body t = Ok v) ts vs.
Proof.
  revert vs. induction ts as [|t ts IH]; intros vs Hvs; cbn [for_each] in Hvs.
  - injection Hvs as <-. constructor.
  - apply bind_Ok_inv in Hvs as (v & Hv & Hvs).
    apply bind_Ok_inv in Hvs as (vs' & Hvs' & Hvs).
    injection Hvs as <-. constructor; [exact Hv|apply IH; exact Hvs'].
Qed.

Section LossValues.

Local Open Scope R_scope.

Variable ssim : Tensor R -> Tensor R -> result R.

Lemma Rsum_zeros (l : list R) : Forall (fun v => v = 0) l -> Rsum l = 0.
Proof.
  induction 1 as [|v l -> _ IH]; cbn [Rsum fold_right]; [reflexivity|].
  fold (Rsum l). rewrite IH. ring.
Qed.

Lemma mean_zeros (l : list R) : Forall (fun v => v = 0) l -> mean l = 0.
Proof. intros Hl. unfold mean. rewrite (Rsum_zeros Hl). unfold Rdiv. ring. Qed.

Lemma Rsum_nonneg (l : list R) : Forall (fun v => 0 <= v) l -> 0 <= Rsum l.
Proof.
  induction 1 as [|v l Hv _ IH]; cbn [Rsum fold_right]; [lra|].
  fold (Rsum l). lra.
Qed.

Lemma mean_nonneg (l : list R) : l <> [] -> Forall (fun v => 0 <= v) l -> 0 <= mean l.
Proof.
  intros Hne Hl. unfold mean, Rdiv.
  apply Rmult_le_pos; [apply Rsum_nonneg; assumption|].
  apply Rlt_le, Rinv_0_lt_compat, lt_0_INR.
  destruct l; [contradiction|cbn [List.length]; lia].
Qed.

Lemma plain_mse_same (x : Tensor R) : plain_mse x x = 0.
Proof.
  unfold plain_mse, squared_error_mean. apply mean_zeros.
  rewrite zip_with_diag. apply Forall_forall. intros v Hv.
  apply in_map_iff in Hv as (a & <- & _). ring.
Qed.

(** X18. The loss vanishes at a perfect prediction, whatever its two
    weights are: for a well-formed non-empty tensor with a time axis, on
    whose frames the structural-similarity metric scores a frame against
    itself 1, the loss of the tensor against itself is 0. *)
Theorem CustomLoss_forward_perfect_prediction (self : CustomLoss) (x : Tensor R)
  (n T : nat) (rest : Size) :
  wf x -> size x = n :: T :: rest ->
  (0 < numel (size x))%nat ->
  (forall t p, select1 x t = Ok p -> ssim p p = Ok 1) ->
  CustomLoss_forward ssim self x x = Ok 0.
Proof.
  intros Hwf Hs Hpos Hssim. unfold CustomLoss_forward.
  rewrite mse_loss_same_size by (assumption || reflexivity). cbn [bind].
  rewrite plain_mse_same. rewrite Hs at 1. cbn [Sizes.size_at nth_error bind].
  rewrite (@for_each_ext _ _ (fun _ => Ok (1 - 1))).
  2:{ intros t Ht. apply in_seq in Ht.
      destruct (@select1_returns _ x n T t rest Hs) as [p Hp]; [lia|].
      rewrite Hp. cbn [bind]. rewrite (Hssim t p Hp). reflexivity. }
  rewrite for_each_const. cbn [bind].
  assert (HT : (1 <= T)%nat).
  { rewrite Hs in Hpos. cbn [numel fold_right] in Hpos.
    destruct T as [|T']; [rewrite Nat.mul_0_l, Nat.mul_0_r in Hpos|]; lia. }
  destruct T as [|T']; [lia|].
  cbn [seq map stack_mean bind]. f_equal.
  rewrite mean_zeros; [ring|].
  constructor; [ring|]. apply Forall_forall. intros v Hv.
  apply in_map_iff in Hv as (t & <- & _). ring.
Qed.

(** X19. With non-negative weights and a metric whose scores do not exceed
    1, as structural similarity does not, the loss of two well-formed
    non-empty tensors of one size is never negative. *)
Theorem CustomLoss_forward_nonneg (self : CustomLoss) (output target : Tensor R) (v : R) :
  0 <= mse_weight self -> 0 <= ssim_weight self ->
  (forall p q s, ssim p q = Ok s -> s <= 1) ->
  wf output -> wf target -> size output = size target ->
  (0 < numel (size output))%nat ->
  CustomLoss_forward ssim self output target = Ok v ->
  0 <= v.
Proof.
  intros Hmw Hsw Hle Ho Ht Hs Hpos. unfold CustomLoss_forward.
  rewrite mse_loss_same_size by assumption. cbn [bind]. intros Hv.
  apply bind_Ok_inv in Hv as (steps & _ & Hv).
  apply bind_Ok_inv in Hv as (losses & Hlosses & Hv).
  apply bind_Ok_inv in Hv as (sl & Hsl & Hv).
  injection Hv as <-.
  assert (Hmse : 0 <= plain_mse output target).
  { unfold plain_mse, squared_error_mean, mean, Rdiv.
    apply Rmult_le_pos.
    - apply Rsum_nonneg. clear. generalize (data target).
      induction (data output) as [|a l IH]; intros [|b l']; cbn [zip_with];
        constructor; [apply Rle_0_sqr|apply IH].
    - destruct (List.length _); [cbn [INR]; rewrite Rinv_0; lra|].
      apply Rlt_le, Rinv_0_lt_compat, lt_0_INR. lia. }
  assert (Hssim : 0 <= sl).
  { destruct losses as [|l0 losses]; [discriminate Hsl|].
    cbn [stack_mean] in Hsl. injection Hsl as <-.
    apply mean_nonneg; [discriminate|].
    apply for_each_values in Hlosses.
    clear -Hlosses Hle. revert Hlosses. generalize (l0 :: losses). generalize (seq 0 steps).
    induction 1 as [|t l ts ls Hbody _ IH]; constructor; [|exact IH].
    apply bind_Ok_inv in Hbody as (p & _ & Hbody).
    apply bind_Ok_inv in Hbody as (q & _ & Hbody).
    apply bind_Ok_inv in Hbody as (s & Hs & Hbody).
    injection Hbody as <-. specialize (Hle p q s Hs). lra. }
  apply Rplus_le_le_0_compat; apply Rmult_le_pos; assumption.
Qed.

(** X20. The loss needs a time axis: on two tensors of one size with fewer
    than two axes the mean-squared error is computed and the loop bound
    [output.size(1)] raises an [IndexError]. *)
Theorem CustomLoss_forward_needs_time_axis (self : CustomLoss)
  (output target : Tensor R) :
  size output = size target ->
  (List.length (size output) <= 1)%nat ->
  exists msg, CustomLoss_forward ssim self output target = Raise (IndexError msg).
Proof.
  intros Hs Hrank. unfold CustomLoss_forward, mse_loss, broadcast_tensors.
  rewrite <- Hs, broadcast_size_same. cbn [bind].
  unfold Sizes.size_at.
  replace (nth_error (size output) 1) with (@None nat)
    by (symmetry; apply nth_error_None; assumption).
  cbn [bind]. eexists. reflexivity.
Qed.

End LossValues.

Lemma size_checking_metric_same (p : Tensor R) : size_checking_metric p p = Ok 1%R.
Proof.
  unfold size_checking_metric, Size_eqb.
  destruct (list_eq_dec Nat.eq_dec (size p) (size p)); [reflexivity|contradiction].
Qed.

Lemma size_checking_metric_le (p q : Tensor R) (s : R) :
  size_checking_metric p q = Ok s -> (s <= 1)%R.
Proof.
  unfold size_checking_metric. destruct (Size_eqb (size p) (size q)); [|discriminate].
  intros Hs. injection Hs as <-. lra.
Qed.

Lemma CustomLoss_forward_perfect_prediction_witness :
  CustomLoss_forward size_checking_metric CustomLoss_default
    (mkTensor [2; 3; 2; 16; 16] (List.repeat 1%R 3072))
    (mkTensor [2; 3; 2; 16; 16] (List.repeat 1%R 3072))
  = Ok 0%R.
Proof.
  apply (@CustomLoss_forward_perfect_prediction size_checking_metric CustomLoss_default
           (mkTensor [2; 3; 2; 16; 16] (List.repeat 1%R 3072)) 2 3 [2; 16; 16]).
  - reflexivity.
  - reflexivity.
  - cbn. lia.
  - intros t p _. apply size_checking_metric_same.
Defined.

Lemma CustomLoss_forward_nonneg_witness :
  exists v,
    CustomLoss_forward size_checking_metric CustomLoss_default
      (zeros [2; 3; 2; 16; 16]) (mkTensor [2; 3; 2; 16; 16] (List.repeat 1%R 3072))
    = Ok v
    /\ (0 <= v)%R.
Proof.
  eexists. split; [hnf; reflexivity|].
  apply (@CustomLoss_forward_nonneg size_checking_metric CustomLoss_default
           (zeros [2; 3; 2; 16; 16]) (mkTensor [2; 3; 2; 16; 16] (List.repeat 1%R 3072))).
  - cbn. lra.
  - cbn. lra.
  - exact size_checking_metric_le.
  - reflexivity.
  - reflexivity.
  - reflexivity.
  - cbn. lia.
  - hnf. reflexivity.
Defined.

Lemma CustomLoss_forward_needs_time_axis_witness :
  exists msg,
    CustomLoss_forward size_checking_metric CustomLoss_default
      (mkTensor [3] [1%R; 2%R; 3%R]) (mkTensor [3] [3%R; 2%R; 1%R])
    = Raise (IndexError msg).
Proof.
  apply (@CustomLoss_forward_needs_time_axis size_checking_metric CustomLoss_default
           (mkTensor [3] [1%R; 2%R; 3%R]) (mkTensor [3] [3%R; 2%R; 1%R])).
  - reflexivity.
  - cbn. lia.
Defined.

(* ----------------------------------------------------------------- *)
(** ** The dataset accessor *)

Section DatasetAccess.

Local Open Scope Q_scope.

Variable np_load : string -> result ndarray.

(** X21. [len(dataset)] counts the input names only, and an index that is
    not below the number of input names or not below the number of target
    names raises the [IndexError] of the list access before any file is
    read; so a dataset with fewer target names than input names raises for
    an index below its length. *)
Theorem getitem_index_out_of_range (self : CustomDataset) (idx : nat) :
  (CustomDataset_len self <= idx \/ List.length (filenames_y self) <= idx)%nat ->
  CustomDataset_getitem np_load self idx = Raise (IndexError "list index out of range").
Proof.
  unfold CustomDataset_len, CustomDataset_getitem, list_item. intros Hidx.
  destruct (nth_error (filenames_X self) idx) as [X_name|] eqn:EX; cbn [bind];
    [|reflexivity].
  destruct (nth_error (filenames_y self) idx) as [y_name|] eqn:Ey; cbn [bind];
    [|reflexivity].
  exfalso. destruct Hidx as [H|H]; apply nth_error_None in H; congruence.
Qed.

Lemma fold_min_In (l : list Q) (x : Q) : In (fold_left Qmin_b l x) (x :: l).
Proof.
  revert x. induction l as [|y l IH]; intros x; cbn [fold_left]; [left; reflexivity|].
  destruct (IH (Qmin_b x y)) as [H|H]; [|right; right; exact H].
  rewrite <- H. unfold Qmin_b. destruct (Qle_bool x y); [left|right; left]; reflexivity.
Qed.

Lemma fold_max_In (l : list Q) (x : Q) : In (fold_left Qmax_b l x) (x :: l).
Proof.
  revert x. induction l as [|y l IH]; intros x; cbn [fold_left]; [left; reflexivity|].
  destruct (IH (Qmax_b x y)) as [H|H]; [|right; right; exact H].
  rewrite <- H. unfold Qmax_b. destruct (Qle_bool x y); [right; left|left]; reflexivity.
Qed.

Lemma np_min_In (a : ndarray) (lo : Q) : np_min a = Ok lo -> In lo (arr_values a).
Proof.
  unfold np_min. destruct (arr_values a) as [|x l]; [discriminate|].
  intros Hlo. injection Hlo as <-. apply fold_min_In.
Qed.

Lemma np_max_In (a : ndarray) (hi : Q) : np_max a = Ok hi -> In hi (arr_values a).
Proof.
  unfold np_max. destruct (arr_values a) as [|x l]; [discriminate|].
  intros Hhi. injection Hhi as <-. apply fold_max_In.
Qed.

Lemma normalize_normalized (a : ndarray) (u v : Q) :
  In u (arr_values a) -> In v (arr_values a) -> u < v ->
  exists t, normalize a = Ok t /\ normalized a t.
Proof.
  intros Hu Hv Huv.
  assert (Hne : arr_values a <> []) by (intros Hnil; rewrite Hnil in Hu; destruct Hu).
  destruct (np_min a) as [lo|] eqn:Hlo;
    [|unfold np_min in Hlo; destruct (arr_values a); [contradiction|discriminate]].
  destruct (np_max a) as [hi|] eqn:Hhi;
    [|unfold np_max in Hhi; destruct (arr_values a); [contradiction|discriminate]].
  assert (Hlt : lo < hi).
  { assert (H1 := np_min_le Hlo). assert (H2 := np_max_ge Hhi).
    rewrite Forall_forall in H1, H2. specialize (H1 u Hu). specialize (H2 v Hv).
    Lqa.lra. }
  assert (Hnz : Qeq_bool (hi - lo) 0 = false).
  { destruct (Qeq_bool (hi - lo) 0) eqn:E; [|reflexivity].
    apply Qeq_bool_iff in E. Lqa.lra. }
  assert (Hnz' : ~ hi - lo == 0) by (intros E; Lqa.lra).
  destruct (normalize a) as [t|] eqn:Ht;
    [|unfold normalize in Ht; rewrite Hlo, Hhi in Ht; discriminate].
  exists t. split; [reflexivity|].
  assert (Hunit := normalize_unit_interval Hlo Hhi Hlt Ht).
  unfold normalize in Ht. rewrite Hlo, Hhi in Ht. cbn [bind] in Ht. injection Ht as <-.
  unfold normalized. cbn [size data].
  split; [reflexivity|]. split; [apply length_map|]. split; [exact Hunit|]. split.
  - exists ((lo - lo) / (hi - lo)). split.
    + apply in_map_iff. exists lo. split; [|apply (np_min_In Hlo)].
      unfold true_divide. rewrite Hnz. reflexivity.
    + field. exact Hnz'.
  - exists ((hi - lo) / (hi - lo)). split.
    + apply in_map_iff. exists hi. split; [|apply (np_max_In Hhi)].
      unfold true_divide. rewrite Hnz. reflexivity.
    + field. exact Hnz'.
Qed.

(** X22. Away from constant arrays the accessor does what it is meant to
    do: when the two files of a sample hold arrays that each contain two
    different values, it returns two tensors with the shapes of the arrays,
    all of whose values lie in [[0,1]], with the value 0 at a minimum and
    the value 1 at a maximum of each array. *)
Theorem getitem_normalizes (self : CustomDataset) (idx : nat)
  (X_name y_name : string) (X_array y_array : ndarray) (u v u' v' : Q) :
  list_item (filenames_X self) idx = Ok X_name ->
  list_item (filenames_y self) idx = Ok y_name ->
  np_load (path_join (root_X self) X_name) = Ok X_array ->
  np_load (path_join (root_y self) y_name) = Ok y_array ->
  In u (arr_values X_array) -> In v (arr_values X_array) -> u < v ->
  In u' (arr_values y_array) -> In v' (arr_values y_array) -> u' < v' ->
  exists X y,
    CustomDataset_getitem np_load self idx = Ok (X, y)
    /\ normalized X_array X /\ normalized y_array y.
Proof.
  intros HX Hy HlX Hly Hu Hv Huv Hu' Hv' Huv'.
  destruct (normalize_normalized Hu Hv Huv) as (X & HnX & HX').
  destruct (normalize_normalized Hu' Hv' Huv') as (y & Hny & Hy').
  exists X, y. unfold CustomDataset_getitem.
  rewrite HX, Hy. cbn [bind]. rewrite HlX, Hly. cbn [bind].
  rewrite HnX, Hny. cbn [bind]. auto.
Qed.

(** X23. An empty array cannot be normalised: when the input file or the
    target file of a sample holds an array without elements, the accessor
    raises the [ValueError] of the minimum of an empty array. *)
Theorem getitem_empty_array (self : CustomDataset) (idx : nat)
  (X_name y_name : string) (X_array y_array : ndarray) :
  list_item (filenames_X self) idx = Ok X_name ->
  list_item (filenames_y self) idx = Ok y_name ->
  np_load (path_join (root_X self) X_name) = Ok X_array ->
  np_load (path_join (root_y self) y_name) = Ok y_array ->
  arr_values X_array = [] \/ arr_values y_array = [] ->
  CustomDataset_getitem np_load self idx
  = Raise (ValueError
             "zero-size array to reduction operation minimum which has no identity").
Proof.
  intros HX Hy HlX Hly Hempty. unfold CustomDataset_getitem.
  rewrite HX, Hy. cbn [bind]. rewrite HlX, Hly. cbn [bind].
  unfold normalize at 1, np_min at 1, np_max at 1.
  destruct (arr_values X_array) as [|x l] eqn:EX; [reflexivity|].
  destruct Hempty as [H|H]; [discriminate H|].
  cbn [bind]. unfold normalize, np_min. rewrite H. reflexivity.
Qed.

End DatasetAccess.

Lemma getitem_index_out_of_range_witness :
  1 < CustomDataset_len uneven_dataset
  /\ CustomDataset_getitem disk uneven_dataset 1
     = Raise (IndexError "list index out of range").
Proof.
  split; [cbn; lia|].
  apply (@getitem_index_out_of_range disk uneven_dataset 1). right. cbn. lia.
Defined.

Lemma getitem_normalizes_witness :
  exists X y,
    CustomDataset_getitem varying_disk one_sample 0 = Ok (X, y)
    /\ normalized varying_field X /\ normalized varying_field y.
Proof.
  apply (@getitem_normalizes varying_disk one_sample 0 "a.npy" "a.npy"
           varying_field varying_field 1%Q 2%Q 1%Q 2%Q).
  - reflexivity.
  - reflexivity.
  - reflexivity.
  - reflexivity.
  - cbn. auto.
  - cbn. auto.
  - reflexivity.
  - cbn. auto.
  - cbn. auto.
  - reflexivity.
Defined.

Lemma getitem_empty_array_witness :
  CustomDataset_getitem empty_disk one_sample 0
  = Raise (ValueError
             "zero-size array to reduction operation minimum which has no identity").
Proof.
  apply (@getitem_empty_array empty_disk one_sample 0 "a.npy" "a.npy"
           (mk_ndarray [0] []) (mk_ndarray [0] [])).
  - reflexivity.
  - reflexivity.
  - reflexivity.
  - reflexivity.
  - left. reflexivity.
Defined.

(* ----------------------------------------------------------------- *)
(** ** The epochs of the training loop *)

Lemma chunks_fuel_concat (A : Type) (size fuel : nat) (l : list A) :
  0 < size -> List.length l <= fuel -> List.concat (chunks_fuel fuel size l) = l.
Proof.
  intros Hsize. revert l. induction fuel as [|fuel IH]; intros l Hl.
  - destruct l; [reflexivity|cbn [List.length] in Hl; lia].
  - destruct l as [|x l]; [reflexivity|].
    cbn [chunks_fuel List.concat].
    rewrite IH by (rewrite length_skipn; cbn [List.length] in *; lia).
    apply firstn_skipn.
Qed.

Lemma chunks_fuel_lengths (A : Type) (size fuel : nat) (l : list A) :
  0 < size ->
  Forall (fun b => 1 <= List.length b <= size) (chunks_fuel fuel size l).
Proof.
  intros Hsize. revert l. induction fuel as [|fuel IH]; intros l; [constructor|].
  destruct l as [|x l]; [constructor|].
  cbn [chunks_fuel]. constructor; [|apply IH].
  rewrite length_firstn. cbn [List.length]. lia.
Qed.

Lemma chunks_fuel_count (A : Type) (size fuel : nat) (l : list A) :
  0 < size -> List.length l <= fuel ->
  List.length (chunks_fuel fuel size l) = (List.length l + size - 1) / size.
Proof.
  intros Hsize. revert l. induction fuel as [|fuel IH]; intros l Hl.
  - destruct l; [|cbn [List.length] in Hl; lia].
    cbn [chunks_fuel List.length]. symmetry. apply Nat.div_small. lia.
  - destruct l as [|x l].
    + cbn [chunks_fuel List.length]. symmetry. apply Nat.div_small. lia.
    + cbn [chunks_fuel]. cbn [List.length] in *.
      rewrite IH by (rewrite length_skipn; cbn [List.length]; lia).
      rewrite length_skipn. cbn [List.length].
      replace (S (List.length l) + size - 1) with (List.length l + 1 * size) by lia.
      rewrite Nat.div_add by lia.
      destruct (Nat.le_gt_cases (S (List.length l)) size) as [Hle|Hgt].
      * replace (S (List.length l) - size + size - 1) with (size - 1) by lia.
        rewrite !Nat.div_small by lia. reflexivity.
      * replace (S (List.length l) - size + size - 1) with (List.length l) by lia.
        lia.
Qed.

Lemma map_nth_seq (A : Type) (l : list A) (d : A) :
  map (fun i => nth i l d) (seq 0 (List.length l)) = l.
Proof.
  induction l as [|a l IH]; [reflexivity|].
  cbn [List.length seq map nth]. rewrite <- seq_shift, map_map. cbn [nth].
  rewrite IH. reflexivity.
Qed.

Section Epochs.

Variable Model : Type.
Variable Rng : Type.
Variable randperm : Rng -> nat -> list nat * Rng.
Variable train_step : Model -> list nat -> result (Model * R).
Variable eval_step : Model -> list nat -> result R.

Lemma train_batches_events (bs : list (list nat)) (m m' : Model) (acc total : R)
  (evs : list event) :
  train_batches train_step m acc bs = Ok (m', total, evs) -> evs = map TrainBatch bs.
Proof.
  revert m m' acc total evs.
  induction bs as [|b bs IH]; intros m m' acc total evs; cbn [train_batches map].
  - intros Hr. injection Hr as _ _ <-. reflexivity.
  - intros Hr. apply bind_Ok_inv in Hr as ([m1 loss] & _ & Hr).
    apply bind_Ok_inv in Hr as ([[m2 t2] evs2] & Hrest & Hr).
    injection Hr as _ _ <-. rewrite (IH _ _ _ _ _ Hrest). reflexivity.
Qed.

Lemma valid_batches_events (bs : list (list nat)) (m : Model) (grad : bool)
  (acc total : R) (evs : list event) :
  valid_batches eval_step m grad acc bs = Ok (total, evs) ->
  evs = map (fun b => ValidBatch b grad) bs.
Proof.
  revert acc total evs.
  induction bs as [|b bs IH]; intros acc total evs; cbn [valid_batches map].
  - intros Hr. injection Hr as _ <-. reflexivity.
  - intros Hr. apply bind_Ok_inv in Hr as (loss & _ & Hr).
    apply bind_Ok_inv in Hr as ([t2 evs2] & Hrest & Hr).
    injection Hr as _ <-. rewrite (IH _ _ _ Hrest). reflexivity.
Qed.

(** What an epoch that returns has done. *)
Lemma epoch_body_inv (n epoch : nat) (st st' : TrainState Model Rng) (evs : list event) :
  epoch_body randperm train_step eval_step n epoch st = Ok (st', evs) ->
  exists perm g1 perm2 g2 report,
    randperm (st_rng st) n = (perm, g1)
    /\ randperm g1 (List.length (firstn (train_subset_size n) perm)) = (perm2, g2)
    /\ firstn (train_subset_size n) perm <> []
    /\ evs = EpochStart epoch
               :: Split (firstn (train_subset_size n) perm)
                    (skipn (train_subset_size n) perm)
               :: map TrainBatch
                    (chunks batch_size
                       (map (fun i => nth i (firstn (train_subset_size n) perm) 0) perm2))
               ++ map (fun b => ValidBatch b false)
                    (chunks batch_size (skipn (train_subset_size n) perm))
               ++ report.
Proof.
  unfold epoch_body, random_split, shuffled_batches.
  assert (Hk : train_subset_size n <= n)
    by (unfold train_subset_size; apply Nat.Div0.div_le_upper_bound; lia).
  set (k := train_subset_size n) in *.
  replace (k + (n - k)) with n by lia.
  destruct (randperm (st_rng st) n) as [perm g1].
  destruct (firstn k perm) as [|i0 tr] eqn:Etr; [discriminate|].
  cbn [DataLoader_shuffled bind].
  destruct (randperm g1 (List.length (i0 :: tr))) as [perm2 g2] eqn:E2.
  intros Hr.
  apply bind_Ok_inv in Hr as ([[m tl] tevs] & Htb & Hr).
  apply bind_Ok_inv in Hr as (ttl & _ & Hr).
  apply bind_Ok_inv in Hr as ([vl vevs] & Hvb & Hr).
  apply bind_Ok_inv in Hr as (tvl & _ & Hr).
  injection Hr as _ <-.
  apply train_batches_events in Htb. apply valid_batches_events in Hvb. subst tevs vevs.
  exists perm, g1, perm2, g2. eexists. rewrite Etr.
  split; [reflexivity|]. split; [exact E2|]. split; [discriminate|]. reflexivity.
Qed.

Hypothesis randperm_permutation :
  forall g k, Permutation (fst (randperm g k)) (seq 0 k).

(** X25. Every epoch splits the pool afresh, and the split is a partition:
    with a generator whose draws are permutations, an epoch that returns has
    drawn a training subset of [int(0.8 n)] samples and a validation subset
    of the remaining ones that together hold every sample of the pool
    exactly once, so no sample is trained on and validated in the same
    epoch. *)
Theorem epoch_split_partitions (n epoch : nat) (st st' : TrainState Model Rng)
  (evs : list event) :
  epoch_body randperm train_step eval_step n epoch st = Ok (st', evs) ->
  exists train_subset val_subset rest,
    evs = EpochStart epoch :: Split train_subset val_subset :: rest
    /\ Permutation (train_subset ++ val_subset) (seq 0 n)
    /\ NoDup (train_subset ++ val_subset)
    /\ List.length train_subset = train_subset_size n
    /\ List.length val_subset = n - train_subset_size n.
Proof.
  intros Hr.
  destruct (epoch_body_inv Hr) as (perm & g1 & perm2 & g2 & report & Hperm & _ & _ & ->).
  assert (HP := randperm_permutation (st_rng st) n). rewrite Hperm in HP. cbn [fst] in HP.
  assert (Hlen : List.length perm = n)
    by (rewrite (Permutation_length HP); apply length_seq).
  assert (Hk : train_subset_size n <= n)
    by (unfold train_subset_size; apply Nat.Div0.div_le_upper_bound; lia).
  do 3 eexists. split; [reflexivity|].
  rewrite firstn_skipn, length_firstn, length_skipn, Hlen.
  split; [exact HP|]. split; [|lia].
  apply (Permutation_NoDup (Permutation_sym HP)), seq_NoDup.
Qed.

(** X26. Within an epoch that returns, every sample of the training subset
    is in exactly one training batch and every sample of the validation
    subset in exactly one validation batch, the validation batches following
    the order of the subset; no batch is empty or holds more than 32
    samples, and a training subset of [k] samples makes [(k + 31) / 32]
    training batches. *)
Theorem epoch_batches_cover (n epoch : nat) (st st' : TrainState Model Rng)
  (evs : list event) :
  epoch_body randperm train_step eval_step n epoch st = Ok (st', evs) ->
  exists train_subset val_subset batches report,
    evs = EpochStart epoch :: Split train_subset val_subset
            :: map TrainBatch batches
            ++ map (fun b => ValidBatch b false) (chunks batch_size val_subset)
            ++ report
    /\ Permutation (List.concat batches) train_subset
    /\ List.concat (chunks batch_size val_subset) = val_subset
    /\ Forall (fun b => 1 <= List.length b <= 32)
         (batches ++ chunks batch_size val_subset)
    /\ List.length batches = (List.length train_subset + 31) / 32.
Proof.
  intros Hr.
  destruct (epoch_body_inv Hr) as (perm & g1 & perm2 & g2 & report & _ & Hperm2 & _ & ->).
  set (tr := firstn (train_subset_size n) perm) in *.
  assert (HP := randperm_permutation g1 (List.length tr)).
  rewrite Hperm2 in HP. cbn [fst] in HP.
  assert (Hmap : List.length (map (fun i => nth i tr 0) perm2) = List.length tr)
    by (rewrite length_map, (Permutation_length HP); apply length_seq).
  do 4 eexists. split; [reflexivity|].
  unfold chunks, batch_size.
  split; [|split; [|split]].
  - rewrite chunks_fuel_concat by lia.
    apply Permutation_trans with (map (fun i => nth i tr 0) (seq 0 (List.length tr))).
    + apply Permutation_map. exact HP.
    + rewrite map_nth_seq. apply Permutation_refl.
  - apply chunks_fuel_concat; lia.
  - apply Forall_app. split; apply chunks_fuel_lengths; lia.
  - rewrite chunks_fuel_count by lia. rewrite Hmap. f_equal. lia.
Qed.

End Epochs.

Lemma epoch_split_partitions_witness :
  exists st' evs,
    epoch_body counting_randperm unit_train_step unit_eval_step 10 0 initial_state
    = Ok (st', evs)
    /\ exists train_subset val_subset rest,
         evs = EpochStart 0 :: Split train_subset val_subset :: rest
         /\ Permutation (train_subset ++ val_subset) (seq 0 10)
         /\ NoDup (train_subset ++ val_subset)
         /\ List.length train_subset = train_subset_size 10
         /\ List.length val_subset = 10 - train_subset_size 10.
Proof.
  eexists. eexists. split; [reflexivity|].
  eapply (@epoch_split_partitions unit nat counting_randperm unit_train_step unit_eval_step
           (fun g k => Permutation_refl (seq 0 k)) 10 0 initial_state).
  reflexivity.
Defined.

Lemma epoch_batches_cover_witness :
  exists st' evs,
    epoch_body counting_randperm unit_train_step unit_eval_step 100 4 initial_state
    = Ok (st', evs)
    /\ exists train_subset val_subset batches report,
         evs = EpochStart 4 :: Split train_subset val_subset
                 :: map TrainBatch batches
                 ++ map (fun b => ValidBatch b false) (chunks batch_size val_subset)
                 ++ report
         /\ Permutation (List.concat batches) train_subset
         /\ List.concat (chunks batch_size val_subset) = val_subset
         /\ Forall (fun b => 1 <= List.length b <= 32)
              (batches ++ chunks batch_size val_subset)
         /\ List.length batches = (List.length train_subset + 31) / 32.
Proof.
  eexists. eexists. split; [reflexivity|].
  eapply (@epoch_batches_cover unit nat counting_randperm unit_train_step unit_eval_step
           (fun g k => Permutation_refl (seq 0 k)) 100 4 initial_state).
  reflexivity.
Defined.

(** X27. On a pool of fewer than two samples the loop raises in its first
    epoch, whatever the generator and the batch steps are: [int(0.8 n)] is
    0, and no loader can be built over the empty training subset. *)
Theorem training_small_pool_raises
  (Model Rng : Type) (randperm : Rng -> nat -> list nat * Rng)
  (train_step : Model -> list nat -> result (Model * R))
  (eval_step : Model -> list nat -> result R)
  (n : nat) (st : TrainState Model Rng) :
  n < 2 ->
  raises (training randperm train_step eval_step n st).
Proof.
  intros Hn. unfold training, num_epochs. cbn [seq run_epochs].
  do 2 apply raises_bind.
  unfold epoch_body, random_split.
  replace (train_subset_size n) with 0
    by (destruct n as [|[|n]]; [reflexivity|reflexivity|lia]).
  destruct (randperm (st_rng st) (0 + (n - 0))) as [perm g1].
  cbn [firstn DataLoader_shuffled bind]. apply raises_Raise.
Qed.

Lemma training_small_pool_raises_witness :
  raises (training counting_randperm unit_train_step unit_eval_step 0 initial_state).
Proof.
  apply (@training_small_pool_raises unit nat counting_randperm unit_train_step
           unit_eval_step 0 initial_state).
  lia.
Defined.
